(** * AWaveViewer: the non-visual core of [AWaveViewer.py]

    A shallow embedding of the Verilog syntax checker, the module parser, the
    testbench generator, the VCD parser and the logic analysis of
    [AWaveViewer.py], with the properties of the specification stated and
    settled against it.

    Conventions of the embedding.
    - Python [str] is [string] (a sequence of 8-bit characters); the character
      classes of [re] and of the [str] methods are the ASCII part of Python's
      ([\w] is [[A-Za-z0-9_]], [\s] is the ASCII characters for which
      [str.isspace] holds, [\d] is [[0-9]]).  Message texts that contain
      non-ASCII symbols are their UTF-8 bytes.
    - Python [int] is [Z].
    - A [dict] used as a map is a [gmap]; a [dict] with a fixed set of keys
      is a record.
    - Regular expressions are values of [regex], interpreted by a backtracking
      matcher that enumerates the matches at a position in the order in which
      Python's [re] tries them. *)

From Stdlib Require Import ZArith Ascii List Lia Bool.
From stdpp Require Import gmap strings list fin_maps pretty.

Local Open Scope Z_scope.

(** ** Characters *)

Definition char_in (lo hi c : ascii) : bool :=
  ((N_of_ascii lo <=? N_of_ascii c) && (N_of_ascii c <=? N_of_ascii hi))%N.

Definition is_digit (c : ascii) : bool := char_in "0" "9" c.

Definition is_word (c : ascii) : bool :=
  char_in "a" "z" c || char_in "A" "Z" c || is_digit c || Ascii.eqb c "_".

(** [str.isspace] on the ASCII range: tab, line feed, vertical tab, form feed,
    carriage return, the separators 28 to 31 and the space. *)
Definition is_space (c : ascii) : bool :=
  char_in "009" "013" c || char_in "028" "031" c || Ascii.eqb c " ".

Definition newline : ascii := "010".

Definition to_lower (c : ascii) : ascii :=
  if char_in "A" "Z" c then ascii_of_N (N_of_ascii c + 32) else c.

(** ** The [str] methods the program uses *)

Fixpoint lower (s : string) : string :=
  match s with
  | EmptyString => EmptyString
  | String c s' => String (to_lower c) (lower s')
  end.

Fixpoint startswith (p s : string) : bool :=
  match p, s with
  | EmptyString, _ => true
  | String a p', String b s' => Ascii.eqb a b && startswith p' s'
  | String _ _, EmptyString => false
  end.

(** [sub in s] *)
Fixpoint contains (sub s : string) : bool :=
  startswith sub s ||
  match s with
  | EmptyString => false
  | String _ s' => contains sub s'
  end.

Fixpoint rev_onto (s acc : string) : string :=
  match s with
  | EmptyString => acc
  | String c s' => rev_onto s' (String c acc)
  end.

Definition str_rev (s : string) : string := rev_onto s EmptyString.

Definition endswith (suf s : string) : bool :=
  startswith (str_rev suf) (str_rev s).

Fixpoint lstrip (s : string) : string :=
  match s with
  | String c s' => if is_space c then lstrip s' else s
  | EmptyString => EmptyString
  end.

Definition strip (s : string) : string :=
  str_rev (lstrip (str_rev (lstrip s))).

(** [s[:n]] and [s[n:]] for [n >= 0]. *)
Fixpoint take_str (n : nat) (s : string) : string :=
  match n, s with
  | S n', String c s' => String c (take_str n' s')
  | _, _ => EmptyString
  end.

Fixpoint drop_str (n : nat) (s : string) : string :=
  match n, s with
  | S n', String _ s' => drop_str n' s'
  | _, _ => s
  end.

(** [s.split(sep)] for a one-character separator: empty pieces are kept and
    the empty string gives one empty piece. *)
Fixpoint split_on (sep : ascii) (s : string) : list string :=
  match s with
  | EmptyString => [EmptyString]
  | String c s' =>
      if Ascii.eqb c sep then EmptyString :: split_on sep s'
      else match split_on sep s' with
           | p :: ps => String c p :: ps
           | [] => [String c EmptyString]
           end
  end.

(** [s.split()]: the maximal runs of non-space characters. *)
Fixpoint split_ws_go (s : string) (cur : string) : list string :=
  match s with
  | EmptyString =>
      match cur with EmptyString => [] | _ => [str_rev cur] end
  | String c s' =>
      if is_space c then
        match cur with
        | EmptyString => split_ws_go s' EmptyString
        | _ => str_rev cur :: split_ws_go s' EmptyString
        end
      else split_ws_go s' (String c cur)
  end.

Definition split_ws (s : string) : list string := split_ws_go s EmptyString.

(** [sep.join(l)] *)
Fixpoint join (sep : string) (l : list string) : string :=
  match l with
  | [] => EmptyString
  | [x] => x
  | x :: l' => x +:+ sep +:+ join sep l'
  end.

(** The concatenation of a list of text fragments (a run of [+=]). *)
Fixpoint concat_str (l : list string) : string :=
  match l with
  | [] => EmptyString
  | x :: l' => x +:+ concat_str l'
  end.

(** [str(n)] and the formatting of an [int] in an f-string. *)
Definition str_of_Z (n : Z) : string := pretty n.
Definition str_of_nat (n : nat) : string := pretty (Z.of_nat n).

(** [int(s)] on ASCII text: surrounding white space is dropped, one sign is
    allowed, and the digits may be grouped by single underscores.  [None]
    stands for [ValueError]. *)
Definition digit_val (c : ascii) : Z := Z.of_N (N_of_ascii c) - 48.

Fixpoint int_digits (s : string) (acc : Z) (after_digit : bool) : option Z :=
  match s with
  | EmptyString => if after_digit then Some acc else None
  | String c s' =>
      if is_digit c then int_digits s' (10 * acc + digit_val c) true
      else if Ascii.eqb c "_" && after_digit then
        match s' with
        | String d _ => if is_digit d then int_digits s' acc false else None
        | EmptyString => None
        end
      else None
  end.

Definition py_int (s : string) : option Z :=
  match strip s with
  | String "-" s' => Z.opp <$> int_digits s' 0 false
  | String "+" s' => int_digits s' 0 false
  | s' => int_digits s' 0 false
  end.

(** [x in names], and [any(x == n for n in names)] *)
Definition named (x : string) (names : list string) : bool :=
  existsb (String.eqb x) names.

(** ** Regular expressions

    The fragment of Python's [re] syntax that the program uses.  A cursor is a
    position in the subject: the character before it (for [\b]), the text from
    it on, and the groups captured so far. *)

Inductive regex : Type :=
| RChar (p : ascii → bool)            (* one character of a class *)
| REps                                (* the empty pattern *)
| RSeq (r1 r2 : regex)                (* r1 r2 *)
| RAlt (r1 r2 : regex)                (* r1|r2 *)
| RStar (greedy : bool) (r : regex)   (* r* and r*? *)
| RGroup (n : nat) (r : regex)        (* the capturing group number n *)
| RWordB                              (* \b *)
| REol                                (* $ under re.MULTILINE *)
| RNotAhead (r : regex).              (* (?!r) *)

Record cursor : Type := Cursor {
  prev : option ascii;
  rest : string;
  caps : list (nat * string)
}.

Definition word_before (c : cursor) : bool :=
  match prev c with Some a => is_word a | None => false end.

Definition word_after (c : cursor) : bool :=
  match rest c with String a _ => is_word a | EmptyString => false end.

Definition at_eol (c : cursor) : bool :=
  match rest c with
  | EmptyString => true
  | String a _ => Ascii.eqb a newline
  end.

(** The text between two cursors of one subject. *)
Definition consumed (c c' : cursor) : string :=
  take_str (String.length (rest c) - String.length (rest c')) (rest c).

Definition set_cap (n : nat) (s : string) (c : cursor) : cursor :=
  Cursor (prev c) (rest c) ((n, s) :: caps c).

Fixpoint get_cap (n : nat) (l : list (nat * string)) : option string :=
  match l with
  | [] => None
  | (k, s) :: l' => if Nat.eqb k n then Some s else get_cap n l'
  end.

Definition progress (c c' : cursor) : bool :=
  (String.length (rest c') <? String.length (rest c))%nat.

(** The iteration of a starred pattern, of which [step] lists the matches:
    a greedy star tries one more iteration before it stops, a lazy one stops
    before it tries one more.  An iteration that consumes nothing is not
    repeated, so the length of the text that is left bounds the number of
    iterations. *)
Fixpoint star_loop (step : cursor → list cursor) (greedy : bool) (fuel : nat)
    (c0 : cursor) : list cursor :=
  match fuel with
  | O => [c0]
  | S fuel' =>
      let more :=
        flat_map (λ c1, if progress c0 c1 then star_loop step greedy fuel' c1 else [])
                 (step c0) in
      if greedy then more ++ [c0] else c0 :: more
  end.

(** [rmatch r c] lists the cursors at which a match of [r] that starts at [c]
    can end, in the order in which a backtracking matcher tries them: the
    head, if there is one, is the match that [re] reports. *)
Fixpoint rmatch (r : regex) (c : cursor) : list cursor :=
  match r with
  | RChar p =>
      match rest c with
      | String a s' => if p a then [Cursor (Some a) s' (caps c)] else []
      | EmptyString => []
      end
  | REps => [c]
  | RSeq r1 r2 => flat_map (rmatch r2) (rmatch r1 c)
  | RAlt r1 r2 => rmatch r1 c ++ rmatch r2 c
  | RStar greedy r1 => star_loop (rmatch r1) greedy (String.length (rest c)) c
  | RGroup n r1 => map (λ c1, set_cap n (consumed c c1) c1) (rmatch r1 c)
  | RWordB => if xorb (word_before c) (word_after c) then [c] else []
  | REol => if at_eol c then [c] else []
  | RNotAhead r1 => match rmatch r1 c with [] => [c] | _ :: _ => [] end
  end.

(** Derived forms. *)
Definition RPlus (greedy : bool) (r : regex) : regex := RSeq r (RStar greedy r).
Definition ROpt (r : regex) : regex := RAlt r REps.
Definition RIs (a : ascii) : regex := RChar (Ascii.eqb a).

Fixpoint RLit (s : string) : regex :=
  match s with
  | EmptyString => REps
  | String a EmptyString => RIs a
  | String a s' => RSeq (RIs a) (RLit s')
  end.

Fixpoint RSeqs (l : list regex) : regex :=
  match l with
  | [] => REps
  | [r] => r
  | r :: l' => RSeq r (RSeqs l')
  end.

Fixpoint RAlts (l : list regex) : regex :=
  match l with
  | [] => RChar (λ _, false)
  | [r] => r
  | r :: l' => RAlt r (RAlts l')
  end.

Definition one_of (s : string) (c : ascii) : bool :=
  contains (String c EmptyString) s.

Definition any_char (c : ascii) : bool := true.                (* . under re.DOTALL *)
Definition not_newline (c : ascii) : bool := negb (Ascii.eqb c newline).  (* . *)

(** A match object: where the match starts and where it ends. *)
Record rmatched : Type := Matched { m_start : cursor; m_end : cursor }.

Definition group0 (m : rmatched) : string := consumed (m_start m) (m_end m).
Definition group (n : nat) (m : rmatched) : option string := get_cap n (caps (m_end m)).

Definition match_at (r : regex) (p : option ascii) (s : string) : option rmatched :=
  let c := Cursor p s [] in
  match rmatch r c with
  | e :: _ => Some (Matched c e)
  | [] => None
  end.

(** [re.search]: the match at the leftmost position that has one. *)
Fixpoint search_from (r : regex) (p : option ascii) (s : string) : option rmatched :=
  match match_at r p s with
  | Some m => Some m
  | None =>
      match s with
      | EmptyString => None
      | String a s' => search_from r (Some a) s'
      end
  end.

Definition re_search (r : regex) (s : string) : option rmatched := search_from r None s.

(** [re.finditer]: the successive leftmost matches, none overlapping another.
    [skip] counts the characters still covered by the match found last. *)
Fixpoint finditer_from (r : regex) (p : option ascii) (s : string) (skip : nat)
  : list rmatched :=
  match skip with
  | S k =>
      match s with
      | EmptyString => []
      | String a s' => finditer_from r (Some a) s' k
      end
  | O =>
      match match_at r p s with
      | Some m =>
          m :: match s with
               | EmptyString => []
               | String a s' =>
                   finditer_from r (Some a) s' (String.length (group0 m) - 1)
               end
      | None =>
          match s with
          | EmptyString => []
          | String a s' => finditer_from r (Some a) s' O
          end
      end
  end.

Definition re_finditer (r : regex) (s : string) : list rmatched := finditer_from r None s O.

(** [len(re.findall(r, s))] *)
Definition re_count (r : regex) (s : string) : nat := length (re_finditer r s).

(** [re.sub(r, '', s)]: the subject without its matches. *)
Fixpoint sub_from (r : regex) (p : option ascii) (s : string) (skip : nat) : string :=
  match skip with
  | S k =>
      match s with
      | EmptyString => EmptyString
      | String a s' => sub_from r (Some a) s' k
      end
  | O =>
      match match_at r p s with
      | Some m =>
          match s with
          | EmptyString => EmptyString
          | String a s' =>
              match String.length (group0 m) with
              | O => String a (sub_from r (Some a) s' O)
              | S k => sub_from r (Some a) s' k
              end
          end
      | None =>
          match s with
          | EmptyString => EmptyString
          | String a s' => String a (sub_from r (Some a) s' O)
          end
      end
  end.

Definition re_sub_empty (r : regex) (s : string) : string := sub_from r None s O.

(** ** class VerilogSyntaxChecker *)

Module VerilogSyntaxChecker.

(** The word of a keyword pattern [\bkw\b]. *)
Definition re_keyword (kw : string) : regex := RSeqs [RWordB; RLit kw; RWordB].

Definition re_space_plus : regex := RPlus true (RChar is_space).
Definition re_space_star : regex := RStar true (RChar is_space).
Definition re_word_plus : regex := RPlus true (RChar is_word).

(** [//.*?$] with [re.MULTILINE] *)
Definition re_line_comment : regex :=
  RSeqs [RLit "//"; RStar false (RChar not_newline); REol].

(** [/\*.*?\*/] with [re.DOTALL] *)
Definition re_block_comment : regex :=
  RSeqs [RLit "/*"; RStar false (RChar any_char); RLit "*/"].

Definition _remove_comments (code : string) : string :=
  let code := re_sub_empty re_line_comment code in
  let code := re_sub_empty re_block_comment code in
  code.

(** [\bmodule\s+\w+] *)
Definition re_module_decl : regex :=
  RSeqs [RWordB; RLit "module"; re_space_plus; re_word_plus].

(** [\bmodule\s+] *)
Definition re_module : regex := RSeqs [RWordB; RLit "module"; re_space_plus].

(** [\bcase[xz]?\b] *)
Definition re_case : regex :=
  RSeqs [RWordB; RLit "case"; ROpt (RChar (one_of "xz")); RWordB].

(** [(input|output|inout)] *)
Definition re_port_kw : regex :=
  RGroup 1 (RAlts [RLit "input"; RLit "output"; RLit "inout"]).

(** [(input|output|inout)\s+[^\w\s\[\]]+] *)
Definition re_invalid_port : regex :=
  RSeqs [re_port_kw; re_space_plus;
         RPlus true (RChar (λ c, negb (is_word c || is_space c || one_of "[]" c)))].

(** [module\s+\w+.*?endmodule] with [re.DOTALL] *)
Definition re_module_content : regex :=
  RSeqs [RLit "module"; re_space_plus; re_word_plus;
         RStar false (RChar any_char); RLit "endmodule"].

(** [(always|assign|initial|\w+\s+\w+\s*\()] *)
Definition re_logic : regex :=
  RGroup 1 (RAlts [RLit "always"; RLit "assign"; RLit "initial";
                   RSeqs [re_word_plus; re_space_plus; re_word_plus;
                          re_space_star; RIs "("]]).

(** [(input|output|inout|wire|reg|parameter|assign|integer|real)\s+] *)
Definition re_statement : regex :=
  RSeqs [RGroup 1 (RAlts [RLit "input"; RLit "output"; RLit "inout";
                          RLit "wire"; RLit "reg"; RLit "parameter";
                          RLit "assign"; RLit "integer"; RLit "real"]);
         re_space_plus].

(** Checks 7 and 8: the running balance of an opening and a closing
    character.  [scan_line] is the inner loop over the characters of one
    line; it stops at the first closing character that makes the balance
    negative, and reports whether it did. *)
Fixpoint scan_line (opening closing : ascii) (line : string) (balance : Z)
  : Z * bool :=
  match line with
  | EmptyString => (balance, false)
  | String char line' =>
      if Ascii.eqb char opening then scan_line opening closing line' (balance + 1)
      else if Ascii.eqb char closing then
        if balance - 1 <? 0 then (balance - 1, true)
        else scan_line opening closing line' (balance - 1)
      else scan_line opening closing line' balance
  end.

Fixpoint scan_lines (opening closing : ascii) (unmatched : nat → string)
    (lines : list string) (line_num : nat) (balance : Z)
  : Z * list string :=
  match lines with
  | [] => (balance, [])
  | line :: lines' =>
      let line_num := S line_num in
      let '(balance, broke) := scan_line opening closing line balance in
      let '(final, errs) :=
        scan_lines opening closing unmatched lines' line_num balance in
      (final, (if broke then [unmatched line_num] else []) ++ errs)
  end.

Definition check_balance (opening closing : ascii) (unmatched : nat → string)
    (unclosed : Z → string) (code : string) : list string :=
  let '(balance, errs) :=
    scan_lines opening closing unmatched (split_on newline code) O 0 in
  errs ++ (if 0 <? balance then [unclosed balance] else []).

(** Check 13: the loop over [enumerate(lines, 1)]; [lines[i]] is the line
    after line number [i], the head of the lines still to come. *)
Definition startswith_any (ps : list string) (s : string) : bool :=
  existsb (λ p, startswith p s) ps.
Definition endswith_any (ps : list string) (s : string) : bool :=
  existsb (λ p, endswith p s) ps.

Fixpoint check_semicolons (i : nat) (lines : list string) : list string :=
  match lines with
  | [] => []
  | line :: lines' =>
      let line := strip line in
      (if negb (String.eqb line EmptyString) && negb (startswith "//" line) then
         if bool_decide (is_Some (match_at re_statement None line)) then
           if negb (endswith_any [";"; ","; ")"; "("; "begin"; "end"] line) then
             match lines' with
             | next :: _ =>
                 if negb (startswith_any [")"; ","] (strip next)) then
                   ["WARNING: Line " +:+ str_of_nat i +:+
                    " might be missing semicolon: " +:+ take_str 50 line]
                 else []
             | [] => []
             end
           else []
         else []
       else [])
      ++ check_semicolons (S i) lines'
  end.

Definition found (r : regex) (s : string) : bool :=
  bool_decide (is_Some (re_search r s)).

(** The messages appended to [errors], in the order of the checks. *)
Definition errors_of (code : string) : list string :=
  let module_count := re_count re_module code in
  let endmodule_count := re_count (re_keyword "endmodule") code in
  let case_count := re_count re_case code in
  let endcase_count := re_count (re_keyword "endcase") code in
  let function_count := re_count (re_keyword "function") code in
  let endfunction_count := re_count (re_keyword "endfunction") code in
  let task_count := re_count (re_keyword "task") code in
  let endtask_count := re_count (re_keyword "endtask") code in
  (* Check 1: Module declaration *)
  (if negb (found re_module_decl code)
   then ["ERROR: No module declaration found"] else [])
  (* Check 2: Module/endmodule matching *)
  ++ (if negb (Nat.eqb module_count endmodule_count)
      then ["ERROR: Module/endmodule mismatch (found " +:+ str_of_nat module_count
            +:+ " module(s) but " +:+ str_of_nat endmodule_count
            +:+ " endmodule(s))"] else [])
  (* Check 4: Case/endcase matching *)
  ++ (if negb (Nat.eqb case_count endcase_count)
      then ["ERROR: Case/endcase mismatch (found " +:+ str_of_nat case_count
            +:+ " case(s) but " +:+ str_of_nat endcase_count
            +:+ " endcase(s))"] else [])
  (* Check 5: Function/endfunction matching *)
  ++ (if negb (Nat.eqb function_count endfunction_count)
      then ["ERROR: Function/endfunction mismatch"] else [])
  (* Check 6: Task/endtask matching *)
  ++ (if negb (Nat.eqb task_count endtask_count)
      then ["ERROR: Task/endtask mismatch"] else [])
  (* Check 7: Parentheses matching *)
  ++ check_balance "(" ")"
       (λ line_num, "ERROR: Unmatched closing parenthesis at line "
                    +:+ str_of_nat line_num)
       (λ balance, "ERROR: " +:+ str_of_Z balance
                   +:+ " unclosed parenthesis/parentheses")
       code
  (* Check 8: Bracket matching *)
  ++ check_balance "[" "]"
       (λ line_num, "ERROR: Unmatched closing bracket at line "
                    +:+ str_of_nat line_num)
       (λ balance, "ERROR: " +:+ str_of_Z balance +:+ " unclosed bracket(s)")
       code.

(** The messages appended to [warnings], in the order of the checks.
    Check 10 of the source searches a pattern and does nothing with the
    result. *)
Definition warnings_of (code : string) : list string :=
  let module_count := re_count re_module code in
  let begin_count := re_count (re_keyword "begin") code in
  let end_count := re_count (re_keyword "end") code in
  (* Check 3: Begin/end matching *)
  (if negb (Nat.eqb begin_count end_count)
   then ["WARNING: Begin/end mismatch (found " +:+ str_of_nat begin_count
         +:+ " begin(s) but " +:+ str_of_nat end_count +:+ " end(s))"]
   else [])
  (* Check 9: Invalid port declarations *)
  ++ (match re_finditer re_invalid_port code with
      | _ :: _ => ["WARNING: Potentially invalid port declarations found"]
      | [] => []
      end)
  (* Check 11: Multiple module declarations in same block *)
  ++ (if (1 <? module_count)%nat
      then ["INFO: Multiple modules found (" +:+ str_of_nat module_count
            +:+ "). Only the first will be used for testbench generation."]
      else [])
  (* Check 12: Empty module *)
  ++ (match re_search re_module_content code with
      | Some module_content =>
          let content := group0 module_content in
          let has_ports := found re_port_kw content in
          let has_logic := found re_logic content in
          if negb has_ports && negb has_logic
          then ["WARNING: Module appears to be empty (no ports or logic found)"]
          else []
      | None => []
      end)
  (* Check 13: Common syntax errors *)
  ++ check_semicolons 1 (split_on newline code).

Definition check_syntax (verilog_code : string) : bool * list string :=
  let code := _remove_comments verilog_code in
  let errors := errors_of code in
  let warnings := warnings_of code in
  let all_messages := errors ++ warnings in
  let is_valid := Nat.eqb (length errors) 0 in
  (is_valid, all_messages).

(** [\b(logic|always_ff|always_comb|always_latch|interface|class|package)\b] *)
Definition re_systemverilog : regex :=
  RSeqs [RWordB;
         RGroup 1 (RAlts [RLit "logic"; RLit "always_ff"; RLit "always_comb";
                          RLit "always_latch"; RLit "interface"; RLit "class";
                          RLit "package"]);
         RWordB].

(** [\b(localparam|generate|signed|unsigned)\b] *)
Definition re_verilog2001 : regex :=
  RSeqs [RWordB;
         RGroup 1 (RAlts [RLit "localparam"; RLit "generate"; RLit "signed";
                          RLit "unsigned"]);
         RWordB].

Definition get_verilog_version (verilog_code : string) : string :=
  if found re_systemverilog verilog_code then "SystemVerilog"
  else if found re_verilog2001 verilog_code || found (RLit "@(*)") verilog_code
  then "Verilog-2001"
  else "Verilog-95".

End VerilogSyntaxChecker.

(** ** The module information record

    [parse_module] returns a [dict] with the keys [name], [inputs], [outputs],
    [inouts], [parameters], [regs] and [wires]; the entries of the lists are
    [dict]s with fixed keys. *)

Record parameter : Type := Param { prm_name : string; prm_value : string }.

Record port : Type := Port {
  p_name : string;
  p_width : Z;
  p_msb : Z;
  p_lsb : Z
}.

Record net : Type := Net { n_name : string; n_width : Z }.

Record module_info : Type := ModuleInfo {
  mi_name : string;
  mi_inputs : list port;
  mi_outputs : list port;
  mi_inouts : list port;
  mi_parameters : list parameter;
  mi_regs : list net;
  mi_wires : list net
}.

(** ** class VerilogParser *)

Module VerilogParser.
Import VerilogSyntaxChecker.

Definition re_digits : regex := RPlus true (RChar is_digit).

(** [(?:\[(\d+):(\d+)\]\s+)?] *)
Definition re_range : regex :=
  ROpt (RSeqs [RIs "["; RGroup 1 re_digits; RIs ":"; RGroup 2 re_digits;
               RIs "]"; re_space_plus]).

(** [module\s+(\w+)] *)
Definition re_module_name : regex :=
  RSeqs [RLit "module"; re_space_plus; RGroup 1 re_word_plus].

(** [parameter\s+(?:\[.*?\]\s+)?(\w+)\s*=\s*([^;,]+)] *)
Definition param_pattern : regex :=
  RSeqs [RLit "parameter"; re_space_plus;
         ROpt (RSeqs [RIs "["; RStar false (RChar not_newline); RIs "]";
                      re_space_plus]);
         RGroup 1 re_word_plus; re_space_star; RIs "="; re_space_star;
         RGroup 2 (RPlus true (RChar (λ c, negb (one_of ";," c))))].

(** [input\s+(?:wire\s+)?(?:\[(\d+):(\d+)\]\s+)?(\w+)\s*[,;)]] *)
Definition input_pattern : regex :=
  RSeqs [RLit "input"; re_space_plus;
         ROpt (RSeq (RLit "wire") re_space_plus);
         re_range; RGroup 3 re_word_plus; re_space_star;
         RChar (one_of ",;)")].

(** [output\s+(?:reg|wire\s+)?(?:\[(\d+):(\d+)\]\s+)?(\w+)\s*[,;)]] *)
Definition output_pattern : regex :=
  RSeqs [RLit "output"; re_space_plus;
         ROpt (RAlt (RLit "reg") (RSeq (RLit "wire") re_space_plus));
         re_range; RGroup 3 re_word_plus; re_space_star;
         RChar (one_of ",;)")].

(** [inout\s+(?:\[(\d+):(\d+)\]\s+)?(\w+)\s*[,;)]] *)
Definition inout_pattern : regex :=
  RSeqs [RLit "inout"; re_space_plus;
         re_range; RGroup 3 re_word_plus; re_space_star;
         RChar (one_of ",;)")].

(** [wire\s+(?:\[(\d+):(\d+)\]\s+)?(\w+)\s*[,;]] *)
Definition wire_pattern : regex :=
  RSeqs [RLit "wire"; re_space_plus;
         re_range; RGroup 3 re_word_plus; re_space_star;
         RChar (one_of ",;")].

(** [reg\s+(?:\[(\d+):(\d+)\]\s+)?(\w+)\s*[,;]] *)
Definition reg_pattern : regex :=
  RSeqs [RLit "reg"; re_space_plus;
         re_range; RGroup 3 re_word_plus; re_space_star;
         RChar (one_of ",;")].

(** A group that took part in every match of its pattern. *)
Definition group_str (n : nat) (m : rmatched) : string :=
  default EmptyString (group n m).

(** [match.group(1) and match.group(2)]: both groups took part in the match
    and are not empty. *)
Definition truthy (g : option string) : bool :=
  match g with
  | Some (String _ _) => true
  | _ => false
  end.

Definition has_range (m : rmatched) : bool :=
  truthy (group 1 m) && truthy (group 2 m).

(** [int] of a group matched by [\d+], on which it does not fail. *)
Definition int_group (n : nat) (m : rmatched) : Z :=
  default 0 (py_int (group_str n m)).

Definition range_width (m : rmatched) : Z := int_group 1 m - int_group 2 m + 1.

Definition port_of_match (m : rmatched) : port :=
  if has_range m
  then Port (group_str 3 m) (range_width m) (int_group 1 m) (int_group 2 m)
  else Port (group_str 3 m) 1 0 0.

Definition net_of_match (m : rmatched) : net :=
  if has_range m
  then Net (group_str 3 m) (range_width m)
  else Net (group_str 3 m) 1.

(** The loop over the matches of one port pattern; [ports] is the list
    [module_info[port_type]] being extended. *)
Fixpoint add_ports (matches : list rmatched) (ports : list port) : list port :=
  match matches with
  | [] => ports
  | m :: matches' =>
      let port_name := group_str 3 m in
      if named port_name (map p_name ports)
      then add_ports matches' ports
      else add_ports matches' (ports ++ [port_of_match m])
  end.

(** The loops over the wire and the reg matches; [ports] are the names of
    the port lists the loop looks at, [nets] the list being extended. *)
Fixpoint add_nets (matches : list rmatched) (ports : list string) (nets : list net)
  : list net :=
  match matches with
  | [] => nets
  | m :: matches' =>
      let signal_name := group_str 3 m in
      if named signal_name (ports ++ map n_name nets)
      then add_nets matches' ports nets
      else add_nets matches' ports (nets ++ [net_of_match m])
  end.

Definition parse_module (verilog_code : string) : module_info :=
  (* Extract module name *)
  let name :=
    match re_search re_module_name verilog_code with
    | Some module_match => group_str 1 module_match
    | None => EmptyString
    end in
  (* Extract parameters *)
  let parameters :=
    map (λ m, Param (group_str 1 m) (strip (group_str 2 m)))
        (re_finditer param_pattern verilog_code) in
  (* Remove comments first to avoid parsing commented code *)
  let code_no_comments := re_sub_empty re_line_comment verilog_code in
  let code_no_comments := re_sub_empty re_block_comment code_no_comments in
  let inputs := add_ports (re_finditer input_pattern code_no_comments) [] in
  let outputs := add_ports (re_finditer output_pattern code_no_comments) [] in
  let inouts := add_ports (re_finditer inout_pattern code_no_comments) [] in
  (* Extract internal signals (wires and regs) *)
  let wires :=
    add_nets (re_finditer wire_pattern code_no_comments)
             (map p_name inputs ++ map p_name outputs) [] in
  let regs :=
    add_nets (re_finditer reg_pattern code_no_comments)
             (map p_name outputs) [] in
  ModuleInfo name inputs outputs inouts parameters regs wires.

End VerilogParser.

(** ** class TestbenchGenerator *)

Module TestbenchGenerator.

Definition nl : string := String newline EmptyString.
Definition dquote : string := String "034" EmptyString.

(** The opening f-string, up to the heading of the parameters. *)
Definition tb_header (module_name tb_name : string) : string :=
  concat_str [
    "// Automatic Testbench for "; module_name; nl;
    "// Generated by AWaveViewer"; nl;
    "//"; nl;
    "// IMPORTANT: When using this testbench:"; nl;
    "// 1. Save this as a SEPARATE file (e.g., "; module_name; "_tb.v)"; nl;
    "// 2. Keep your module in another file (e.g., "; module_name; ".v)"; nl;
    "// 3. Compile both: iverilog -o sim "; module_name; ".v ";
        module_name; "_tb.v"; nl;
    "//"; nl;
    "// OR if combining in one file, put the MODULE DEFINITION FIRST,"; nl;
    "// then the TESTBENCH second (module must be defined before use)"; nl;
    "//"; nl;
    "`timescale 1ns/1ps"; nl;
    nl;
    "module "; tb_name; ";"; nl;
    nl;
    "    // Parameters"; nl ].

Definition param_decl (param : parameter) : string :=
  "    parameter " +:+ prm_name param +:+ " = " +:+ prm_value param +:+ ";" +:+ nl.

(** The declaration of a port as a [reg] or as a [wire]. *)
Definition port_decl (kind : string) (p : port) : string :=
  if 1 <? p_width p
  then "    " +:+ kind +:+ " [" +:+ str_of_Z (p_msb p) +:+ ":"
       +:+ str_of_Z (p_lsb p) +:+ "] " +:+ p_name p +:+ ";" +:+ nl
  else "    " +:+ kind +:+ " " +:+ p_name p +:+ ";" +:+ nl.

(** [f"        .{p['name']}({p['name']})"] *)
Definition connection (x : string) : string :=
  "        ." +:+ x +:+ "(" +:+ x +:+ ")".

Definition comma_nl : string := "," +:+ nl.

Definition is_clock (inp : port) : bool :=
  contains "clk" (lower (p_name inp)) || contains "clock" (lower (p_name inp)).

Definition is_reset (inp : port) : bool :=
  contains "rst" (lower (p_name inp)) || contains "reset" (lower (p_name inp)).

Definition clock_block (clk_name : string) : string :=
  concat_str [
    "    // Clock generation"; nl;
    "    initial begin"; nl;
    "        "; clk_name; " = 0;"; nl;
    "        forever #5 "; clk_name; " = ~"; clk_name; ";  // 100MHz clock"; nl;
    "    end"; nl ].

Definition reset_block (rst_name : string) : string :=
  concat_str [
    nl;
    "    // Reset generation"; nl;
    "    initial begin"; nl;
    "        "; rst_name; " = 1;"; nl;
    "        #20 "; rst_name; " = 0;"; nl;
    "        #10 "; rst_name; " = 1;"; nl;
    "    end"; nl ].

Definition stimulus_head : string :=
  concat_str [
    nl;
    "    // Test stimulus"; nl;
    "    integer i;"; nl;
    "    initial begin"; nl;
    "        // Initialize inputs"; nl ].

(** [inp['name'] not in [s['name'] for s in clock_signals + reset_signals]] *)
Definition driven (skipped : list port) (inp : port) : bool :=
  negb (named (p_name inp) (map p_name skipped)).

Definition init_line (inp : port) : string :=
  "        " +:+ p_name inp +:+ " = 0;" +:+ nl.

Definition loop_head (test_vectors : Z) : string :=
  concat_str [
    nl;
    "        // Wait for reset"; nl;
    "        #50;"; nl;
    "        "; nl;
    "        // Apply test vectors"; nl;
    "        for (i = 0; i < "; str_of_Z test_vectors; "; i = i + 1) begin"; nl ].

Definition random_line (inp : port) : string :=
  if 1 <? p_width inp
  then "            " +:+ p_name inp +:+ " = $random % (1 << "
       +:+ str_of_Z (p_width inp) +:+ ");" +:+ nl
  else "            " +:+ p_name inp +:+ " = $random % 2;" +:+ nl.

Definition loop_tail : string :=
  concat_str [
    "            #10;"; nl;
    "        end"; nl;
    "        "; nl;
    "        // Finish simulation"; nl;
    "        #100;"; nl;
    "        $display("; dquote; "Simulation completed successfully"; dquote; ");"; nl;
    "        $finish;"; nl;
    "    end"; nl;
    "    "; nl;
    "    // Monitor signals"; nl;
    "    initial begin"; nl;
    "        $monitor("; dquote; "Time=%0t"; dquote; ", $time" ].

(** [f', " {name}=%b", {name}'] *)
Definition monitor_arg (p : port) : string :=
  ", " +:+ dquote +:+ " " +:+ p_name p +:+ "=%b" +:+ dquote +:+ ", " +:+ p_name p.

Definition tb_footer (tb_name : string) : string :=
  concat_str [
    ");"; nl;
    "    end"; nl;
    "    "; nl;
    "    // VCD dump for waveform viewing"; nl;
    "    initial begin"; nl;
    "        $dumpfile("; dquote; "wave.vcd"; dquote; ");"; nl;
    "        $dumpvars(0, "; tb_name; ");"; nl;
    "    end"; nl;
    nl;
    "endmodule"; nl ].

(** The text appended for the parameters of the instance, when there are
    parameters. *)
Definition param_connections (parameters : list parameter) : list string :=
  match parameters with
  | [] => []
  | _ :: _ =>
      let param_list := map (λ p, connection (prm_name p)) parameters in
      ["#("; nl; join comma_nl param_list; nl; "    ) "]
  end.

(** The block appended for the first signal of [signals], when there is
    one. *)
Definition first_block (block : string → string) (signals : list port) : list string :=
  match signals with
  | first :: _ => [block (p_name first)]
  | [] => []
  end.

(** [generate_testbench] builds [tb_code] by appending fragments to it; the
    list below holds the fragments in the order in which they are
    appended. *)
Definition generate_testbench (module_info : module_info) (test_vectors : Z)
  : string :=
  let module_name := mi_name module_info in
  let tb_name := module_name +:+ "_tb" in
  let all_ports :=
    mi_inputs module_info ++ mi_outputs module_info ++ mi_inouts module_info in
  let port_list := map (λ p, connection (p_name p)) all_ports in
  let clock_signals := List.filter is_clock (mi_inputs module_info) in
  let reset_signals := List.filter is_reset (mi_inputs module_info) in
  let stimulated :=
    List.filter (driven (clock_signals ++ reset_signals)) (mi_inputs module_info) in
  concat_str (
    [tb_header module_name tb_name]
    (* Add parameters *)
    ++ map param_decl (mi_parameters module_info)
    ++ [nl; "    // Inputs"; nl]
    ++ map (port_decl "reg") (mi_inputs module_info)
    ++ [nl; "    // Outputs"; nl]
    ++ map (port_decl "wire") (mi_outputs module_info)
    ++ [nl; "    // Inouts"; nl]
    ++ map (port_decl "wire") (mi_inouts module_info)
    (* Instantiate DUT *)
    ++ [nl; "    // Instantiate the Unit Under Test (UUT)"; nl]
    ++ ["    "; module_name; " "]
    ++ param_connections (mi_parameters module_info)
    ++ ["uut ("; nl]
    ++ [join comma_nl port_list]
    ++ [nl; "    );"; nl; nl]
    (* Clock generation (if clock signal exists) *)
    ++ first_block clock_block clock_signals
    (* Reset generation *)
    ++ first_block reset_block reset_signals
    (* Test stimulus *)
    ++ [stimulus_head]
    ++ map init_line stimulated
    ++ [loop_head test_vectors]
    ++ map random_line stimulated
    ++ [loop_tail]
    ++ map monitor_arg (mi_inputs module_info)
    ++ map monitor_arg (mi_outputs module_info)
    ++ [tb_footer tb_name]).

End TestbenchGenerator.

(** ** class VCDParser *)

(** An entry of [self.signals]: the [dict] with the keys [name], [full_name],
    [width], [type] and [values]. *)
Record signal : Type := Signal {
  sig_name : string;
  sig_full_name : string;
  sig_width : Z;
  sig_type : string;
  sig_values : list (Z * string)
}.

(** An entry of [self.changes]: [(time, identifier, value)]. *)
Definition change : Type := Z * string * string.

Module VCDParser.
Import VerilogSyntaxChecker.

(** The fields of an instance.  [timescale] is a float in the source,
    [scale_value * 10^e]; it is kept as the pair of [scale_value] and the
    exponent [e]. *)
Record t : Type := Self {
  timescale : Z * Z;
  signals : gmap string signal;
  changes : list change;
  scope_hierarchy : list string
}.

(** [__init__] *)
Definition init : t := Self (1, 0) ∅ [] [].

(** [(\d+)\s*(\w+)] *)
Definition re_timescale : regex :=
  RSeqs [RGroup 1 (RPlus true (RChar is_digit)); re_space_star;
         RGroup 2 re_word_plus].

(** [unit_map.get(scale_unit, 1e-9)], as an exponent of ten. *)
Definition unit_map (scale_unit : string) : Z :=
  if String.eqb scale_unit "s" then 0
  else if String.eqb scale_unit "ms" then -3
  else if String.eqb scale_unit "us" then -6
  else if String.eqb scale_unit "ns" then -9
  else if String.eqb scale_unit "ps" then -12
  else if String.eqb scale_unit "fs" then -15
  else -9.

(** The local variables of [parse] next to the instance. *)
Record state : Type := State {
  self : t;
  in_header : bool;
  current_time : Z
}.

Definition set_self (st : state) (s : t) : state :=
  State s (in_header st) (current_time st).

(** [self.signals[identifier]['values'].append((current_time, value))] and
    [self.changes.append((current_time, identifier, value))], when the
    identifier is known. *)
Definition record_change (st : state) (identifier value : string) : state :=
  let s := self st in
  match signals s !! identifier with
  | Some sig =>
      let sig' := Signal (sig_name sig) (sig_full_name sig) (sig_width sig)
                         (sig_type sig)
                         (sig_values sig ++ [(current_time st, value)]) in
      set_self st (Self (timescale s) (<[identifier := sig']> (signals s))
                        (changes s ++ [(current_time st, identifier, value)])
                        (scope_hierarchy s))
  | None => st
  end.

(** The body of the loop over the lines, for one line.  [None] is a
    [ValueError] raised by [int]; nothing of the instance has been changed
    by the line when it is raised.  The [print] calls are left out. *)
Definition parse_line (st : state) (line : string) : option state :=
  let s := self st in
  let line := strip line in
  match line with
  | EmptyString => Some st
  | String line0 line_tail =>
      if startswith "$timescale" line then
        match re_search re_timescale line with
        | Some m =>
            match py_int (VerilogParser.group_str 1 m) with
            | Some scale_value =>
                let scale_unit := VerilogParser.group_str 2 m in
                Some (set_self st (Self (scale_value, unit_map scale_unit)
                                        (signals s) (changes s) (scope_hierarchy s)))
            | None => None
            end
        | None => Some st
        end
      else if startswith "$scope" line then
        match split_ws line with
        | _ :: _ :: part2 :: _ =>
            Some (set_self st (Self (timescale s) (signals s) (changes s)
                                    (scope_hierarchy s ++ [part2])))
        | _ => Some st
        end
      else if startswith "$upscope" line then
        Some (set_self st (Self (timescale s) (signals s) (changes s)
                                (removelast (scope_hierarchy s))))
      else if startswith "$var" line then
        match split_ws line with
        | _ :: var_type :: part2 :: identifier :: signal_name :: _ =>
            match py_int part2 with
            | Some width =>
                let full_name := join "." (scope_hierarchy s ++ [signal_name]) in
                Some (set_self st
                        (Self (timescale s)
                              (<[identifier :=
                                   Signal signal_name full_name width var_type []]>
                                 (signals s))
                              (changes s) (scope_hierarchy s)))
            | None => None
            end
        | _ => Some st
        end
      else if startswith "$enddefinitions" line then
        Some (State s false (current_time st))
      else if negb (in_header st) then
        if startswith "#" line then
          match py_int line_tail with
          | Some time => Some (State s (in_header st) time)
          | None => None
          end
        else if one_of "01xzXZ" line0 then
          let value := String line0 EmptyString in
          let identifier := strip line_tail in
          Some (record_change st identifier value)
        else if Ascii.eqb line0 "b" then
          match split_ws line with
          | part0 :: identifier :: _ =>
              let value := drop_str 1 part0 in
              Some (record_change st identifier value)
          | _ => Some st
          end
        else Some st
      else Some st
  end.

(** The loop over the lines; the flag tells whether it was left by an
    exception. *)
Fixpoint parse_lines (st : state) (lines : list string) : state * bool :=
  match lines with
  | [] => (st, false)
  | line :: lines' =>
      match parse_line st line with
      | Some st' => parse_lines st' lines'
      | None => (st, true)
      end
  end.

(** [parse(self, vcd_file)].  The file system is the argument [file]:
    [None] when [os.path.exists(vcd_file)] is false, otherwise the list
    [f.readlines()].  The result is the instance after the call and, unless
    an exception was raised, the returned pair: the objects [self.signals]
    and [self.changes] themselves. *)
Definition parse (s : t) (file : option (list string))
  : t * option (gmap string signal * list change) :=
  match file with
  | None => (s, Some (∅, []))
  | Some lines =>
      let '(st, raised) := parse_lines (State s true 0) lines in
      (self st, if raised then None else Some (signals (self st), changes (self st)))
  end.

End VCDParser.

(** ** class AWaveViewer: the logic analysis *)

Module AWaveViewer.

(** The loop of [get_signal_value_at_time]: [value] is the value held so
    far; the loop is left at the first change that is later than [time]. *)
Fixpoint value_scan (values : list (Z * string)) (time : Z) (value : string)
  : string :=
  match values with
  | [] => value
  | (t, v) :: values' =>
      if t <=? time then value_scan values' time v else value
  end.

Definition get_signal_value_at_time (sig : signal) (time : Z) : string :=
  match sig_values sig with
  | [] => "X"
  | (_, first) :: _ => value_scan (sig_values sig) time first
  end.

(** A truth table: a [dict] from tuples of values to a value. *)
Abbreviation truth_table := (gmap (list string) string).

Definition get_or (tt : truth_table) (key : list string) (dflt : string) : string :=
  default dflt (tt !! key).

(** [sum(1 for out in truth_table.values() if out == '1')] *)
Definition ones_count (tt : truth_table) : nat :=
  length (List.filter (λ kv, String.eqb (snd kv) "1") (map_to_list tt)).

Definition is_str (o : option string) (v : string) : bool :=
  match o with Some x => String.eqb x v | None => false end.

Definition detect_gate_type (tt : truth_table) (num_inputs : Z) : string :=
  if num_inputs =? 1 then
    let input_0 := tt !! ["0"] in
    let input_1 := tt !! ["1"] in
    if is_str input_0 "1" && is_str input_1 "0" then "NOT Gate"
    else if is_str input_0 "0" && is_str input_1 "1" then "BUFFER"
    else "Unknown"
  else if num_inputs =? 2 then
    let out_00 := get_or tt ["0"; "0"] "X" in
    let out_01 := get_or tt ["0"; "1"] "X" in
    let out_10 := get_or tt ["1"; "0"] "X" in
    let out_11 := get_or tt ["1"; "1"] "X" in
    let pattern a b c d :=
      String.eqb out_00 a && String.eqb out_01 b
      && String.eqb out_10 c && String.eqb out_11 d in
    if pattern "0" "0" "0" "1" then "AND Gate"
    else if pattern "0" "1" "1" "1" then "OR Gate"
    else if pattern "0" "1" "1" "0" then "XOR Gate"
    else if pattern "1" "1" "1" "0" then "NAND Gate"
    else if pattern "1" "0" "0" "0" then "NOR Gate"
    else if pattern "1" "0" "0" "1" then "XNOR Gate"
    else "Custom Logic"
  else if num_inputs =? 3 then
    let ones := ones_count tt in
    if Nat.eqb ones 1 then
      if String.eqb (get_or tt ["1"; "1"; "1"] "0") "1" then "3-input AND"
      else "3-input Logic"
    else if Nat.eqb ones 7 then
      if String.eqb (get_or tt ["0"; "0"; "0"] "1") "0" then "3-input OR"
      else "3-input Logic"
    else if Nat.eqb ones 4 then "3-input XOR/Complex"
    else "3-input Logic"
  else str_of_Z num_inputs +:+ "-input Logic".

Definition nl : string := String newline EmptyString.

(** The loop over [expected.items()]: the lines appended to [errors].
    [describe] is the text of a combination in the message. *)
Definition mismatches (describe : list string → string)
    (expected : list (list string * string)) (tt : truth_table) : list string :=
  flat_map
    (λ '(inputs, expected_out),
       let actual_out := get_or tt inputs "X" in
       if negb (String.eqb actual_out expected_out)
       then ["  ✗ Error: " +:+ describe inputs +:+ " should be " +:+ expected_out
             +:+ ", got " +:+ actual_out]
       else [])
    expected.

(** [f"{inputs[0]} OP {inputs[1]}"] *)
Definition binary (op : string) (inputs : list string) : string :=
  nth 0 inputs EmptyString +:+ " " +:+ op +:+ " " +:+ nth 1 inputs EmptyString.

(** [f"NOT {inputs[0]}"] *)
Definition unary (op : string) (inputs : list string) : string :=
  op +:+ " " +:+ nth 0 inputs EmptyString.

Definition report (errors : list string) : string :=
  match errors with
  | [] => "  ✓ ALL COMBINATIONS VERIFIED CORRECT!" +:+ nl
  | _ :: _ => join nl errors +:+ nl
  end.

Definition gate_table (a b c d : string) : list (list string * string) :=
  [(["0"; "0"], a); (["0"; "1"], b); (["1"; "0"], c); (["1"; "1"], d)].

Definition and_expected := gate_table "0" "0" "0" "1".
Definition or_expected := gate_table "0" "1" "1" "1".
Definition xor_expected := gate_table "0" "1" "1" "0".
Definition nand_expected := gate_table "1" "1" "1" "0".
Definition nor_expected := gate_table "1" "0" "0" "0".
Definition not_expected : list (list string * string) := [(["0"], "1"); (["1"], "0")].

(** [tuple([v] * num_inputs)] *)
Definition all_of (v : string) (num_inputs : Z) : list string :=
  repeat v (Z.to_nat num_inputs).

Definition verify_gate_logic (gate_type : string) (tt : truth_table)
    (num_inputs : Z) : string :=
  let result := "VERIFICATION:" +:+ nl in
  if contains "AND" gate_type && negb (contains "NAND" gate_type) then
    let result := result +:+ concat_str [
      "✓ AND Gate Rules (Correct Logic):"; nl;
      "  • 0 AND 0 = 0 ✓"; nl;
      "  • 0 AND 1 = 0 ✓"; nl;
      "  • 1 AND 0 = 0 ✓"; nl;
      "  • 1 AND 1 = 1 ✓"; nl;
      "  • Output = 1 ONLY when ALL inputs = 1"; nl;
      "  • Output = 0 if ANY input = 0"; nl ] in
    if num_inputs =? 2 then
      result +:+ report (mismatches (binary "AND") and_expected tt)
    else if String.eqb (get_or tt (all_of "1" num_inputs) "0") "1" then
      result +:+ "  ✓ Correct: All " +:+ str_of_Z num_inputs
             +:+ " inputs = 1 → Output = 1" +:+ nl
    else
      result +:+ "  ✗ Error: All " +:+ str_of_Z num_inputs
             +:+ " inputs = 1 should → Output = 1" +:+ nl
  else if contains "OR" gate_type && negb (contains "NOR" gate_type)
          && negb (contains "XOR" gate_type) then
    let result := result +:+ concat_str [
      "✓ OR Gate Rules (Correct Logic):"; nl;
      "  • 0 OR 0 = 0 ✓"; nl;
      "  • 0 OR 1 = 1 ✓"; nl;
      "  • 1 OR 0 = 1 ✓"; nl;
      "  • 1 OR 1 = 1 ✓"; nl;
      "  • Output = 1 when ANY input = 1"; nl;
      "  • Output = 0 only when ALL inputs = 0"; nl ] in
    if num_inputs =? 2 then
      result +:+ report (mismatches (binary "OR") or_expected tt)
    else if String.eqb (get_or tt (all_of "0" num_inputs) "1") "0" then
      result +:+ "  ✓ Correct: All " +:+ str_of_Z num_inputs
             +:+ " inputs = 0 → Output = 0" +:+ nl
    else
      result +:+ "  ✗ Error: All " +:+ str_of_Z num_inputs
             +:+ " inputs = 0 should → Output = 0" +:+ nl
  else if contains "XOR" gate_type && negb (contains "XNOR" gate_type) then
    let result := result +:+ concat_str [
      "✓ XOR Gate Rules (Correct Logic):"; nl;
      "  • 0 XOR 0 = 0 ✓"; nl;
      "  • 0 XOR 1 = 1 ✓"; nl;
      "  • 1 XOR 0 = 1 ✓"; nl;
      "  • 1 XOR 1 = 0 ✓"; nl;
      "  • Output = 1 when inputs are DIFFERENT"; nl;
      "  • Output = 0 when inputs are SAME"; nl ] in
    if num_inputs =? 2 then
      result +:+ report (mismatches (binary "XOR") xor_expected tt)
    else result
  else if contains "NOT" gate_type then
    let result := result +:+ concat_str [
      "✓ NOT Gate Rules (Correct Logic):"; nl;
      "  • NOT 0 = 1 ✓"; nl;
      "  • NOT 1 = 0 ✓"; nl;
      "  • Output = opposite of input"; nl ] in
    result +:+ report (mismatches (unary "NOT") not_expected tt)
  else if contains "NAND" gate_type then
    let result := result +:+ concat_str [
      "✓ NAND Gate Rules (Correct Logic):"; nl;
      "  • 0 NAND 0 = 1 ✓"; nl;
      "  • 0 NAND 1 = 1 ✓"; nl;
      "  • 1 NAND 0 = 1 ✓"; nl;
      "  • 1 NAND 1 = 0 ✓"; nl;
      "  • Output = 0 only when ALL inputs = 1"; nl;
      "  • Inverted AND gate"; nl ] in
    if num_inputs =? 2 then
      result +:+ report (mismatches (binary "NAND") nand_expected tt)
    else result
  else if contains "NOR" gate_type then
    let result := result +:+ concat_str [
      "✓ NOR Gate Rules (Correct Logic):"; nl;
      "  • 0 NOR 0 = 1 ✓"; nl;
      "  • 0 NOR 1 = 0 ✓"; nl;
      "  • 1 NOR 0 = 0 ✓"; nl;
      "  • 1 NOR 1 = 0 ✓"; nl;
      "  • Output = 1 only when ALL inputs = 0"; nl;
      "  • Inverted OR gate"; nl ] in
    if num_inputs =? 2 then
      result +:+ report (mismatches (binary "NOR") nor_expected tt)
    else result
  else
    result +:+ "ℹ Custom logic detected" +:+ nl
           +:+ "  Check truth table for behavior" +:+ nl.

(** *** [analyze_combinational_logic]

    The computation of the method: the sample times, the samples, the truth
    table, the detected gate and its verification.  The texts and widgets it
    fills on the way are presentation and are left out. *)

Record sample : Type := Sample {
  s_time : Z;
  s_inputs : list string;
  s_output : string
}.

Record analysis : Type := Analysis {
  a_truth_table : truth_table;
  a_gate_type : string;
  a_verification : string
}.

(** [sorted(set(...))] of times *)
Fixpoint insert_time (t : Z) (l : list Z) : list Z :=
  match l with
  | [] => [t]
  | x :: l' =>
      if t <? x then t :: l
      else if t =? x then l
      else x :: insert_time t l'
  end.

Definition sorted_times (l : list Z) : list Z := fold_right insert_time [] l.

(** [v in ['0', '1']] *)
Definition valid (v : string) : bool := named v ["0"; "1"].

(** [outputs.count(v)] *)
Definition count_of (outputs : list string) (v : string) : nat :=
  length (List.filter (String.eqb v) outputs).

(** [max(best, *l, key=key)]: the first of the maximal items. *)
Fixpoint max_from (key : string → nat) (best : string) (l : list string) : string :=
  match l with
  | [] => best
  | x :: l' =>
      if (key best <? key x)%nat then max_from key x l' else max_from key best l'
  end.

Section Analysis.

(** The order in which a [set] of strings is iterated.  It follows the hashes
    of the strings, which the interpreter draws anew for each process, so it
    is left open. *)
Variable set_order : list string → list string.

(** [max(set(outputs), key=outputs.count)].  The list of outputs of a
    combination is never empty; [max] of an empty set would raise. *)
Definition most_common (outputs : list string) : string :=
  match set_order outputs with
  | [] => EmptyString
  | x :: l => max_from (count_of outputs) x l
  end.

Definition time_points (inputs : list (string * signal)) (output : string * signal)
  : list Z :=
  sorted_times (flat_map (λ '(sid, sig), map fst (sig_values sig)) (inputs ++ [output])).

Definition take_sample (inputs : list (string * signal)) (output : string * signal)
    (time : Z) : sample :=
  Sample time
         (map (λ '(sid, sig), get_signal_value_at_time sig time) inputs)
         (get_signal_value_at_time (snd output) time).

(** Only include samples with valid values (not X or Z) *)
Definition valid_sample (s : sample) : bool :=
  forallb valid (s_inputs s) && valid (s_output s).

Definition logic_samples (inputs : list (string * signal)) (output : string * signal)
  : list sample :=
  List.filter valid_sample (map (take_sample inputs output) (time_points inputs output)).

(** Build truth table from unique combinations *)
Definition truth_table_data (samples : list sample) : gmap (list string) (list string) :=
  fold_left
    (λ data s, <[s_inputs s := default [] (data !! s_inputs s) ++ [s_output s]]> data)
    samples ∅.

(** Consolidate truth table (most common output for each input combination) *)
Definition consolidate (data : gmap (list string) (list string)) : truth_table :=
  most_common <$> data.

(** [signals] is the list of the selected [(sid, sig)] pairs; the last one is
    the output.  [None] stands for the calls that build no truth table: the
    empty selection, on which [signals[-1]] raises, and the early return when
    no sample is valid. *)
Definition analyze_combinational_logic (signals : list (string * signal))
  : option analysis :=
  match last signals with
  | None => None
  | Some output =>
      let inputs := removelast signals in
      match logic_samples inputs output with
      | [] => None
      | samples =>
          let tt := consolidate (truth_table_data samples) in
          let num_inputs := Z.of_nat (length inputs) in
          let gate_type := detect_gate_type tt num_inputs in
          Some (Analysis tt gate_type (verify_gate_logic gate_type tt num_inputs))
      end
  end.

End Analysis.

End AWaveViewer.


(** ** class SimulationThread: the built-in trace generator *)

Module SimulationThread.

(** [chr(var_id)].  The texts of this development are ASCII: [None] stands
    for a character beyond it. *)
Definition chr (var_id : nat) : option string :=
  if (var_id <? 128)%nat
  then Some (String (ascii_of_nat var_id) EmptyString)
  else None.

(** An entry of [signal_map]: the [dict] with the keys [id], [width] and
    [type]. *)
Record sig_info : Type := SigInfo {
  si_id : string;
  si_width : Z;
  si_type : string
}.

(** A [dict] with string keys, in the order of insertion: a new key goes to
    the end, a known key keeps its place and gets the new value. *)
Fixpoint dict_set {V : Type} (key : string) (value : V) (d : list (string * V))
  : list (string * V) :=
  match d with
  | [] => [(key, value)]
  | (k, v) :: d' =>
      if String.eqb k key then (key, value) :: d'
      else (k, v) :: dict_set key value d'
  end.

Fixpoint dict_get {V : Type} (key : string) (d : list (string * V)) : option V :=
  match d with
  | [] => None
  | (k, v) :: d' => if String.eqb k key then Some v else dict_get key d'
  end.

Definition nl : string := String newline EmptyString.

(** [s * n] *)
Fixpoint repeat_str (s : string) (n : nat) : string :=
  match n with
  | O => EmptyString
  | S n' => s +:+ repeat_str s n'
  end.

(** [bin(value)[2:]]: the binary digits of a number that is not negative;
    of [-0b101] the slice leaves [b101]. *)
Fixpoint bin_pos (p : positive) : string :=
  match p with
  | xH => "1"
  | xO p' => bin_pos p' +:+ "0"
  | xI p' => bin_pos p' +:+ "1"
  end.

Definition bin_digits (value : Z) : string :=
  match value with
  | Z0 => "0"
  | Zpos p => bin_pos p
  | Zneg p => "b" +:+ bin_pos p
  end.

(** [s.zfill(width)] for a text that does not start with a sign. *)
Definition zfill (width : Z) (s : string) : string :=
  repeat_str "0" (Z.to_nat (width - Z.of_nat (String.length s))) +:+ s.

(** [int(p['width']) if p['width'] else 1], for a width that is an [int]. *)
Definition width_int (p : port) : Z :=
  if p_width p =? 0 then 1 else p_width p.

(** The loops over the inputs and over the outputs: the identifier that
    comes next, [signal_map], and the lines appended to [vcd_content]. *)
Fixpoint declare (type : string) (ports : list port) (var_id : nat)
    (signal_map : list (string * sig_info))
  : option (nat * list (string * sig_info) * list string) :=
  match ports with
  | [] => Some (var_id, signal_map, [])
  | p :: ports' =>
      match chr var_id with
      | Some sig_id =>
          let signal_map :=
            dict_set (p_name p) (SigInfo sig_id (width_int p) type) signal_map in
          let line :=
            "$var wire " +:+ str_of_Z (width_int p) +:+ " " +:+ sig_id +:+ " "
            +:+ p_name p +:+ " $end" +:+ nl in
          match declare type ports' (S var_id) signal_map with
          | Some (var_id', signal_map', lines) =>
              Some (var_id', signal_map', line :: lines)
          | None => None
          end
      | None => None
      end
  end.

(** The line of the initial value of a signal. *)
Definition initial_line (info : sig_info) : string :=
  if si_width info =? 1
  then "0" +:+ si_id info +:+ nl
  else "b" +:+ repeat_str "0" (Z.to_nat (si_width info)) +:+ " " +:+ si_id info +:+ nl.

(** ['clk' in name.lower() or 'clock' in name.lower()] *)
Definition clock_name (name : string) : bool :=
  contains "clk" (lower name) || contains "clock" (lower name).

(** ['rst' in name.lower() or 'reset' in name.lower()] *)
Definition reset_name (name : string) : bool :=
  contains "rst" (lower name) || contains "reset" (lower name).

Section Random.

(** The generator of the module [random]: its state, the test
    [random.random() > 0.7] and [random.randint(a, b)], each with the state
    it leaves. *)
Variable rng : Type.
Variable random_above : rng → bool * rng.
Variable randint : Z → Z → rng → Z * rng.

(** The variables that the loop over the time steps changes. *)
Record loop_state : Type := LoopState {
  current_values : list (string * Z);
  generator : rng;
  appended : list string
}.

(** The body of the loop over [signal_map.items()] in a time step, for one
    signal.  [None] is the [ValueError] of [1 << width] for a negative
    width. *)
Definition random_change (skipped : list string) (st : loop_state)
    (item : string * sig_info) : option loop_state :=
  let '(sig_name, info) := item in
  if negb (named sig_name skipped) then
    let '(above, g) := random_above (generator st) in
    if above then
      if si_width info =? 1 then
        let '(value, g) := randint 0 1 g in
        Some (LoopState (dict_set sig_name value (current_values st)) g
                (appended st ++ [str_of_Z value +:+ si_id info +:+ nl]))
      else if si_width info <? 0 then None
      else
        let max_val := Z.shiftl 1 (si_width info) - 1 in
        let '(value, g) := randint 0 max_val g in
        let bin_val := zfill (si_width info) (bin_digits value) in
        Some (LoopState (dict_set sig_name value (current_values st)) g
                (appended st ++ ["b" +:+ bin_val +:+ " " +:+ si_id info +:+ nl]))
    else Some (LoopState (current_values st) g (appended st))
  else Some st.

Fixpoint random_changes (skipped : list string) (items : list (string * sig_info))
    (st : loop_state) : option loop_state :=
  match items with
  | [] => Some st
  | item :: items' =>
      match random_change skipped st item with
      | Some st' => random_changes skipped items' st'
      | None => None
      end
  end.

(** [signal_map[name]['id']] and [current_values[name]] for a name that is a
    key of [signal_map]. *)
Definition id_of (signal_map : list (string * sig_info)) (name : string) : string :=
  match dict_get name signal_map with
  | Some info => si_id info
  | None => EmptyString
  end.

Definition value_of (values : list (string * Z)) (name : string) : Z :=
  default 0 (dict_get name values).

(** The body of the loop over the time steps. *)
Definition time_step (signal_map : list (string * sig_info))
    (clock_signals reset_signals : list string) (st : loop_state) (t : Z)
  : option loop_state :=
  let st := LoopState (current_values st) (generator st)
              (appended st ++ ["#" +:+ str_of_Z t +:+ nl]) in
  (* Toggle clock *)
  let st :=
    match clock_signals with
    | clk_name :: _ =>
        let value := 1 - value_of (current_values st) clk_name in
        LoopState (dict_set clk_name value (current_values st)) (generator st)
          (appended st ++ [str_of_Z value +:+ id_of signal_map clk_name +:+ nl])
    | [] => st
    end in
  (* Handle reset *)
  let st :=
    match reset_signals with
    | rst_name :: _ =>
        if t <? 50 then
          let value := if t <? 20 then 1 else 0 in
          LoopState (dict_set rst_name value (current_values st)) (generator st)
            (appended st ++ [str_of_Z value +:+ id_of signal_map rst_name +:+ nl])
        else st
    | [] => st
    end in
  (* Random changes for other signals (every 20ns) *)
  if (t mod 20 =? 0) && (50 <? t)
  then random_changes (clock_signals ++ reset_signals) signal_map st
  else Some st.

Fixpoint time_steps (signal_map : list (string * sig_info))
    (clock_signals reset_signals : list string) (times : list Z) (st : loop_state)
  : option loop_state :=
  match times with
  | [] => Some st
  | t :: times' =>
      match time_step signal_map clock_signals reset_signals st t with
      | Some st' => time_steps signal_map clock_signals reset_signals times' st'
      | None => None
      end
  end.

(** [range(0, 1000, 5)] *)
Definition time_range : list Z := map (λ k, 5 * Z.of_nat k) (seq 0 200).

(** What becomes of a call. *)
Inductive outcome : Type :=
| Written (vcd_content : string)   (* the text written to [wave.vcd] *)
| Raised                           (* left by a [ValueError] *)
| NotAscii.                        (* an identifier beyond ASCII *)

(** [generate_sample_vcd]: the text that is written to the file
    [wave.vcd].  The signals that the object emits are left out. *)
Definition generate_sample_vcd (module_info : module_info) (g : rng) : outcome :=
  let header :=
    [ "$date" +:+ nl;
      "   October 1, 2025" +:+ nl;
      "$end" +:+ nl;
      "$version" +:+ nl;
      "   AWaveViewer Built-in Generator" +:+ nl;
      "$end" +:+ nl;
      "$timescale 1ns $end" +:+ nl ] in
  (* Add scope *)
  let module_name := mi_name module_info in
  let scopes :=
    [ "$scope module " +:+ module_name +:+ "_tb $end" +:+ nl;
      "$scope module uut $end" +:+ nl ] in
  (* Add variables *)
  match declare "input" (mi_inputs module_info) 33 [] with
  | None => NotAscii
  | Some (var_id, signal_map, input_lines) =>
      match declare "output" (mi_outputs module_info) var_id signal_map with
      | None => NotAscii
      | Some (_, signal_map, output_lines) =>
          let definitions :=
            [ "$upscope $end" +:+ nl;
              "$upscope $end" +:+ nl;
              "$enddefinitions $end" +:+ nl ] in
          (* Generate initial values *)
          let initial :=
            [ "#0" +:+ nl; "$dumpvars" +:+ nl ]
            ++ map (λ item, initial_line (snd item)) signal_map
            ++ [ "$end" +:+ nl ] in
          (* Generate waveform data *)
          let current_values := map (λ item, (fst item, 0)) signal_map in
          let clock_signals := List.filter clock_name (map fst signal_map) in
          let reset_signals := List.filter reset_name (map fst signal_map) in
          match time_steps signal_map clock_signals reset_signals time_range
                  (LoopState current_values g []) with
          | None => Raised
          | Some st =>
              Written (concat_str (header ++ scopes ++ input_lines ++ output_lines
                                   ++ definitions ++ initial ++ appended st))
          end
      end
  end.

End Random.

Arguments LoopState {rng}.
Arguments current_values {rng}.
Arguments generator {rng}.
Arguments appended {rng}.

End SimulationThread.

(** * Notions used in the statements *)

(** ** Signal records *)

(** The invariant of a signal record: the times of its changes do not
    decrease. *)
Fixpoint nondecreasing (values : list (Z * string)) : bool :=
  match values with
  | (t1, _) :: (((t2, _) :: _) as values') => (t1 <=? t2) && nondecreasing values'
  | _ => true
  end.

(** What the specification asks of the value [r] returned for [sig] at [t]:
    the value of the last change at or before [t], and the unknown value [x]
    when there is none. *)
Definition value_at_spec (sig : signal) (t : Z) (r : string) : Prop :=
  (∀ pre t1 v post,
      sig_values sig = pre ++ (t1, v) :: post →
      t1 <= t → Forall (λ c, t < c.1) post → r = v)
  ∧ (Forall (λ c, t < c.1) (sig_values sig) → r = "x").

(** The record of the specification's example. *)
Definition two_changes : signal :=
  Signal "a" "top.a" 1 "wire" [(0, "0"); (10, "1")].

(** ** Truth tables *)

(** The consolidated truth table of an AND gate with two inputs. *)
Definition and_table : AWaveViewer.truth_table :=
  <[ ["0"; "0"] := "0" ]> (<[ ["0"; "1"] := "0" ]>
  (<[ ["1"; "0"] := "0" ]> (<[ ["1"; "1"] := "1" ]> ∅))).

(** A value is binary when it is ["0"] or ["1"]. *)
Definition binary_value (v : string) : Prop := v = "0" ∨ v = "1".

(** The invariant of the [dict] built from the samples. *)
Definition data_ok (data : gmap (list string) (list string)) : Prop :=
  ∀ k outs, data !! k = Some outs →
    Forall binary_value k ∧ outs ≠ [] ∧ Forall binary_value outs.

(** A way to iterate a set of strings that drops the repetitions and keeps
    the first occurrences in order. *)
Definition first_seen_order (l : list string) : list string := remove_dups l.

(** Two inputs and the output of an AND gate, sampled at four times. *)
Definition and_signals : list (string * signal) :=
  [ ("!", Signal "a" "tb.a" 1 "reg" [(0, "0"); (20, "1")]);
    ("#", Signal "b" "tb.b" 1 "reg" [(0, "0"); (10, "1"); (20, "0"); (30, "1")]);
    ("$", Signal "y" "tb.y" 1 "wire" [(0, "x"); (5, "0"); (30, "1")]) ].

(** ** Diagnostics *)

(** The severity of a message of [check_syntax] is its prefix. *)
Inductive severity : Type := Error | Warning | Info.

Definition severity_of (message : string) : option severity :=
  if startswith "ERROR:" message then Some Error
  else if startswith "WARNING:" message then Some Warning
  else if startswith "INFO:" message then Some Info
  else None.

Definition is_error (message : string) : Prop := severity_of message = Some Error.

Definition is_notice (message : string) : Prop :=
  severity_of message = Some Warning ∨ severity_of message = Some Info.

(** A text with two [module] keywords and one [endmodule] keyword. *)
Definition two_modules_one_end : string := "module a; module b; endmodule".

(** ** Traces *)

(** [f.readlines()] for a text whose lines end with a line feed: each line
    keeps its line feed. *)
Fixpoint readlines_go (s : string) (cur : string) : list string :=
  match s with
  | EmptyString => match cur with EmptyString => [] | _ => [str_rev cur] end
  | String c s' =>
      if Ascii.eqb c newline then str_rev (String c cur) :: readlines_go s' EmptyString
      else readlines_go s' (String c cur)
  end.

Definition readlines (s : string) : list string := readlines_go s EmptyString.

(** Two small traces, of one signal each. *)
Definition trace_a : list string :=
  readlines "$scope module tb $end
$var wire 1 ! a $end
$upscope $end
$enddefinitions $end
#0
1!
#10
0!
".

Definition trace_b : list string :=
  readlines "$var wire 1 # b $end
$enddefinitions $end
#5
1#
".

(** The instance [s'] has kept what the instance [s] had: its change log is
    an extension of the one of [s], and every identifier of [s] is still
    registered. *)
Definition keeps (s s' : VCDParser.t) : Prop :=
  (∃ new, VCDParser.changes s' = VCDParser.changes s ++ new)
  ∧ (∀ identifier, is_Some (VCDParser.signals s !! identifier) →
                   is_Some (VCDParser.signals s' !! identifier)).

(** ** Module information *)

(** First occurrence wins: the entries of [l] whose name is neither in [seen]
    nor the name of an earlier entry of [l]. *)
Fixpoint first_occurrences {A : Type} (name : A → string) (seen : list string)
    (l : list A) : list A :=
  match l with
  | [] => []
  | x :: l' =>
      if named (name x) seen then first_occurrences name seen l'
      else x :: first_occurrences name (seen ++ [name x]) l'
  end.

(** A text in which [a] is declared as an input and as an output. *)
Definition input_and_output : string :=
  "module m(a); input a; output a; endmodule".

(** A text in which [d] is an inout port and a wire, and [a] an input and a
    reg. *)
Definition port_and_net : string :=
  "module m(a, d); input a; inout d; wire d; reg a; endmodule".

(** A module with a comment that names another module and a parameter that is
    commented out. *)
Definition commented_module : string :=
  "// module foo is the old version
module bar (input a, output y);
  /* parameter W = 4; */
  assign y = a;
endmodule
".

(** A module with two clock inputs and a data input. *)
Definition two_clocks : module_info :=
  ModuleInfo "m"
    [Port "clk" 1 0 0; Port "clk2" 1 0 0; Port "d" 8 7 0]
    [Port "q" 1 0 0] [] [] [] [].

(** ** Texts and their scanning *)

(** All the characters of [s] satisfy [P]. *)
Fixpoint all_chars (P : ascii → bool) (s : string) : bool :=
  match s with
  | EmptyString => true
  | String a s' => P a && all_chars P s'
  end.

Definition is_slash (a : ascii) : bool := Ascii.eqb a "/".
Definition is_newline (a : ascii) : bool := Ascii.eqb a newline.

(** The character before the position that follows [s], when [p] is the
    character before [s]. *)
Fixpoint last_char (p : option ascii) (s : string) : option ascii :=
  match s with
  | EmptyString => p
  | String a s' => last_char (Some a) s'
  end.

(** The number of characters up to the end of the line. *)
Fixpoint eol_dist (s : string) : nat :=
  match s with
  | EmptyString => O
  | String a s' => if is_newline a then O else S (eol_dist s')
  end.

(** A text without its line comments: from two slashes on, the characters of
    a line are dropped. *)
Fixpoint uncomment (in_comment : bool) (s : string) : string :=
  match s with
  | EmptyString => EmptyString
  | String a s' =>
      if in_comment then
        if is_newline a then String a (uncomment false s') else uncomment true s'
      else if is_slash a && startswith "/" s' then uncomment true s'
      else String a (uncomment false s')
  end.

(** ** Words of a text *)

Definition word_opt (p : option ascii) : bool :=
  match p with Some a => is_word a | None => false end.

Definition first_char (s : string) : option ascii :=
  match s with String a _ => Some a | EmptyString => None end.

(** The text starts with a word character. *)
Definition starts_word (s : string) : bool := word_opt (first_char s).

Definition not_word (a : ascii) : bool := negb (is_word a).

(** The words of a text: its maximal runs of word characters, each with the
    character that follows it. *)
Fixpoint twords (s : string) : list (string * option ascii) :=
  match s with
  | EmptyString => []
  | String a s' =>
      if is_word a then
        if starts_word s' then
          match twords s' with
          | (w, next) :: l => (String a w, next) :: l
          | [] => []
          end
        else (String a EmptyString, first_char s') :: twords s'
      else twords s'
  end.

(** The text after the word characters it starts with. *)
Fixpoint drop_run (s : string) : string :=
  match s with
  | String a s' => if is_word a then drop_run s' else s
  | EmptyString => EmptyString
  end.

(** The word characters a text starts with. *)
Fixpoint take_run (s : string) : string :=
  match s with
  | String a s' => if is_word a then String a (take_run s') else EmptyString
  | EmptyString => EmptyString
  end.

(** The words that start at or after a position: when the character before
    the position is a word character, the word that is under way does not
    count. *)
Definition twords_after (p : option ascii) (s : string) : list (string * option ascii) :=
  if word_opt p then twords (drop_run s) else twords s.

(** The number of words of a text that satisfy [T]. *)
Definition count_words (T : string * option ascii → bool) (s : string) : nat :=
  length (List.filter T (twords s)).

(** A pattern that matches words: it matches nowhere but at the start of a
    word, there it matches when the word and the character after it satisfy
    [T], and its match is the word and some characters after it that are not
    word characters. *)
Definition word_pattern (r : regex) (T : string * option ascii → bool) : Prop :=
  (∀ p s, word_opt p = true ∨ starts_word s = false → match_at r p s = None)
  ∧ (∀ p w s,
        word_opt p = false → w ≠ EmptyString → all_chars is_word w = true →
        starts_word s = false →
        match match_at r p (w +:+ s) with
        | Some m =>
            T (w, first_char s) = true
            ∧ ∃ k, String.length (group0 m) = (String.length w + k)%nat
                   ∧ (k <= String.length s)%nat
                   ∧ all_chars not_word (take_str k s) = true
        | None => T (w, first_char s) = false
        end).

(** The words that the patterns of the checker look for. *)
Definition is_kw (kw : string) (t : string * option ascii) : bool := String.eqb t.1 kw.

Definition is_module_kw (t : string * option ascii) : bool :=
  String.eqb t.1 "module" && match t.2 with Some a => is_space a | None => false end.

Definition is_case_kw (t : string * option ascii) : bool :=
  String.eqb t.1 "case" || String.eqb t.1 "casex" || String.eqb t.1 "casez".

(** ** Balance of parentheses and brackets *)

(** The balance of an opening and a closing character at the end of a text
    that is entered with the balance [d]; [None] when the balance falls below
    zero on the way. *)
Fixpoint depth (opening closing : ascii) (s : string) (d : Z) : option Z :=
  match s with
  | EmptyString => Some d
  | String a s' =>
      if Ascii.eqb a opening then depth opening closing s' (d + 1)
      else if Ascii.eqb a closing then
        if d - 1 <? 0 then None else depth opening closing s' (d - 1)
      else depth opening closing s' d
  end.

(** The text is empty or ends with a character that is not a word
    character. *)
Definition closed (s : string) : bool := negb (word_opt (last_char None s)).

(** The words of a text, without the characters that follow them. *)
Definition words (s : string) : list string := map fst (twords s).

(** The number of words of a text that are [kw]. *)
Definition count_kw (kw : string) (s : string) : nat :=
  length (List.filter (λ w, String.eqb w kw) (words s)).

(** ** Fragments of a generated text *)

(** The generated text is made of fixed texts, names, parameter values and
    numbers. *)
Inductive atom : Type :=
| Lit (s : string)
| Word (s : string)
| Text (s : string)
| Num (z : Z).

Definition text_of (a : atom) : string :=
  match a with
  | Lit s | Word s | Text s => s
  | Num z => str_of_Z z
  end.

Definition render (l : list atom) : string := concat_str (map text_of l).

(** The words that the checker counts. *)
Definition keywords : list string :=
  ["module"; "endmodule"; "begin"; "end"; "case"; "casex"; "casez"; "endcase";
   "function"; "endfunction"; "task"; "endtask"].

(** A name that the checker does not count: word characters only, and none
    of the words it counts. *)
Definition plain_name (x : string) : bool :=
  all_chars is_word x && negb (named x keywords).

(** A character other than a parenthesis, a bracket and a slash. *)
Definition harmless (a : ascii) : bool := negb (one_of "()[]/" a).

(** A parameter value that the checker does not count: no parenthesis, no
    bracket, no slash, and none of its words a word the checker counts. *)
Definition plain_value (v : string) : bool :=
  all_chars harmless v && forallb (λ w, negb (named w keywords)) (words v).

Definition atom_ok (a : atom) : bool :=
  match a with
  | Lit _ | Num _ => true
  | Word s => plain_name s
  | Text s => plain_value s
  end.

(** The module information on which the checker accepts the testbench: its
    names are plain, and so are its parameter values. *)
Definition plain_module (mi : module_info) : bool :=
  plain_name (mi_name mi)
  && forallb (λ p, plain_name (p_name p))
             (mi_inputs mi ++ mi_outputs mi ++ mi_inouts mi)
  && forallb (λ p, plain_name (prm_name p) && plain_value (prm_value p))
             (mi_parameters mi).

(** *** Words of a fragment *)

(** The text is not empty and does not start with a word character. *)
Definition opening (s : string) : bool :=
  negb (String.eqb s EmptyString) && negb (starts_word s).

Definition opened_next (tail_open : bool) (l : list atom) : bool :=
  match l with
  | [] => tail_open
  | Lit s :: _ => opening s
  | _ => false
  end.

(** At each junction of the fragment a word ends: a fixed text ends with a
    character that is not a word character, or the text after it starts with
    one; after a name, a value or a number comes a fixed text that starts
    with one.  [tail_open] tells whether the text after the fragment is known
    to start with one. *)
Fixpoint junctions (tail_open : bool) (l : list atom) : bool :=
  match l with
  | [] => true
  | Lit s :: l' => (closed s || opened_next tail_open l') && junctions tail_open l'
  | _ :: l' => opened_next tail_open l' && junctions tail_open l'
  end.

(** The occurrences of [kw] among the words of the fixed texts. *)
Fixpoint lit_count (kw : string) (l : list atom) : nat :=
  match l with
  | [] => O
  | Lit s :: l' => (count_kw kw s + lit_count kw l')%nat
  | _ :: l' => lit_count kw l'
  end.

(** *** Balance of a fragment *)

(** The change of the balance over a text, and the lowest balance on the
    way, both relative to the balance at its start. *)
Fixpoint profile (opening closing : ascii) (s : string) : Z * Z :=
  match s with
  | EmptyString => (0, 0)
  | String a s' =>
      let '(net, low) := profile opening closing s' in
      if Ascii.eqb a opening then (net + 1, Z.min 0 (low + 1))
      else if Ascii.eqb a closing then (net - 1, Z.min (-1) (low - 1))
      else (net, low)
  end.

Fixpoint aprofile (opening closing : ascii) (l : list atom) : Z * Z :=
  match l with
  | [] => (0, 0)
  | Lit s :: l' =>
      let '(n1, l1) := profile opening closing s in
      let '(n2, l2) := aprofile opening closing l' in
      (n1 + n2, Z.min l1 (n1 + l2))
  | _ :: l' => aprofile opening closing l'
  end.

(** *** Comments of a fragment *)

(** [uncomment] on a fixed text: what is kept of it, and whether it ends
    inside a comment.  [None] when it ends with a slash, of which the text
    that follows decides. *)
Fixpoint lit_run (in_comment : bool) (s : string) : option (string * bool) :=
  match s with
  | EmptyString => Some (EmptyString, in_comment)
  | String a s' =>
      if in_comment then
        if is_newline a
        then (λ r, (String a r.1, r.2)) <$> lit_run false s'
        else lit_run true s'
      else if is_slash a then
        match s' with
        | EmptyString => None
        | String b _ =>
            if is_slash b then lit_run true s'
            else (λ r, (String a r.1, r.2)) <$> lit_run false s'
        end
      else (λ r, (String a r.1, r.2)) <$> lit_run false s'
  end.

Fixpoint atoms_run (in_comment : bool) (l : list atom) : option (list atom * bool) :=
  match l with
  | [] => Some ([], in_comment)
  | Lit s :: l' =>
      match lit_run in_comment s with
      | Some (out, st) => (λ r, (Lit out :: r.1, r.2)) <$> atoms_run st l'
      | None => None
      end
  | Text v :: l' =>
      if in_comment then None
      else (λ r, (Text v :: r.1, r.2)) <$> atoms_run false l'
  | a :: l' =>
      if in_comment then atoms_run true l'
      else (λ r, (a :: r.1, r.2)) <$> atoms_run false l'
  end.

(** The fragments that [uncomment] leaves of a part that is entered and left
    outside a comment. *)
Definition run_code (l : list atom) : list atom :=
  match atoms_run false l with
  | Some (out, _) => out
  | None => []
  end.

(** ** The fragments of the testbench *)

Module Fragments.
Import TestbenchGenerator.

(** The header up to the declaration of the testbench module. *)
Definition header_intro_atoms (module_name : string) : list atom :=
  [ Lit "// Automatic Testbench for "; Word module_name; Lit nl;
    Lit "// Generated by AWaveViewer"; Lit nl;
    Lit "//"; Lit nl;
    Lit "// IMPORTANT: When using this testbench:"; Lit nl;
    Lit "// 1. Save this as a SEPARATE file (e.g., "; Word module_name;
        Lit "_tb.v)"; Lit nl;
    Lit "// 2. Keep your module in another file (e.g., "; Word module_name;
        Lit ".v)"; Lit nl;
    Lit "// 3. Compile both: iverilog -o sim "; Word module_name; Lit ".v ";
        Word module_name; Lit "_tb.v"; Lit nl;
    Lit "//"; Lit nl;
    Lit "// OR if combining in one file, put the MODULE DEFINITION FIRST,"; Lit nl;
    Lit "// then the TESTBENCH second (module must be defined before use)"; Lit nl;
    Lit "//"; Lit nl;
    Lit "`timescale 1ns/1ps"; Lit nl;
    Lit nl ].

(** The header after the name of the testbench module. *)
Definition header_end_atoms : list atom :=
  [ Lit ";"; Lit nl;
    Lit nl;
    Lit "    // Parameters"; Lit nl ].

Definition header_atoms (module_name tb_name : string) : list atom :=
  header_intro_atoms module_name
  ++ [ Lit "module "; Word tb_name ]
  ++ header_end_atoms.

Definition param_decl_atoms (param : parameter) : list atom :=
  [ Lit "    parameter "; Word (prm_name param); Lit " = ";
    Text (prm_value param); Lit ";"; Lit nl ].

Definition port_decl_atoms (kind : string) (p : port) : list atom :=
  if 1 <? p_width p
  then [ Lit "    "; Lit kind; Lit " ["; Num (p_msb p); Lit ":"; Num (p_lsb p);
         Lit "] "; Word (p_name p); Lit ";"; Lit nl ]
  else [ Lit "    "; Lit kind; Lit " "; Word (p_name p); Lit ";"; Lit nl ].

Definition connection_atoms (x : string) : list atom :=
  [ Lit "        ."; Word x; Lit "("; Word x; Lit ")" ].

(** The fragments of [join comma_nl]. *)
Fixpoint join_atoms (l : list (list atom)) : list atom :=
  match l with
  | [] => []
  | [x] => x
  | x :: l' => x ++ [Lit comma_nl] ++ join_atoms l'
  end.

Definition heading_atoms (comment : string) : list atom :=
  [ Lit nl; Lit comment; Lit nl ].

Definition param_connection_atoms (parameters : list parameter) : list atom :=
  match parameters with
  | [] => []
  | _ :: _ =>
      [ Lit "#("; Lit nl ]
      ++ join_atoms (map (λ p, connection_atoms (prm_name p)) parameters)
      ++ [ Lit nl; Lit "    ) " ]
  end.

Definition clock_block_atoms (clk_name : string) : list atom :=
  [ Lit "    // Clock generation"; Lit nl;
    Lit "    initial begin"; Lit nl;
    Lit "        "; Word clk_name; Lit " = 0;"; Lit nl;
    Lit "        forever #5 "; Word clk_name; Lit " = ~"; Word clk_name;
        Lit ";  // 100MHz clock"; Lit nl;
    Lit "    end"; Lit nl ].

Definition reset_block_atoms (rst_name : string) : list atom :=
  [ Lit nl;
    Lit "    // Reset generation"; Lit nl;
    Lit "    initial begin"; Lit nl;
    Lit "        "; Word rst_name; Lit " = 1;"; Lit nl;
    Lit "        #20 "; Word rst_name; Lit " = 0;"; Lit nl;
    Lit "        #10 "; Word rst_name; Lit " = 1;"; Lit nl;
    Lit "    end"; Lit nl ].

Definition first_block_atoms (block : string → list atom) (signals : list port)
  : list atom :=
  match signals with
  | first :: _ => block (p_name first)
  | [] => []
  end.

Definition init_line_atoms (inp : port) : list atom :=
  [ Lit "        "; Word (p_name inp); Lit " = 0;"; Lit nl ].

Definition loop_head_atoms (test_vectors : Z) : list atom :=
  [ Lit nl;
    Lit "        // Wait for reset"; Lit nl;
    Lit "        #50;"; Lit nl;
    Lit "        "; Lit nl;
    Lit "        // Apply test vectors"; Lit nl;
    Lit "        for (i = 0; i < "; Num test_vectors; Lit "; i = i + 1) begin";
        Lit nl ].

Definition random_line_atoms (inp : port) : list atom :=
  if 1 <? p_width inp
  then [ Lit "            "; Word (p_name inp); Lit " = $random % (1 << ";
         Num (p_width inp); Lit ");"; Lit nl ]
  else [ Lit "            "; Word (p_name inp); Lit " = $random % 2;"; Lit nl ].

Definition monitor_arg_atoms (p : port) : list atom :=
  [ Lit ", "; Lit dquote; Lit " "; Word (p_name p); Lit "=%b"; Lit dquote;
    Lit ", "; Word (p_name p) ].

Definition footer_atoms (tb_name : string) : list atom :=
  [ Lit ");"; Lit nl;
    Lit "    end"; Lit nl;
    Lit "    "; Lit nl;
    Lit "    // VCD dump for waveform viewing"; Lit nl;
    Lit "    initial begin"; Lit nl;
    Lit "        $dumpfile("; Lit dquote; Lit "wave.vcd"; Lit dquote; Lit ");"; Lit nl;
    Lit "        $dumpvars(0, "; Word tb_name; Lit ");"; Lit nl;
    Lit "    end"; Lit nl;
    Lit nl;
    Lit "endmodule"; Lit nl ].

(** The inputs that the stimulus drives. *)
Definition stimulated (mi : module_info) : list port :=
  List.filter
    (driven (List.filter is_clock (mi_inputs mi) ++ List.filter is_reset (mi_inputs mi)))
    (mi_inputs mi).

(** The monitor statement and the end of the testbench. *)
Definition monitor_atoms (mi : module_info) : list atom :=
  [ Lit loop_tail ]
  ++ flat_map monitor_arg_atoms (mi_inputs mi)
  ++ flat_map monitor_arg_atoms (mi_outputs mi)
  ++ footer_atoms (mi_name mi +:+ "_tb").

(** The fragments of the testbench, in the order of [generate_testbench]. *)
Definition body_atoms (mi : module_info) (test_vectors : Z) : list atom :=
  flat_map param_decl_atoms (mi_parameters mi)
  ++ heading_atoms "    // Inputs"
  ++ flat_map (port_decl_atoms "reg") (mi_inputs mi)
  ++ heading_atoms "    // Outputs"
  ++ flat_map (port_decl_atoms "wire") (mi_outputs mi)
  ++ heading_atoms "    // Inouts"
  ++ flat_map (port_decl_atoms "wire") (mi_inouts mi)
  ++ heading_atoms "    // Instantiate the Unit Under Test (UUT)"
  ++ [ Lit "    "; Word (mi_name mi); Lit " " ]
  ++ param_connection_atoms (mi_parameters mi)
  ++ [ Lit "uut ("; Lit nl ]
  ++ join_atoms (map (λ p, connection_atoms (p_name p))
                     (mi_inputs mi ++ mi_outputs mi ++ mi_inouts mi))
  ++ [ Lit nl; Lit "    );"; Lit nl; Lit nl ]
  ++ first_block_atoms clock_block_atoms (List.filter is_clock (mi_inputs mi))
  ++ first_block_atoms reset_block_atoms (List.filter is_reset (mi_inputs mi))
  ++ [ Lit stimulus_head ]
  ++ flat_map init_line_atoms (stimulated mi)
  ++ loop_head_atoms test_vectors
  ++ flat_map random_line_atoms (stimulated mi)
  ++ monitor_atoms mi.

Definition tb_atoms (mi : module_info) (test_vectors : Z) : list atom :=
  header_atoms (mi_name mi) (mi_name mi +:+ "_tb") ++ body_atoms mi test_vectors.

(** The text of the testbench without its line comments. *)
Definition stripped_testbench (mi : module_info) (test_vectors : Z) : string :=
  render (run_code (tb_atoms mi test_vectors)).

End Fragments.

(** ** The module information behind a testbench *)

(** The width of a port is the one of its range. *)
Definition consistent (p : port) : bool := p_width p =? p_msb p - p_lsb p + 1.

(** The names of the ports and of the wires and regs. *)
Definition all_names (mi : module_info) : list string :=
  map p_name (mi_inputs mi ++ mi_outputs mi ++ mi_inouts mi)
  ++ map n_name (mi_wires mi ++ mi_regs mi).

(** The module has a name, none of its names occurs twice, and the widths of
    its ports are those of their ranges. *)
Definition well_formed (mi : module_info) : bool :=
  negb (String.eqb (mi_name mi) EmptyString)
  && bool_decide (NoDup (all_names mi))
  && forallb consistent (mi_inputs mi ++ mi_outputs mi ++ mi_inouts mi).

(** A counter whose header declares its parameter and its ports. *)
Definition counter_source : string :=
"module counter #(parameter WIDTH = 8) (input clk, input rst, output [7:0] q);
  assign q = 0;
endmodule
".

(** What [parse_module] returns for [counter_source]: the value of the
    parameter goes on to the first comma. *)
Definition counter_info : module_info :=
  ModuleInfo "counter"
    [Port "clk" 1 0 0; Port "rst" 1 0 0] [Port "q" 8 7 0] []
    [Param "WIDTH" "8) (input clk"] [] [].

(** The same counter with the value of its parameter alone. *)
Definition counter_plain : module_info :=
  ModuleInfo "counter"
    [Port "clk" 1 0 0; Port "rst" 1 0 0] [Port "q" 8 7 0] []
    [Param "WIDTH" "8"] [] [].

(** ** Summary of a fragment *)

Definition no_slash (a : ascii) : bool := negb (is_slash a).

(** No fixed text of the fragment has a slash. *)
Definition slash_free (l : list atom) : bool :=
  forallb (λ a, match a with Lit s => all_chars no_slash s | _ => true end) l.

(** The text does not open a block comment, and does not end with a slash
    that could open one with the text that follows. *)
Definition ends_slash (p : option ascii) : bool :=
  match p with Some a => is_slash a | None => false end.

Definition tidy (s : string) : bool :=
  negb (contains "/*" s) && negb (ends_slash (last_char None s)).

Definition block_free (l : list atom) : bool :=
  forallb (λ a, match a with Lit s => tidy s | _ => true end) l.

(** Two changes of a balance, one after the other. *)
Definition join_profile (p q : Z * Z) : Z * Z := (p.1 + q.1, Z.min p.2 (p.1 + q.2)).

(** What the checker counts in a fragment: the occurrences of each of its
    words, the change of the parentheses and the change of the brackets. *)
Definition summary : Type := list nat * (Z * Z) * (Z * Z).

Definition summarize (l : list atom) : summary :=
  (map (λ kw, lit_count kw l) keywords, aprofile "(" ")" l, aprofile "[" "]" l).

Definition combine (a b : summary) : summary :=
  (zip_with Nat.add a.1.1 b.1.1, join_profile a.1.2 b.1.2, join_profile a.2 b.2).

Definition quiet_summary : summary := (map (λ _, O) keywords, (0, 0), (0, 0)).

(** A fragment in which the checker counts nothing. *)
Definition quiet (l : list atom) : Prop :=
  summarize l = quiet_summary ∧ slash_free l = true.

(** A quiet fragment at whose end a word ends. *)
Definition neutral (l : list atom) : Prop :=
  junctions false l = true ∧ quiet l.

(** [part tail_open P s]: the part [P] is entered and left outside a
    comment, what is left of it without its comments has the summary [s], its
    words end at its junctions and it opens no block comment. *)
Definition part (tail_open : bool) (P : list atom) (s : summary) : Prop :=
  atoms_run false P = Some (run_code P, false)
  ∧ junctions tail_open (run_code P) = true
  ∧ block_free (run_code P) = true
  ∧ summarize (run_code P) = s.

(** The summary of the testbench without its comments: the [module] of its
    header and one [endmodule], a [begin] and an [end] for each of the four blocks that are
    always there and for the clock and the reset block. *)
Definition tb_summary (modules : nat) (clock reset : bool) : summary :=
  let blocks := (4 + (if clock then 1 else 0) + (if reset then 1 else 0))%nat in
  ([modules; 1; blocks; blocks; 0; 0; 0; 0; 0; 0; 0; 0]%nat, (0, 0), (0, 0)).

Definition has_first (l : list port) : bool :=
  match l with [] => false | _ :: _ => true end.

(** The characters of a printed number. *)
Definition digitish (a : ascii) : bool := is_digit a || Ascii.eqb a "-".

(** A name, a value or a number. *)
Definition symbolic (a : atom) : bool :=
  match a with Lit _ => false | _ => true end.

(** ** Further notions *)

(** *** Gates *)

(** The last line of a verification that found no mismatch. *)
Definition verified_line : string :=
  "  ✓ ALL COMBINATIONS VERIFIED CORRECT!" +:+ AWaveViewer.nl.

(** The report for a gate that [verify_gate_logic] has no rules for. *)
Definition custom_report : string :=
  "VERIFICATION:" +:+ AWaveViewer.nl
  +:+ "ℹ Custom logic detected" +:+ AWaveViewer.nl
  +:+ "  Check truth table for behavior" +:+ AWaveViewer.nl.

(** The report of the NOR rules with the mismatch of an XNOR table. *)
Definition xnor_report : string :=
  concat_str [
    "VERIFICATION:"; AWaveViewer.nl;
    "✓ NOR Gate Rules (Correct Logic):"; AWaveViewer.nl;
    "  • 0 NOR 0 = 1 ✓"; AWaveViewer.nl;
    "  • 0 NOR 1 = 0 ✓"; AWaveViewer.nl;
    "  • 1 NOR 0 = 0 ✓"; AWaveViewer.nl;
    "  • 1 NOR 1 = 0 ✓"; AWaveViewer.nl;
    "  • Output = 1 only when ALL inputs = 0"; AWaveViewer.nl;
    "  • Inverted OR gate"; AWaveViewer.nl;
    "  ✗ Error: 1 NOR 1 should be 0, got 1"; AWaveViewer.nl ].

(** The truth tables of an XNOR gate, of an inverter and of an AND gate with
    three inputs. *)
Definition xnor_table : AWaveViewer.truth_table :=
  <[ ["0"; "0"] := "1" ]> (<[ ["0"; "1"] := "0" ]>
  (<[ ["1"; "0"] := "0" ]> (<[ ["1"; "1"] := "1" ]> ∅))).

Definition not_table : AWaveViewer.truth_table :=
  <[ ["0"] := "1" ]> (<[ ["1"] := "0" ]> ∅).

Definition and3_table : AWaveViewer.truth_table :=
  <[ ["0"; "0"; "0"] := "0" ]> (<[ ["0"; "0"; "1"] := "0" ]>
  (<[ ["0"; "1"; "0"] := "0" ]> (<[ ["0"; "1"; "1"] := "0" ]>
  (<[ ["1"; "0"; "0"] := "0" ]> (<[ ["1"; "0"; "1"] := "0" ]>
  (<[ ["1"; "1"; "0"] := "0" ]> (<[ ["1"; "1"; "1"] := "1" ]> ∅))))))).

(** The reports for the gates with three inputs that [detect_gate_type]
    names. *)
Definition and3_report : string :=
  concat_str [
    "VERIFICATION:"; AWaveViewer.nl;
    "✓ AND Gate Rules (Correct Logic):"; AWaveViewer.nl;
    "  • 0 AND 0 = 0 ✓"; AWaveViewer.nl;
    "  • 0 AND 1 = 0 ✓"; AWaveViewer.nl;
    "  • 1 AND 0 = 0 ✓"; AWaveViewer.nl;
    "  • 1 AND 1 = 1 ✓"; AWaveViewer.nl;
    "  • Output = 1 ONLY when ALL inputs = 1"; AWaveViewer.nl;
    "  • Output = 0 if ANY input = 0"; AWaveViewer.nl;
    "  ✓ Correct: All 3 inputs = 1 → Output = 1"; AWaveViewer.nl ].

Definition or3_report : string :=
  concat_str [
    "VERIFICATION:"; AWaveViewer.nl;
    "✓ OR Gate Rules (Correct Logic):"; AWaveViewer.nl;
    "  • 0 OR 0 = 0 ✓"; AWaveViewer.nl;
    "  • 0 OR 1 = 1 ✓"; AWaveViewer.nl;
    "  • 1 OR 0 = 1 ✓"; AWaveViewer.nl;
    "  • 1 OR 1 = 1 ✓"; AWaveViewer.nl;
    "  • Output = 1 when ANY input = 1"; AWaveViewer.nl;
    "  • Output = 0 only when ALL inputs = 0"; AWaveViewer.nl;
    "  ✓ Correct: All 3 inputs = 0 → Output = 0"; AWaveViewer.nl ].

(** *** Samples *)

(** The outputs of the samples whose inputs are [key], in the order of the
    samples. *)
Definition outputs_of (samples : list AWaveViewer.sample) (key : list string)
  : list string :=
  map AWaveViewer.s_output
      (List.filter (λ s, bool_decide (AWaveViewer.s_inputs s = key)) samples).

(** A record that is not sorted: its second change is later than its
    third. *)
Definition unsorted_changes : signal :=
  Signal "a" "tb.a" 1 "wire" [(0, "0"); (20, "1"); (10, "x")].

(** *** Traces *)

(** The change log and the signal table agree: every change of the log
    names a registered identifier, and every change recorded in a signal is
    in the log under the identifier of the signal. *)
Definition log_consistent (s : VCDParser.t) : Prop :=
  (∀ time identifier value,
      (time, identifier, value) ∈ VCDParser.changes s →
      is_Some (VCDParser.signals s !! identifier))
  ∧ (∀ identifier sig time value,
        VCDParser.signals s !! identifier = Some sig →
        (time, value) ∈ sig_values sig →
        (time, identifier, value) ∈ VCDParser.changes s).

(** The time of a line that is a time marker. *)
Definition marker (line : string) : option Z :=
  match strip line with
  | String "#" line_tail => py_int line_tail
  | _ => None
  end.

Definition markers (lines : list string) : list Z := omap marker lines.

(** The numbers of the list do not decrease. *)
Fixpoint ascending (l : list Z) : bool :=
  match l with
  | t1 :: ((t2 :: _) as l') => (t1 <=? t2) && ascending l'
  | _ => true
  end.

(** The times of a change log. *)
Definition log_times (changes : list change) : list Z := map (λ c, c.1.1) changes.

(** The times recorded in the instance do not decrease and do not exceed
    the current time. *)
Definition time_bounded (now : Z) (s : VCDParser.t) : Prop :=
  ascending (log_times (VCDParser.changes s) ++ [now]) = true
  ∧ (∀ identifier sig,
        VCDParser.signals s !! identifier = Some sig →
        ascending (map fst (sig_values sig) ++ [now]) = true).

(** A trace whose definitions are not closed. *)
Definition open_header : list string :=
  readlines "$var wire 1 ! a $end
#0
1!
#10
0!
".

(** *** Comments and validity *)

(** The number of lines of a text. *)
Definition line_count (s : string) : nat := length (split_on newline s).

(** A text with two line comments and no block comment. *)
Definition commented_lines : string :=
"module m; // the module
  wire a; // a wire
endmodule
".

(** *** Module texts *)

(** A text that declares wires only. *)
Definition wires_only : string :=
"wire a;
wire [3:0] b;
".

(** *** Lines *)

Definition not_space (a : ascii) : bool := negb (is_space a).
Definition not_newline_char (a : ascii) : bool := negb (is_newline a).

(** The text is empty or starts with a character that is not white space. *)
Definition starts_nonspace (s : string) : bool :=
  match s with
  | EmptyString => true
  | String c _ => not_space c
  end.

(** A line with its line feed, and no other. *)
Definition single_line (line : string) : Prop :=
  ∃ body, line = body +:+ String newline EmptyString
          ∧ all_chars not_newline_char body = true.

(** *** The built-in trace *)

(** The identifier made of the character with the code [var_id]. *)
Definition sig_id_of (var_id : nat) : string :=
  String (ascii_of_nat var_id) EmptyString.

(** A name as a declaration line needs it: not empty and without white
    space. *)
Definition spaceless (name : string) : bool :=
  negb (String.eqb name EmptyString) && all_chars not_space name.

(** What a declaration fixes of a signal: its name, its full name, its width
    and its type. *)
Definition static (sig : signal) : string * string * Z * string :=
  (sig_name sig, sig_full_name sig, sig_width sig, sig_type sig).

(** Two signal tables with the same identifiers and the same declarations. *)
Definition same_static (m1 m2 : gmap string signal) : Prop :=
  ∀ identifier, static <$> m1 !! identifier = static <$> m2 !! identifier.

(** The signal table after the declaration lines of [ports], the first of
    them with the identifier of the code [var_id]. *)
Fixpoint declared (scope : list string) (ports : list port) (var_id : nat)
    (m : gmap string signal) : gmap string signal :=
  match ports with
  | [] => m
  | p :: ports' =>
      declared scope ports' (S var_id)
        (<[sig_id_of var_id :=
             Signal (p_name p) (join "." (scope ++ [p_name p]))
                    (SimulationThread.width_int p) "wire" []]> m)
  end.

(** A line that [VCDParser.parse] reads without an exception and without a
    change of the declarations or of the time scale. *)
Definition benign (line : string) : Prop :=
  ∀ st, ∃ st', VCDParser.parse_line st line = Some st'
               ∧ same_static (VCDParser.signals (VCDParser.self st))
                             (VCDParser.signals (VCDParser.self st'))
               ∧ VCDParser.timescale (VCDParser.self st')
                 = VCDParser.timescale (VCDParser.self st).

(** The lines after the declarations of the built-in trace. *)
Inductive body_line : string → Prop :=
| marker_line (time : Z) :
    body_line ("#" +:+ str_of_Z time +:+ SimulationThread.nl)
| scalar_line (value : Z) (sig_id : string) :
    all_chars not_space sig_id = true →
    body_line (str_of_Z value +:+ sig_id +:+ SimulationThread.nl)
| vector_line (bits sig_id : string) :
    all_chars not_space bits = true →
    all_chars not_space sig_id = true →
    body_line ("b" +:+ bits +:+ " " +:+ sig_id +:+ SimulationThread.nl)
| dumpvars_line : body_line ("$dumpvars" +:+ SimulationThread.nl)
| end_line : body_line ("$end" +:+ SimulationThread.nl).

(** The identifiers of [signal_map] are without white space. *)
Definition ids_ok (signal_map : list (string * SimulationThread.sig_info)) : Prop :=
  Forall (λ item, all_chars not_space (SimulationThread.si_id item.2) = true)
         signal_map.

(** The module of a counter with five ports. *)
Definition counter_ports : module_info :=
  ModuleInfo "counter"
    [Port "clk" 1 0 0; Port "rst" 1 0 0; Port "en" 1 0 0; Port "d" 4 3 0]
    [Port "q" 8 7 0] [] [] [] [].

(** A generator of [random] for the examples: its state is a counter,
    [random.random() > 0.7] holds at every third call, and [randint(a, b)]
    gives [a] or [b] in turn. *)
Definition every_third (g : nat) : bool * nat :=
  (Nat.eqb (g mod 3) 0, S g).

Definition ends_in_turn (a b : Z) (g : nat) : Z * nat :=
  (if Nat.even g then a else b, S g).

(** The text that [generate_sample_vcd] writes for the counter with this
    generator. *)
Definition counter_trace : string :=
  match SimulationThread.generate_sample_vcd nat every_third ends_in_turn
          counter_ports 0%nat with
  | SimulationThread.Written vcd_content => vcd_content
  | _ => EmptyString
  end.

(** * Properties *)

(** Let [simpl] compute the concatenation of a text that starts with known
    characters. *)
#[local] Arguments String.append !s1 s2 / : simpl nomatch.

(** ** Concatenation of texts *)

Lemma str_app_assoc (a b c : string) : (a +:+ b) +:+ c = a +:+ (b +:+ c).
Proof. induction a as [|x a IH]; simpl; [done|by rewrite IH]. Qed.

Lemma str_app_nil_r (a : string) : a +:+ EmptyString = a.
Proof. induction a as [|x a IH]; simpl; [done|by rewrite IH]. Qed.

Lemma concat_str_app (l1 l2 : list string) :
  concat_str (l1 ++ l2) = concat_str l1 +:+ concat_str l2.
Proof.
  induction l1 as [|x l1 IH]; simpl; [done|].
  by rewrite IH, str_app_assoc.
Qed.

Lemma concat_str_split {A : Type} (f : A → string) (before after : list A) (x : A) :
  concat_str (map f (before ++ x :: after))
  = concat_str (map f before) +:+ f x +:+ concat_str (map f after).
Proof. by rewrite map_app, concat_str_app. Qed.

(** ** Point-in-time lookup *)

Section ValueAtTime.
Import AWaveViewer.

Lemma nondecreasing_tail c values :
  nondecreasing (c :: values) = true → nondecreasing values = true.
Proof.
  destruct c as [t1 v1], values as [|[t2 v2] values']; simpl; [done|].
  intros H. apply andb_prop in H. tauto.
Qed.

Lemma nondecreasing_later t0 v0 values :
  nondecreasing ((t0, v0) :: values) = true → Forall (λ c, t0 <= c.1) values.
Proof.
  revert t0 v0. induction values as [|[t2 v2] values' IH]; intros t0 v0 H.
  - constructor.
  - simpl in H. apply andb_prop in H as [H1 H2]. apply Z.leb_le in H1.
    constructor; [exact H1|].
    eapply Forall_impl; [exact (IH t2 v2 H2)|]. simpl. intros c Hc. lia.
Qed.

(** A scan that starts among changes at or before [time] ends on the last
    of them. *)
Lemma value_scan_last pre t1 v post time value :
  Forall (λ c, c.1 <= time) pre → t1 <= time → Forall (λ c, time < c.1) post →
  value_scan (pre ++ (t1, v) :: post) time value = v.
Proof.
  intros Hpre Ht1 Hpost. revert value.
  induction Hpre as [|[t0 v0] pre' H0 _ IH]; intros value; simpl.
  - apply Z.leb_le in Ht1. rewrite Ht1.
    destruct Hpost as [|[t2 v2] post' H2 _]; simpl; [done|].
    simpl in H2. apply Z.leb_gt in H2. by rewrite H2.
  - simpl in H0. apply Z.leb_le in H0. rewrite H0. apply IH.
Qed.

Lemma nondecreasing_prefix pre t1 v post :
  nondecreasing (pre ++ (t1, v) :: post) = true → Forall (λ c, c.1 <= t1) pre.
Proof.
  induction pre as [|[t0 v0] pre' IH]; intros H; [constructor|].
  constructor.
  - apply nondecreasing_later in H. apply Forall_app in H as [_ H].
    by inversion H.
  - apply IH. exact (nondecreasing_tail _ _ H).
Qed.

(** C1, as the specification states it, fails on the code: at a time before
    the first change of the example record the lookup returns the first
    recorded value, not the unknown value. *)
Lemma value_at_before_first_change :
  get_signal_value_at_time two_changes (-1) = "0"
  ∧ ¬ value_at_spec two_changes (-1) (get_signal_value_at_time two_changes (-1)).
Proof.
  split; [reflexivity|].
  intros [_ H]. discriminate H.
  repeat constructor.
Qed.

(** C1 (amended): for a signal record whose change times do not decrease,
    [get_signal_value_at_time] returns the value of the last change at or
    before [t] when there is one; it returns the upper-case ["X"] when the
    record has no changes, and the value of the first change when [t] is
    before the first change. *)
Theorem value_at_time_lookup (sig : signal) (t : Z) :
  nondecreasing (sig_values sig) = true →
  (∀ pre t1 v post,
      sig_values sig = pre ++ (t1, v) :: post →
      t1 <= t → Forall (λ c, t < c.1) post →
      get_signal_value_at_time sig t = v)
  ∧ (sig_values sig = [] → get_signal_value_at_time sig t = "X")
  ∧ (∀ t0 v0 values,
        sig_values sig = (t0, v0) :: values → t < t0 →
        get_signal_value_at_time sig t = v0).
Proof.
  intros Hsorted. unfold get_signal_value_at_time. split; [|split].
  - intros pre t1 v post Heq Ht1 Hpost. rewrite Heq in Hsorted.
    assert (Hpre : Forall (λ c, c.1 <= t) pre).
    { eapply Forall_impl; [exact (nondecreasing_prefix _ _ _ _ Hsorted)|].
      simpl. intros c Hc. lia. }
    rewrite Heq.
    destruct (pre ++ (t1, v) :: post) as [|[t0 v0] l] eqn:E.
    + by destruct pre.
    + rewrite <- E. by apply value_scan_last.
  - intros ->. reflexivity.
  - intros t0 v0 values -> Hlt. simpl.
    apply Z.leb_gt in Hlt. by rewrite Hlt.
Qed.

(** The examples of the specification that hold: the value at 5 and at 20. *)
Lemma value_at_time_lookup_example :
  get_signal_value_at_time two_changes 5 = "0"
  ∧ get_signal_value_at_time two_changes 20 = "1".
Proof.
  pose proof (value_at_time_lookup two_changes 5 eq_refl) as [H5 _].
  pose proof (value_at_time_lookup two_changes 20 eq_refl) as [H20 _].
  split.
  - apply (H5 [] 0 "0" [(10, "1")]); [reflexivity | lia | repeat constructor].
  - apply (H20 [(0, "0")] 10 "1" []); [reflexivity | lia | constructor].
Defined.

End ValueAtTime.

(** ** Logic analysis *)

Section LogicAnalysis.
Import AWaveViewer.

(** C9: for the truth table (0,0)->0, (0,1)->0, (1,0)->0, (1,1)->1 of two
    inputs, [detect_gate_type] answers the AND gate, and [verify_gate_logic]
    finds no mismatch: its list of error lines is empty, its report ends with
    the line that all combinations are verified, and no error mark occurs in
    it. *)
Theorem and_gate_detected_and_verified :
  detect_gate_type and_table 2 = "AND Gate"
  ∧ mismatches (binary "AND") and_expected and_table = []
  ∧ (∃ rules,
        verify_gate_logic (detect_gate_type and_table 2) and_table 2
        = rules +:+ "  ✓ ALL COMBINATIONS VERIFIED CORRECT!" +:+ nl
        ∧ contains "✗" rules = false)
  ∧ contains "✗" (verify_gate_logic (detect_gate_type and_table 2) and_table 2) = false.
Proof.
  split; [by vm_compute|]. split; [by vm_compute|]. split; [|by vm_compute].
  eexists (concat_str [
    "VERIFICATION:"; nl;
    "✓ AND Gate Rules (Correct Logic):"; nl;
    "  • 0 AND 0 = 0 ✓"; nl;
    "  • 0 AND 1 = 0 ✓"; nl;
    "  • 1 AND 0 = 0 ✓"; nl;
    "  • 1 AND 1 = 1 ✓"; nl;
    "  • Output = 1 ONLY when ALL inputs = 1"; nl;
    "  • Output = 0 if ANY input = 0"; nl ]).
  split; by vm_compute.
Qed.

(** The truth-table data and its consolidation keep binary values only. *)

Lemma valid_binary v : valid v = true → binary_value v.
Proof.
  unfold valid, named, binary_value. simpl. intros H.
  destruct (String.eqb v "0") eqn:E0.
  - left. by apply String.eqb_eq.
  - destruct (String.eqb v "1") eqn:E1; [|done].
    right. by apply String.eqb_eq.
Qed.

Lemma forallb_valid_binary k : forallb valid k = true → Forall binary_value k.
Proof.
  intros H. apply Forall_forall. intros v Hv.
  apply valid_binary. rewrite forallb_forall in H. apply H.
  by apply list_elem_of_In.
Qed.

Lemma truth_table_data_ok samples :
  Forall (λ s, valid_sample s = true) samples →
  data_ok (truth_table_data samples).
Proof.
  unfold truth_table_data.
  assert (Hgen : ∀ data,
    data_ok data →
    Forall (λ s, valid_sample s = true) samples →
    data_ok (fold_left
      (λ data s, <[s_inputs s := default [] (data !! s_inputs s) ++ [s_output s]]> data)
      samples data)).
  { induction samples as [|s samples' IH]; intros data Hdata Hall; [exact Hdata|].
    inversion Hall as [|? ? Hs Hall']; subst. simpl. apply IH; [|exact Hall'].
    unfold valid_sample in Hs. apply andb_prop in Hs as [Hin Hout].
    intros k outs Hk.
    destruct (decide (s_inputs s = k)) as [<-|Hne].
    - rewrite lookup_insert_eq in Hk. injection Hk as <-.
      split; [by apply forallb_valid_binary|]. split.
      + intros Habs. by apply app_eq_nil in Habs as [_ ?].
      + apply Forall_app. split.
        * destruct (data !! s_inputs s) as [outs0|] eqn:E; simpl; [|constructor].
          by apply (Hdata _ _ E).
        * constructor; [by apply valid_binary|constructor].
    - rewrite lookup_insert_ne in Hk by done. by apply Hdata. }
  intros Hall. apply Hgen; [|exact Hall].
  intros k outs Hk. by rewrite lookup_empty in Hk.
Qed.

Lemma max_from_elem key best l : max_from key best l ∈ best :: l.
Proof.
  revert best. induction l as [|x l' IH]; intros best; simpl.
  - apply list_elem_of_here.
  - destruct (key best <? key x)%nat.
    + apply list_elem_of_further, IH.
    + specialize (IH best). apply elem_of_cons in IH as [->|IH].
      * apply list_elem_of_here.
      * by do 2 apply list_elem_of_further.
Qed.

Lemma most_common_elem set_order outputs :
  (∀ l x, x ∈ set_order l ↔ x ∈ l) →
  outputs ≠ [] → most_common set_order outputs ∈ outputs.
Proof.
  intros Hset Hne. unfold most_common.
  destruct (set_order outputs) as [|x l] eqn:E.
  - destruct outputs as [|o outputs']; [done|].
    assert (Ho : o ∈ set_order (o :: outputs')) by (apply Hset; left).
    rewrite E in Ho. by apply elem_of_nil in Ho.
  - apply Hset. rewrite E. apply max_from_elem.
Qed.

(** C8: whatever the order in which a set of strings is iterated, every key
    of the truth table that [analyze_combinational_logic] builds is a tuple
    of values in 0/1 and every output it maps to is 0 or 1. *)
Theorem truth_table_has_no_x_or_z
    (set_order : list string → list string) (signals : list (string * signal))
    (a : analysis) :
  (∀ l x, x ∈ set_order l ↔ x ∈ l) →
  analyze_combinational_logic set_order signals = Some a →
  ∀ key out, a_truth_table a !! key = Some out →
    Forall binary_value key ∧ binary_value out.
Proof.
  intros Hset Ha key out Hlook. unfold analyze_combinational_logic in Ha.
  destruct (last signals) as [output|]; [|done].
  destruct (logic_samples (removelast signals) output) as [|s samples] eqn:E; [done|].
  injection Ha as <-. simpl in Hlook.
  assert (Hok : data_ok (truth_table_data (s :: samples))).
  { apply truth_table_data_ok. rewrite <- E. unfold logic_samples.
    apply Forall_forall. intros x Hx. apply list_elem_of_In in Hx.
    apply filter_In in Hx. tauto. }
  unfold consolidate in Hlook. rewrite lookup_fmap in Hlook.
  destruct (truth_table_data (s :: samples) !! key) as [outs|] eqn:Ek; [|done].
  injection Hlook as <-.
  destruct (Hok _ _ Ek) as (Hkey & Hne & Houts).
  split; [exact Hkey|].
  rewrite Forall_forall in Houts. apply Houts.
  by apply most_common_elem.
Qed.

Lemma first_seen_order_elem l (x : string) : x ∈ first_seen_order l ↔ x ∈ l.
Proof. apply elem_of_remove_dups. Qed.

(** The analysis of the AND example: its table is the AND table, and the
    theorem above applies to it. *)
Lemma truth_table_has_no_x_or_z_example :
  ∃ a, analyze_combinational_logic first_seen_order and_signals = Some a
       ∧ a_truth_table a = and_table
       ∧ a_gate_type a = "AND Gate"
       ∧ (Forall binary_value ["1"; "1"] ∧ binary_value "1").
Proof.
  eexists. split; [by vm_compute|]. split; [by vm_compute|]. split; [by vm_compute|].
  eapply (truth_table_has_no_x_or_z first_seen_order and_signals _
            first_seen_order_elem).
  - by vm_compute.
  - by vm_compute.
Defined.

End LogicAnalysis.

(** ** Diagnostics of the syntax checker *)

Section Diagnostics.
Import VerilogSyntaxChecker.

Lemma scan_lines_errors opening closing unmatched lines line_num balance :
  (∀ n, is_error (unmatched n)) →
  Forall is_error (scan_lines opening closing unmatched lines line_num balance).2.
Proof.
  intros Hmsg. revert line_num balance.
  induction lines as [|line lines' IH]; intros line_num balance; simpl.
  - constructor.
  - destruct (scan_line opening closing line balance) as [balance' broke].
    specialize (IH (S line_num) balance').
    destruct (scan_lines opening closing unmatched lines' (S line_num) balance')
      as [final errs]. simpl in *.
    destruct broke; simpl; [constructor|]; auto.
Qed.

Lemma check_balance_errors opening closing unmatched unclosed code :
  (∀ n, is_error (unmatched n)) → (∀ b, is_error (unclosed b)) →
  Forall is_error (check_balance opening closing unmatched unclosed code).
Proof.
  intros Hun Hcl. unfold check_balance.
  pose proof (scan_lines_errors opening closing unmatched
                (split_on newline code) 0 0 Hun) as H.
  destruct (scan_lines opening closing unmatched (split_on newline code) 0 0)
    as [balance errs]. simpl in H.
  apply Forall_app. split; [exact H|].
  destruct (0 <? balance); repeat constructor. apply Hcl.
Qed.

Lemma errors_of_errors code : Forall is_error (errors_of code).
Proof.
  unfold errors_of.
  repeat (apply Forall_app; split);
    try (match goal with |- Forall _ (if ?b then _ else _) => destruct b end;
         repeat constructor);
    apply check_balance_errors; intros; reflexivity.
Qed.

Lemma check_semicolons_notices i lines :
  Forall is_notice (check_semicolons i lines).
Proof.
  revert i. induction lines as [|line lines' IH]; intros i; simpl.
  - constructor.
  - apply Forall_app. split; [|apply IH].
    repeat match goal with
           | |- Forall _ (if ?b then _ else _) => destruct b
           | |- Forall _ (match ?l with [] => _ | _ :: _ => _ end) => destruct l
           end; repeat constructor.
Qed.

Lemma warnings_of_notices code : Forall is_notice (warnings_of code).
Proof.
  unfold warnings_of.
  repeat (apply Forall_app; split);
    try apply check_semicolons_notices;
    repeat match goal with
           | |- Forall _ (if ?b then _ else _) => destruct b
           | |- Forall _ (match ?l with [] => _ | _ :: _ => _ end) => destruct l
           | |- Forall _ (match ?o with Some _ => _ | None => _ end) => destruct o
           end;
    repeat constructor; by right.
Qed.

Lemma notice_not_error m : is_notice m → ¬ is_error m.
Proof. unfold is_notice, is_error. intros [H|H] E; congruence. Qed.



(** C10: the messages that [check_syntax] returns are its errors followed
    by its warnings and notes, so that every error comes before every
    message of another severity. *)
Theorem errors_come_first (verilog_code : string) :
  (∃ errors warnings,
      (check_syntax verilog_code).2 = errors ++ warnings
      ∧ Forall is_error errors ∧ Forall is_notice warnings)
  ∧ (∀ i j mi mj,
        (check_syntax verilog_code).2 !! i = Some mi →
        (check_syntax verilog_code).2 !! j = Some mj →
        is_error mi → is_notice mj → (i < j)%nat).
Proof.
  unfold check_syntax. simpl.
  pose proof (errors_of_errors (_remove_comments verilog_code)) as He.
  pose proof (warnings_of_notices (_remove_comments verilog_code)) as Hw.
  split; [by eauto|].
  intros i j mi mj Hi Hj Hmi Hmj.
  destruct (decide (i < length (errors_of (_remove_comments verilog_code)))%nat)
    as [Hlt|Hge].
  - destruct (decide (j < length (errors_of (_remove_comments verilog_code)))%nat)
      as [Hjlt|Hjge]; [|lia].
    rewrite lookup_app_l in Hj by done.
    rewrite Forall_forall in He.
    exfalso. eapply notice_not_error; [exact Hmj|].
    apply He. eapply list_elem_of_lookup_2. exact Hj.
  - rewrite lookup_app_r in Hi by lia.
    rewrite Forall_forall in Hw.
    exfalso. eapply notice_not_error; [|exact Hmi].
    apply Hw. eapply list_elem_of_lookup_2. exact Hi.
Qed.

(** A text with an error and two notices: the error is first. *)
Lemma errors_come_first_example :
  (check_syntax two_modules_one_end).2 !! 0%nat
    = Some "ERROR: Module/endmodule mismatch (found 2 module(s) but 1 endmodule(s))"
  ∧ (0 < 1)%nat.
Proof.
  split; [by vm_compute|].
  destruct (errors_come_first two_modules_one_end) as [_ H].
  eapply (H 0%nat 1%nat); [by vm_compute | by vm_compute | by vm_compute |].
  right. by vm_compute.
Defined.

End Diagnostics.

(** ** The state of a VCD parser instance *)

Section ParserState.
Import VCDParser.

Lemma keeps_refl s : keeps s s.
Proof. split; [exists []; by rewrite app_nil_r | auto]. Qed.

Lemma keeps_trans s1 s2 s3 : keeps s1 s2 → keeps s2 s3 → keeps s1 s3.
Proof.
  intros [[n1 H1] K1] [[n2 H2] K2]. split.
  - exists (n1 ++ n2). by rewrite H2, H1, app_assoc.
  - auto.
Qed.

Lemma keeps_insert tsc sigs chgs scopes tsc' scopes' identifier sig :
  keeps (Self tsc sigs chgs scopes)
        (Self tsc' (<[identifier := sig]> sigs) chgs scopes').
Proof.
  split; simpl.
  - exists []. by rewrite app_nil_r.
  - intros i Hi. destruct (decide (identifier = i)) as [->|Hne].
    + rewrite lookup_insert_eq. eauto.
    + by rewrite lookup_insert_ne.
Qed.

Lemma keeps_fields tsc sigs chgs scopes tsc' scopes' :
  keeps (Self tsc sigs chgs scopes) (Self tsc' sigs chgs scopes').
Proof. split; simpl; [exists []; by rewrite app_nil_r | auto]. Qed.

Lemma record_change_keeps st identifier value :
  keeps (self st) (self (record_change st identifier value)).
Proof.
  unfold record_change.
  destruct (signals (self st) !! identifier) as [sig|] eqn:E; [|apply keeps_refl].
  destruct st as [[tsc sigs chgs scopes] hdr time]. simpl in *.
  split; simpl.
  - eauto.
  - intros i Hi. destruct (decide (identifier = i)) as [->|Hne].
    + rewrite lookup_insert_eq. eauto.
    + by rewrite lookup_insert_ne.
Qed.

Lemma parse_line_keeps st line st' :
  parse_line st line = Some st' → keeps (self st) (self st').
Proof.
  unfold parse_line. destruct st as [[tsc sigs chgs scopes] hdr time]. simpl.
  intros H.
  repeat match type of H with
         | match ?x with _ => _ end = _ => destruct x eqn:?
         | (if ?b then _ else _) = _ => destruct b eqn:?
         end;
    try discriminate; injection H as <-; simpl;
    try apply keeps_refl; try apply keeps_fields; try apply keeps_insert;
    apply (record_change_keeps (State (Self tsc sigs chgs scopes) hdr time)).
Qed.

Lemma parse_lines_keeps lines st :
  keeps (self st) (self (parse_lines st lines).1).
Proof.
  revert st. induction lines as [|line lines' IH]; intros st; simpl.
  - apply keeps_refl.
  - destruct (parse_line st line) as [st'|] eqn:E; simpl; [|apply keeps_refl].
    eapply keeps_trans; [exact (parse_line_keeps _ _ _ E)|apply IH].
Qed.

(** C2, as the specification states it, fails on the code: an instance that
    has parsed the trace [trace_a] returns for [trace_b] a signal table and a
    change log that still hold the signal and the changes of [trace_a], while
    a fresh instance returns those of [trace_b] alone.  Parsing one trace
    twice on one instance returns its changes twice. *)
Lemma parse_depends_on_earlier_calls :
  let used := (parse init (Some trace_a)).1 in
  (parse init (Some trace_b)).2
    = Some ({[ "#" := Signal "b" "b" 1 "wire" [(5, "1")] ]}, [(5, "#", "1")])
  ∧ (parse used (Some trace_b)).2
    = Some (<[ "!" := Signal "a" "tb.a" 1 "wire" [(0, "1"); (10, "0")] ]>
              {[ "#" := Signal "b" "b" 1 "wire" [(5, "1")] ]},
            [(0, "!", "1"); (10, "!", "0"); (5, "#", "1")])
  ∧ (parse used (Some trace_b)).2 ≠ (parse init (Some trace_b)).2
  ∧ (parse used (Some trace_a)).2 ≠ (parse init (Some trace_a)).2.
Proof.
  repeat split; by vm_compute.
Qed.

(** C2 (amended): a call of [parse] starts from the fields of the instance
    and returns them: the returned signal table and change log are the fields
    of the instance after the call, the returned change log is the change log
    the instance had before the call followed by the changes of this call, and
    every identifier registered before the call is still in the returned
    table. *)
Theorem parse_returns_instance_fields (s s' : VCDParser.t) (lines : list string)
    (sigs : gmap string signal) (chgs : list change) :
  parse s (Some lines) = (s', Some (sigs, chgs)) →
  sigs = signals s' ∧ chgs = changes s'
  ∧ (∃ new, chgs = changes s ++ new)
  ∧ (∀ identifier, is_Some (signals s !! identifier) → is_Some (sigs !! identifier)).
Proof.
  unfold parse. intros H.
  pose proof (parse_lines_keeps lines (State s true 0)) as [Hc Hs].
  destruct (parse_lines (State s true 0) lines) as [st raised].
  destruct raised; [done|]. injection H as <- <- <-. simpl in *. auto.
Qed.

(** The second call of the counterexample, seen through the theorem. *)
Lemma parse_returns_instance_fields_example :
  ∃ new, [(0, "!", "1"); (10, "!", "0"); (5, "#", "1")]
         = changes (parse init (Some trace_a)).1 ++ new.
Proof.
  eapply (parse_returns_instance_fields (parse init (Some trace_a)).1 _ trace_b).
  by vm_compute.
Defined.

End ParserState.

(** ** Names in the module information *)

Section ModuleNames.
Import VerilogSyntaxChecker VerilogParser.

Lemma named_elem x names : named x names = true ↔ x ∈ names.
Proof.
  unfold named. rewrite existsb_exists. split.
  - intros (y & Hy & E). apply String.eqb_eq in E as ->. by apply list_elem_of_In.
  - intros H. exists x. split; [by apply list_elem_of_In | apply String.eqb_refl].
Qed.

Lemma named_not_elem x names : named x names = false ↔ x ∉ names.
Proof.
  rewrite <- named_elem. destruct (named x names); split; intros; congruence.
Qed.

Section FirstOccurrences.
Context {A : Type} (name : A → string).

Lemma first_occurrences_nodup seen (l : list A) :
  NoDup seen → NoDup (seen ++ map name (first_occurrences name seen l)).
Proof.
  revert seen. induction l as [|x l' IH]; intros seen Hseen; simpl.
  - by rewrite app_nil_r.
  - destruct (named (name x) seen) eqn:E; [by apply IH|].
    simpl. rewrite cons_middle, app_assoc. apply IH.
    apply NoDup_app. split; [exact Hseen|]. split.
    + intros y Hy Hy'. apply list_elem_of_singleton in Hy' as ->.
      by apply named_not_elem in E.
    + apply NoDup_singleton.
Qed.

Lemma first_occurrences_fresh seen (l : list A) x :
  NoDup seen → x ∈ map name (first_occurrences name seen l) → x ∉ seen.
Proof.
  intros Hseen Hx Hs.
  pose proof (first_occurrences_nodup seen l Hseen) as H.
  apply NoDup_app in H as (_ & H & _). by apply (H x).
Qed.

Lemma first_occurrences_fresh_any seen (l : list A) x :
  x ∈ map name (first_occurrences name seen l) → x ∉ seen.
Proof.
  revert seen. induction l as [|y l' IH]; intros seen; simpl.
  - intros H. by apply elem_of_nil in H.
  - destruct (named (name y) seen) eqn:E; [apply IH|].
    simpl. intros H. apply elem_of_cons in H as [->|H].
    + by apply named_not_elem.
    + apply IH in H. intros Hs. apply H. apply elem_of_app. by left.
Qed.

Lemma first_occurrences_nodup_any seen (l : list A) :
  NoDup (map name (first_occurrences name seen l)).
Proof.
  revert seen. induction l as [|y l' IH]; intros seen; simpl.
  - constructor.
  - destruct (named (name y) seen) eqn:E; [apply IH|].
    simpl. constructor; [|apply IH].
    intros H. apply first_occurrences_fresh_any in H.
    apply H. apply elem_of_app. right. apply list_elem_of_here.
Qed.

End FirstOccurrences.

Lemma port_of_match_name m : p_name (port_of_match m) = group_str 3 m.
Proof. unfold port_of_match. by destruct (has_range m). Qed.

Lemma net_of_match_name m : n_name (net_of_match m) = group_str 3 m.
Proof. unfold net_of_match. by destruct (has_range m). Qed.

Lemma add_ports_first matches ports :
  add_ports matches ports
  = ports ++ first_occurrences p_name (map p_name ports) (map port_of_match matches).
Proof.
  revert ports. induction matches as [|m matches' IH]; intros ports; simpl.
  - by rewrite app_nil_r.
  - rewrite port_of_match_name.
    destruct (named (group_str 3 m) (map p_name ports)); [apply IH|].
    rewrite IH, map_app. simpl. rewrite port_of_match_name.
    by rewrite <- app_assoc.
Qed.

Lemma add_nets_first matches ports nets :
  add_nets matches ports nets
  = nets ++ first_occurrences n_name (ports ++ map n_name nets)
                              (map net_of_match matches).
Proof.
  revert nets. induction matches as [|m matches' IH]; intros nets; simpl.
  - by rewrite app_nil_r.
  - rewrite net_of_match_name.
    destruct (named (group_str 3 m) (ports ++ map n_name nets)); [apply IH|].
    rewrite IH, map_app. simpl. rewrite net_of_match_name.
    by rewrite <- !app_assoc.
Qed.

(** C5, as the specification states it, fails on the code: a name declared
    as an input and as an output is in both port lists. *)
Lemma name_in_two_port_lists :
  map p_name (mi_inputs (parse_module input_and_output)) = ["a"]
  ∧ map p_name (mi_outputs (parse_module input_and_output)) = ["a"].
Proof. split; by vm_compute. Qed.

(** The loops over the wires and the regs skip fewer ports than their comment
    says: an inout port is also listed as a wire, an input also as a reg. *)
Lemma port_also_listed_as_net :
  map p_name (mi_inouts (parse_module port_and_net)) = ["d"]
  ∧ map n_name (mi_wires (parse_module port_and_net)) = ["d"]
  ∧ map p_name (mi_inputs (parse_module port_and_net)) = ["a"]
  ∧ map n_name (mi_regs (parse_module port_and_net)) = ["a"].
Proof. repeat split; by vm_compute. Qed.

(** C5 (amended): in the module information of every source text, no name
    occurs twice within the list of inputs, of outputs, of inouts, of wires
    or of regs, each list keeping the first match of a name; no wire has the
    name of an input or of an output, and no reg has the name of an output. *)
Theorem parse_module_first_occurrence_wins (verilog_code : string) :
  let mi := parse_module verilog_code in
  let code_no_comments := _remove_comments verilog_code in
  (NoDup (map p_name (mi_inputs mi)) ∧ NoDup (map p_name (mi_outputs mi))
   ∧ NoDup (map p_name (mi_inouts mi))
   ∧ NoDup (map n_name (mi_wires mi)) ∧ NoDup (map n_name (mi_regs mi)))
  ∧ (∀ x, x ∈ map n_name (mi_wires mi) →
          (x ∉ map p_name (mi_inputs mi)) ∧ (x ∉ map p_name (mi_outputs mi)))
  ∧ (∀ x, x ∈ map n_name (mi_regs mi) → x ∉ map p_name (mi_outputs mi))
  ∧ mi_inputs mi
    = first_occurrences p_name []
        (map port_of_match (re_finditer input_pattern code_no_comments))
  ∧ mi_outputs mi
    = first_occurrences p_name []
        (map port_of_match (re_finditer output_pattern code_no_comments))
  ∧ mi_inouts mi
    = first_occurrences p_name []
        (map port_of_match (re_finditer inout_pattern code_no_comments))
  ∧ mi_wires mi
    = first_occurrences n_name
        (map p_name (mi_inputs mi) ++ map p_name (mi_outputs mi))
        (map net_of_match (re_finditer wire_pattern code_no_comments))
  ∧ mi_regs mi
    = first_occurrences n_name (map p_name (mi_outputs mi))
        (map net_of_match (re_finditer reg_pattern code_no_comments)).
Proof.
  unfold parse_module, _remove_comments. simpl.
  rewrite !add_ports_first, !add_nets_first. simpl. rewrite !app_nil_r.
  split; [repeat split; apply first_occurrences_nodup_any|].
  split; [|split; [|done]].
  - intros x Hx. apply first_occurrences_fresh_any in Hx.
    split; intros H; apply Hx, elem_of_app; auto.
  - intros x Hx. by apply first_occurrences_fresh_any in Hx.
Qed.

(** C6 fails on the code at the text [commented_module]: the module name and
    the parameters are taken from the text with its comments, so the result
    differs from the one for the text without them. *)
Lemma parse_module_reads_comments :
  mi_name (parse_module commented_module) = "foo"
  ∧ mi_parameters (parse_module commented_module) = [Param "W" "4"]
  ∧ mi_name (parse_module (_remove_comments commented_module)) = "bar"
  ∧ mi_parameters (parse_module (_remove_comments commented_module)) = []
  ∧ parse_module commented_module
    ≠ parse_module (_remove_comments commented_module).
Proof. repeat split; by vm_compute. Qed.

End ModuleNames.

(** ** The stimulus of the generated testbench *)

Section Stimulus.
Import TestbenchGenerator.

(** An input that is neither clock-named nor reset-named is among the inputs
    that the stimulus drives. *)
Lemma driven_when_plain (inputs : list port) (inp : port) :
  is_clock inp = false → is_reset inp = false →
  driven (List.filter is_clock inputs ++ List.filter is_reset inputs) inp = true.
Proof.
  intros Hc Hr. unfold driven. apply negb_true_iff.
  destruct (named (p_name inp)
              (map p_name (List.filter is_clock inputs ++ List.filter is_reset inputs)))
    eqn:E; [|done]. exfalso.
  unfold named in E. apply existsb_exists in E as (y & Hy & Heq).
  apply String.eqb_eq in Heq. subst y.
  apply in_map_iff in Hy as (s & Hs & Hin).
  apply in_app_or in Hin as [Hin|Hin]; apply filter_In in Hin as [_ Hin].
  - unfold is_clock in *. rewrite Hs in Hin. congruence.
  - unfold is_reset in *. rewrite Hs in Hin. congruence.
Qed.




End Stimulus.

(** ** The matcher on comments *)

Section Comments.
Import VerilogSyntaxChecker.

Lemma length_drop_str n s :
  String.length (drop_str n s) = (String.length s - n)%nat.
Proof.
  revert s. induction n as [|n IH]; intros [|a s]; simpl; auto.
Qed.

Lemma length_take_str n s :
  (n <= String.length s)%nat → String.length (take_str n s) = n.
Proof.
  revert s. induction n as [|n IH]; intros [|a s]; simpl; try done; try lia.
  intros H. f_equal. apply IH. lia.
Qed.

Lemma length_app_str a b :
  String.length (a +:+ b) = (String.length a + String.length b)%nat.
Proof. induction a as [|x a IH]; simpl; [done|by rewrite IH]. Qed.

(** Skipping the characters that a match covered. *)
Lemma finditer_skip r x p s :
  finditer_from r p (x +:+ s) (String.length x) = finditer_from r (last_char p x) s O.
Proof.
  revert p. induction x as [|a x IH]; intros p; simpl; [done|apply IH].
Qed.

Lemma sub_skip r x p s :
  sub_from r p (x +:+ s) (String.length x) = sub_from r (last_char p x) s O.
Proof.
  revert p. induction x as [|a x IH]; intros p; simpl; [done|apply IH].
Qed.

(** The equations of the matcher. *)
Lemma rmatch_seq r1 r2 c : rmatch (RSeq r1 r2) c = flat_map (rmatch r2) (rmatch r1 c).
Proof. reflexivity. Qed.

Lemma rmatch_alt r1 r2 c : rmatch (RAlt r1 r2) c = rmatch r1 c ++ rmatch r2 c.
Proof. reflexivity. Qed.

Lemma rmatch_star g r c :
  rmatch (RStar g r) c = star_loop (rmatch r) g (String.length (rest c)) c.
Proof. reflexivity. Qed.

Lemma rmatch_char P p a s cs :
  rmatch (RChar P) (Cursor p (String a s) cs)
  = if P a then [Cursor (Some a) s cs] else [].
Proof. reflexivity. Qed.

Lemma rmatch_char_end P p cs : rmatch (RChar P) (Cursor p EmptyString cs) = [].
Proof. reflexivity. Qed.

Lemma rmatch_eol c : rmatch REol c = if at_eol c then [c] else [].
Proof. reflexivity. Qed.

Lemma rmatch_wordb c :
  rmatch RWordB c = if xorb (word_before c) (word_after c) then [c] else [].
Proof. reflexivity. Qed.

Lemma star_loop_step step g fuel c :
  star_loop step g (S fuel) c
  = let more :=
      flat_map (λ c1, if progress c c1 then star_loop step g fuel c1 else []) (step c) in
    if g then more ++ [c] else c :: more.
Proof. reflexivity. Qed.

Lemma progress_char p a s cs cs' :
  progress (Cursor p (String a s) cs) (Cursor (Some a) s cs') = true.
Proof. unfold progress. simpl. apply Nat.ltb_lt. lia. Qed.

#[local] Arguments rmatch : simpl never.
#[local] Arguments star_loop : simpl never.

(** The lazy star of [.] followed by [$] stops at the end of the line. *)
Lemma lazy_to_eol fuel p s cs :
  (eol_dist s <= fuel)%nat →
  ∃ tl,
    flat_map (rmatch REol)
             (star_loop (rmatch (RChar not_newline)) false fuel (Cursor p s cs))
    = Cursor (last_char p (take_str (eol_dist s) s)) (drop_str (eol_dist s) s) cs :: tl.
Proof.
  revert p s. induction fuel as [|fuel IH]; intros p s Hle.
  - destruct s as [|a s]; [by eexists|].
    simpl in Hle. unfold is_newline in Hle.
    destruct (Ascii.eqb a newline) eqn:E; [|lia].
    simpl eol_dist. unfold is_newline. rewrite E.
    change (star_loop _ false 0 ?c) with [c]. simpl flat_map.
    rewrite rmatch_eol. unfold at_eol. simpl. rewrite E. by eexists.
  - rewrite star_loop_step. cbv zeta. simpl flat_map at 1. rewrite rmatch_eol.
    destruct s as [|a s]; [by eexists|].
    simpl in Hle. simpl eol_dist. unfold is_newline in *. unfold at_eol. simpl rest.
    destruct (Ascii.eqb a newline) eqn:E; [by eexists|].
    assert (Hn : not_newline a = true) by (unfold not_newline; by rewrite E).
    rewrite rmatch_char, Hn.
    simpl flat_map. rewrite progress_char, !app_nil_r.
    destruct (IH (Some a) s ltac:(lia)) as [tl Htl].
    simpl. rewrite Htl. by eexists.
Qed.

Lemma eol_dist_le s : (eol_dist s <= String.length s)%nat.
Proof.
  induction s as [|a s IH]; simpl; [lia|]. destruct (is_newline a); lia.
Qed.

Lemma startswith_drop w s :
  startswith w s = true → s = w +:+ drop_str (String.length w) s.
Proof.
  revert s. induction w as [|a w IH]; intros [|x s] H; simpl in *; try done.
  apply andb_prop in H as [Ha H]. apply Ascii.eqb_eq in Ha as <-.
  f_equal. by apply IH.
Qed.

Lemma startswith_app w s : startswith w (w +:+ s) = true.
Proof.
  induction w as [|a w IH]; simpl; [done|]. by rewrite Ascii.eqb_refl.
Qed.

(** A literal pattern matches the text that starts with it. *)
Lemma rmatch_lit w c :
  w ≠ EmptyString →
  rmatch (RLit w) c
  = if startswith w (rest c)
    then [Cursor (last_char (prev c) w) (drop_str (String.length w) (rest c)) (caps c)]
    else [].
Proof.
  revert c. induction w as [|a w IH]; intros [p s cs] Hne; [done|].
  destruct w as [|b w].
  - change (RLit (String a EmptyString)) with (RChar (Ascii.eqb a)).
    destruct s as [|x s]; [done|]. rewrite rmatch_char. simpl.
    destruct (Ascii.eqb a x) eqn:E; [|done].
    apply Ascii.eqb_eq in E as <-. done.
  - change (RLit (String a (String b w)))
      with (RSeq (RChar (Ascii.eqb a)) (RLit (String b w))).
    rewrite rmatch_seq. destruct s as [|x s]; [done|]. rewrite rmatch_char.
    cbn [startswith rest].
    destruct (Ascii.eqb a x) eqn:E; [|done].
    apply Ascii.eqb_eq in E as <-. cbn [flat_map andb].
    rewrite IH by done. cbn [rest prev caps]. rewrite app_nil_r. done.
Qed.

(** A line comment is matched where the text has two slashes, and it runs to
    the end of the line. *)
Lemma line_comment_match p s :
  match match_at re_line_comment p s with
  | Some m =>
      ∃ s', s = String "/" (String "/" s')
            ∧ String.length (group0 m) = S (S (eol_dist s'))
  | None => startswith "//" s = false
  end.
Proof.
  unfold match_at, re_line_comment, RSeqs.
  rewrite rmatch_seq, rmatch_lit by done. cbn [rest prev caps].
  destruct (startswith "//" s) eqn:E; [|done].
  apply startswith_drop in E.
  destruct s as [|a [|b s']]; try done. simpl in E. injection E as -> ->.
  cbn [flat_map last_char drop_str String.length]. rewrite app_nil_r, rmatch_seq.
  rewrite rmatch_star. cbn [rest].
  destruct (lazy_to_eol (String.length s') (Some "/"%char) s' [] (eol_dist_le s'))
    as [tl Htl].
  rewrite Htl. exists s'. split; [done|].
  unfold group0, consumed. cbn [m_start m_end rest]. rewrite length_drop_str.
  pose proof (eol_dist_le s').
  rewrite length_take_str; simpl; lia.
Qed.

(** [re.sub] of the line comments is [uncomment]. *)
Lemma sub_line_comment s :
  (∀ p, sub_from re_line_comment p s O = uncomment false s)
  ∧ (∀ p, sub_from re_line_comment p s (eol_dist s) = uncomment true s).
Proof.
  induction s as [|a s [IHcode IHcomment]].
  - split; intros p; simpl; [|done].
    pose proof (line_comment_match p EmptyString) as H.
    destruct (match_at re_line_comment p EmptyString); [|done].
    by destruct H as (? & ? & _).
  - assert (Hcomment : ∀ p, sub_from re_line_comment p (String a s)
                               (eol_dist (String a s))
                            = uncomment true (String a s)).
    { intros p. simpl. destruct (is_newline a) eqn:E.
      - simpl. pose proof (line_comment_match p (String a s)) as H.
        destruct (match_at re_line_comment p (String a s)).
        + destruct H as (s' & Hs & _). injection Hs as -> _. done.
        + by rewrite IHcode.
      - apply IHcomment. }
    split; [|exact Hcomment].
    intros p. simpl.
    pose proof (line_comment_match p (String a s)) as H.
    destruct (match_at re_line_comment p (String a s)) as [m|].
    + destruct H as (s' & Hs & Hlen). injection Hs as -> ->.
      rewrite Hlen. simpl.
      specialize (IHcomment (Some "/"%char)). simpl in IHcomment.
      exact IHcomment.
    + simpl in H. unfold is_slash.
      destruct (Ascii.eqb a "/") eqn:Ea.
      * apply Ascii.eqb_eq in Ea as ->. simpl in H. rewrite H. simpl.
        by rewrite IHcode.
      * simpl. by rewrite IHcode.
Qed.

Lemma re_sub_line_comment s :
  re_sub_empty re_line_comment s = uncomment false s.
Proof. apply sub_line_comment. Qed.

(** A text without the opening of a block comment has no block comment. *)
Lemma block_comment_match p s :
  startswith "/*" s = false → match_at re_block_comment p s = None.
Proof.
  intros H. unfold match_at, re_block_comment, RSeqs.
  rewrite rmatch_seq, rmatch_lit by done. cbn [rest]. by rewrite H.
Qed.

Lemma re_sub_block_comment_none s p :
  contains "/*" s = false → sub_from re_block_comment p s O = s.
Proof.
  revert p. induction s as [|a s IH]; intros p H.
  - cbn [sub_from]. by rewrite block_comment_match.
  - simpl in H. apply orb_false_iff in H as [H1 H2].
    cbn [sub_from]. rewrite (block_comment_match p (String a s)) by exact H1.
    by rewrite IH.
Qed.

End Comments.

(** ** The matcher on words *)

Section Words.
Import VerilogSyntaxChecker.

#[local] Arguments rmatch : simpl never.
#[local] Arguments star_loop : simpl never.

Lemma take_drop_run s : s = take_run s +:+ drop_run s.
Proof.
  induction s as [|a s IH]; simpl; [done|].
  destruct (is_word a); simpl; [by rewrite <- IH|done].
Qed.

Lemma take_run_word s : all_chars is_word (take_run s) = true.
Proof.
  induction s as [|a s IH]; simpl; [done|].
  destruct (is_word a) eqn:E; simpl; [by rewrite E|done].
Qed.

Lemma drop_run_starts s : starts_word (drop_run s) = false.
Proof.
  induction s as [|a s IH]; simpl; [done|].
  destruct (is_word a) eqn:E; [done|]. unfold starts_word. simpl. exact E.
Qed.

Lemma drop_run_id s : starts_word s = false → drop_run s = s.
Proof.
  destruct s as [|a s]; [done|]. unfold starts_word. simpl. by intros ->.
Qed.

Lemma drop_run_app w s :
  all_chars is_word w = true → starts_word s = false → drop_run (w +:+ s) = s.
Proof.
  intros Hw Hs. induction w as [|a w IH]; simpl in *.
  - by apply drop_run_id.
  - apply andb_prop in Hw as [Ha Hw]. rewrite Ha. by apply IH.
Qed.

Lemma starts_word_app w s :
  w ≠ EmptyString → starts_word (w +:+ s) = starts_word w.
Proof. by destruct w. Qed.

Lemma twords_cons a s :
  twords (String a s)
  = if is_word a then
      if starts_word s then
        match twords s with
        | (w, next) :: l => (String a w, next) :: l
        | [] => []
        end
      else (String a EmptyString, first_char s) :: twords s
    else twords s.
Proof. reflexivity. Qed.

(** The words of a text that starts with a word. *)
Lemma twords_word w s :
  w ≠ EmptyString → all_chars is_word w = true → starts_word s = false →
  twords (w +:+ s) = (w, first_char s) :: twords s.
Proof.
  intros Hne Hw Hs. induction w as [|a w IH]; [done|].
  simpl in Hw. apply andb_prop in Hw as [Ha Hw].
  change (String a w +:+ s) with (String a (w +:+ s)).
  rewrite twords_cons, Ha.
  destruct w as [|b w].
  - change (EmptyString +:+ s) with s. by rewrite Hs.
  - rewrite IH by done.
    assert (Hb : starts_word (String b w +:+ s) = true).
    { simpl in Hw. apply andb_prop in Hw as [Hb _]. exact Hb. }
    by rewrite Hb.
Qed.

(** Characters that are not word characters add no word. *)
Lemma twords_not_word x s :
  all_chars not_word x = true → twords (x +:+ s) = twords s.
Proof.
  induction x as [|a x IH]; simpl; [done|].
  intros H. apply andb_prop in H as [Ha Hx].
  unfold not_word in Ha. apply negb_true_iff in Ha. rewrite Ha. by apply IH.
Qed.

Lemma last_char_app p a b : last_char p (a +:+ b) = last_char (last_char p a) b.
Proof. revert p. induction a as [|x a IH]; intros p; simpl; [done|apply IH]. Qed.

Lemma last_char_word p w :
  w ≠ EmptyString → all_chars is_word w = true → word_opt (last_char p w) = true.
Proof.
  revert p. induction w as [|a w IH]; intros p Hne Hw; [done|].
  simpl in *. apply andb_prop in Hw as [Ha Hw].
  destruct w as [|b w]; [exact Ha|]. by apply IH.
Qed.

Lemma last_char_not_word p x :
  x ≠ EmptyString → all_chars not_word x = true → word_opt (last_char p x) = false.
Proof.
  revert p. induction x as [|a x IH]; intros p Hne Hx; [done|].
  simpl in *. apply andb_prop in Hx as [Ha Hx].
  destruct x as [|b x]; [|by apply IH].
  simpl. unfold not_word in Ha. by apply negb_true_iff in Ha.
Qed.

Lemma take_drop_str k s : s = take_str k s +:+ drop_str k s.
Proof.
  revert s. induction k as [|k IH]; intros [|a s]; simpl; try done.
  by rewrite <- IH.
Qed.

(** The step of [finditer] at a position without a match. *)
Lemma finditer_no_match r p a s :
  match_at r p (String a s) = None →
  finditer_from r p (String a s) O = finditer_from r (Some a) s O.
Proof. intros H. cbn [finditer_from]. by rewrite H. Qed.

Lemma twords_after_step p a s :
  word_opt p = true ∨ is_word a = false →
  twords_after p (String a s) = twords_after (Some a) s.
Proof.
  unfold twords_after. cbn [drop_run word_opt]. rewrite twords_cons.
  intros [Hp|Ha].
  - rewrite Hp. destruct (is_word a) eqn:E; [done|]. by rewrite twords_cons, E.
  - rewrite Ha. destruct (word_opt p); [|done]. by rewrite twords_cons, Ha.
Qed.

Lemma twords_after_nil p : twords_after p EmptyString = [].
Proof. unfold twords_after. by destruct (word_opt p). Qed.

(** The matches of a word pattern are the words that satisfy its test. *)
Theorem word_pattern_count r T :
  word_pattern r T →
  ∀ s p, length (finditer_from r p s O) = length (List.filter T (twords_after p s)).
Proof.
  intros [Hnone Hword] s.
  remember (String.length s) as n eqn:Hn.
  revert s Hn. induction (lt_wf n) as [n _ IH]. intros s Hn p.
  destruct (word_opt p) eqn:Ep.
  - (* inside a word *)
    destruct s as [|a s].
    + cbn [finditer_from]. rewrite Hnone by auto. by rewrite twords_after_nil.
    + rewrite finditer_no_match by (apply Hnone; auto).
      rewrite twords_after_step by auto.
      eapply IH; [|reflexivity]. subst n. simpl. lia.
  - destruct (starts_word s) eqn:Es.
    + (* at the start of a word *)
      destruct s as [|a s]; [done|].
      pose proof (take_drop_run (String a s)) as Hsplit.
      pose proof (take_run_word (String a s)) as Hw.
      pose proof (drop_run_starts (String a s)) as Hrest.
      assert (Ha : is_word a = true) by exact Es.
      simpl in Hsplit, Hw, Hrest. rewrite Ha in Hsplit, Hw, Hrest.
      set (w' := take_run s) in *. set (rest := drop_run s) in *.
      simpl in Hw. apply andb_prop in Hw as [_ Hw'].
      injection Hsplit as Hs.
      specialize (Hword p (String a w') rest Ep ltac:(done)
                        ltac:(simpl; by rewrite Ha, Hw') Hrest).
      unfold twords_after at 1. rewrite Ep.
      replace (String a s) with (String a w' +:+ rest) by (simpl; by rewrite <- Hs).
      rewrite twords_word by (try done; simpl; by rewrite Ha, Hw').
      change (String a w' +:+ rest) with (String a (w' +:+ rest)) in *.
      cbn [finditer_from].
      destruct (match_at r p (String a (w' +:+ rest))) as [m|] eqn:Em.
      * destruct Hword as (HT & k & Hlen & Hk & Hx).
        cbn [List.filter]. rewrite HT. cbn [length]. f_equal.
        rewrite Hlen. cbn [String.length Nat.add Nat.sub]. rewrite Nat.sub_0_r.
        rewrite (take_drop_str k rest) at 1.
        rewrite <- str_app_assoc.
        replace (String.length w' + k)%nat
          with (String.length (w' +:+ take_str k rest))
          by (rewrite length_app_str, length_take_str; lia).
        rewrite finditer_skip, last_char_app.
        rewrite (IH (String.length (drop_str k rest))); [| |reflexivity].
        2:{ subst n. rewrite Hs. simpl. rewrite length_app_str, length_drop_str. lia. }
        f_equal. f_equal. unfold twords_after.
        destruct k as [|k].
        -- replace (drop_str 0 rest) with rest by (by destruct rest).
           replace (take_str 0 rest) with EmptyString by (by destruct rest).
           cbn [last_char].
           destruct w' as [|b w'].
           ++ cbn [last_char word_opt]. rewrite Ha. by rewrite drop_run_id.
           ++ rewrite (last_char_word (Some a) (String b w')) by done.
              by rewrite drop_run_id.
        -- assert (Hne : take_str (S k) rest ≠ EmptyString).
           { destruct rest; [simpl in Hk; lia|done]. }
           rewrite last_char_not_word by done.
           rewrite (take_drop_str (S k) rest) at 2.
           by rewrite twords_not_word.
      * cbn [List.filter]. rewrite Hword.
        rewrite (IH (String.length (w' +:+ rest)));
          [| subst n; simpl; rewrite <- Hs; lia | reflexivity].
        f_equal. f_equal. unfold twords_after. cbn [word_opt]. rewrite Ha.
        by rewrite drop_run_app.
    + (* between words *)
      destruct s as [|a s].
      * cbn [finditer_from]. rewrite Hnone by auto. by rewrite twords_after_nil.
      * rewrite finditer_no_match by (apply Hnone; auto).
        rewrite twords_after_step by (right; exact Es).
        eapply IH; [|reflexivity]. subst n. simpl. lia.
Qed.

(** *** The three kinds of word patterns of the checker *)

Lemma group0_length c e :
  (String.length (rest e) <= String.length (rest c))%nat →
  String.length (group0 (Matched c e))
  = (String.length (rest c) - String.length (rest e))%nat.
Proof.
  intros H. unfold group0, consumed. cbn [m_start m_end].
  apply length_take_str. lia.
Qed.

Lemma flat_map_one {A B : Type} (f : A → list B) (x : A) : flat_map f [x] = f x.
Proof. simpl. apply app_nil_r. Qed.

Lemma wordb_test c :
  xorb (word_before c) (word_after c) = xorb (word_opt (prev c)) (starts_word (rest c)).
Proof. destruct c as [p [|a s] cs]; reflexivity. Qed.

(** A pattern [\bw...] matches nowhere but at the start of a word. *)
Lemma word_start_only w X p s :
  starts_word w = true →
  word_opt p = true ∨ starts_word s = false →
  rmatch (RSeq RWordB (RSeq (RLit w) X)) (Cursor p s []) = [].
Proof.
  intros Hw H. rewrite rmatch_seq, rmatch_wordb.
  rewrite wordb_test. cbn [prev rest].
  destruct (word_opt p) eqn:Ep, (starts_word s) eqn:Es; cbn [xorb]; try done.
  - rewrite flat_map_one, rmatch_seq, rmatch_lit by (by destruct w).
    cbn [rest].
    destruct w as [|a w]; [done|]. destruct s as [|b s]; [done|].
    cbn [startswith].
    destruct (Ascii.eqb a b) eqn:E; [|done].
    apply Ascii.eqb_eq in E as <-.
    unfold starts_word in *. simpl in *. congruence.
  - by destruct H.
Qed.

(** At the start of a word it matches when the text starts with [w] and the
    rest of the pattern matches after it. *)
Lemma word_start_lit w X p s :
  w ≠ EmptyString → word_opt p = false → starts_word s = true →
  rmatch (RSeq RWordB (RSeq (RLit w) X)) (Cursor p s [])
  = if startswith w s
    then rmatch X (Cursor (last_char p w) (drop_str (String.length w) s) [])
    else [].
Proof.
  intros Hw Hp Hs. rewrite rmatch_seq, rmatch_wordb.
  rewrite wordb_test. cbn [prev rest].
  rewrite Hp, Hs. cbn [xorb].
  rewrite flat_map_one, rmatch_seq, rmatch_lit by done. cbn [rest prev caps].
  destruct (startswith w s); [|done]. apply flat_map_one.
Qed.

(** A prefix of word characters of a text is a prefix of its first word. *)
Lemma prefix_of_run w run s :
  all_chars is_word w = true → starts_word s = false →
  startswith w (run +:+ s) = true →
  ∃ run', run = w +:+ run'.
Proof.
  revert run. induction w as [|a w IH]; intros run Hw Hs H.
  - by exists run.
  - simpl in Hw. apply andb_prop in Hw as [Ha Hw].
    destruct run as [|b run].
    + change (EmptyString +:+ s) with s in H.
      destruct s as [|c s]; [done|]. simpl in H.
      apply andb_prop in H as [E _]. apply Ascii.eqb_eq in E as <-.
      unfold starts_word in Hs. simpl in Hs. congruence.
    + change (String b run +:+ s) with (String b (run +:+ s)) in H.
      simpl in H. apply andb_prop in H as [E H].
      apply Ascii.eqb_eq in E as <-.
      destruct (IH run Hw Hs H) as [run' ->]. by exists run'.
Qed.

Lemma drop_str_app w s : drop_str (String.length w) (w +:+ s) = s.
Proof. induction w as [|a w IH]; simpl; [by destruct s|exact IH]. Qed.

Lemma str_eqb_app_nonempty w x : x ≠ EmptyString → String.eqb (w +:+ x) w = false.
Proof.
  intros Hx. apply String.eqb_neq. intros H.
  assert (Hl : String.length (w +:+ x) = String.length w) by (by rewrite H).
  rewrite length_app_str in Hl. destruct x; [done|simpl in Hl; lia].
Qed.

Lemma starts_word_run run s :
  all_chars is_word run = true → starts_word s = false →
  starts_word (run +:+ s) = negb (String.eqb run EmptyString).
Proof.
  intros Hr Hs. destruct run as [|a run]; [exact Hs|].
  simpl in Hr. apply andb_prop in Hr as [Ha _]. exact Ha.
Qed.

Lemma all_chars_app P a b :
  all_chars P (a +:+ b) = all_chars P a && all_chars P b.
Proof.
  induction a as [|x a IH]; simpl; [done|]. by rewrite IH, andb_assoc.
Qed.

(** [\bkw\b] matches the words that are [kw]. *)
Lemma keyword_pattern kw :
  kw ≠ EmptyString → all_chars is_word kw = true →
  word_pattern (re_keyword kw) (is_kw kw).
Proof.
  intros Hne Hkw.
  assert (Hsw : starts_word kw = true).
  { destruct kw as [|a kw]; [done|]. simpl in Hkw.
    apply andb_prop in Hkw as [Ha _]. exact Ha. }
  split.
  - intros p s H. unfold match_at, re_keyword, RSeqs.
    by rewrite word_start_only.
  - intros p w s Hp Hw Hword Hs. unfold match_at, re_keyword, RSeqs.
    rewrite word_start_lit; [|done|done|].
    2:{ rewrite starts_word_run by done. by destruct w. }
    unfold is_kw. cbn [fst].
    destruct (startswith kw (w +:+ s)) eqn:E.
    + destruct (prefix_of_run kw w s Hkw Hs E) as [run' ->].
      rewrite str_app_assoc, drop_str_app, rmatch_wordb.
      rewrite wordb_test. cbn [prev rest].
      rewrite (last_char_word p kw) by done.
      rewrite all_chars_app in Hword. apply andb_prop in Hword as [_ Hrun'].
      rewrite starts_word_run by done.
      destruct run' as [|b run'].
      * cbn [String.eqb negb xorb]. rewrite str_app_nil_r, String.eqb_refl.
        split; [done|]. exists O.
        rewrite group0_length; cbn [rest]; rewrite !length_app_str; [|lia].
        split; [lia|]. split; [lia|]. by destruct s.
      * cbn [String.eqb negb xorb]. by apply str_eqb_app_nonempty.
    + apply String.eqb_neq. intros ->. by rewrite startswith_app in E.
Qed.

Lemma one_of_xz a : one_of "xz" a = Ascii.eqb a "x" || Ascii.eqb a "z".
Proof.
  unfold one_of. simpl.
  destruct (Ascii.eqb a "x"), (Ascii.eqb a "z"); reflexivity.
Qed.

Lemma rmatch_opt r c : rmatch (ROpt r) c = rmatch r c ++ [c].
Proof. reflexivity. Qed.

(** [\bcase[xz]?\b] matches the words case, casex and casez. *)
Lemma case_pattern : word_pattern re_case is_case_kw.
Proof.
  split.
  - intros p s H. unfold match_at, re_case, RSeqs.
    by rewrite word_start_only.
  - intros p w s Hp Hw Hword Hs. unfold match_at, re_case, RSeqs.
    rewrite word_start_lit; [|done|done|].
    2:{ rewrite starts_word_run by done. by destruct w. }
    unfold is_case_kw. cbn [fst].
    destruct (startswith "case" (w +:+ s)) eqn:E.
    + destruct (prefix_of_run "case" w s eq_refl Hs E) as [run' ->].
      rewrite str_app_assoc, drop_str_app, rmatch_seq, rmatch_opt.
      rewrite all_chars_app in Hword. apply andb_prop in Hword as [_ Hrun'].
      destruct run' as [|a run'].
      * change (EmptyString +:+ s) with s.
        assert (Hx : rmatch (RChar (one_of "xz")) (Cursor (last_char p "case") s []) = []).
        { destruct s as [|b s]; [done|]. rewrite rmatch_char, one_of_xz.
          unfold starts_word in Hs. simpl in Hs.
          destruct (Ascii.eqb b "x") eqn:Ex.
          { apply Ascii.eqb_eq in Ex as ->. done. }
          destruct (Ascii.eqb b "z") eqn:Ez; [|done].
          apply Ascii.eqb_eq in Ez as ->. done. }
        rewrite Hx. cbn [app]. rewrite flat_map_one, rmatch_wordb, wordb_test.
        cbn [prev rest last_char word_opt]. rewrite Hs.
        change (xorb (is_word "e") false) with true. cbv iota.
        split; [done|]. exists O.
        rewrite group0_length; cbn [rest]; [|simpl; lia].
        split; [simpl; lia|]. split; [lia|]. by destruct s.
      * simpl in Hrun'. apply andb_prop in Hrun' as [Ha Hrun'].
        change (String a run' +:+ s) with (String a (run' +:+ s)).
        rewrite rmatch_char, one_of_xz.
        assert (Hc1 : rmatch RWordB (Cursor (last_char p "case")
                                            (String a (run' +:+ s)) []) = []).
        { rewrite rmatch_wordb, wordb_test. cbn [prev rest last_char word_opt].
          unfold starts_word. cbn [first_char word_opt]. rewrite Ha. done. }
        destruct (Ascii.eqb a "x" || Ascii.eqb a "z") eqn:Exz.
        -- cbn [app flat_map]. rewrite Hc1, !app_nil_r.
           rewrite rmatch_wordb, wordb_test. cbn [prev rest word_opt].
           rewrite Ha, starts_word_run by done.
           destruct run' as [|b run'].
           ++ cbn [String.eqb negb xorb].
              split.
              { apply orb_prop in Exz as [Ex|Ez].
                - apply Ascii.eqb_eq in Ex as ->. done.
                - apply Ascii.eqb_eq in Ez as ->. done. }
              exists O. rewrite group0_length; cbn [rest]; [|simpl; lia].
              split; [simpl; lia|]. split; [lia|]. by destruct s.
           ++ cbn [String.eqb negb xorb]. simpl.
              by destruct (Ascii.eqb a "x"), (Ascii.eqb a "z").
        -- cbn [app flat_map]. rewrite Hc1. cbn [app].
           apply orb_false_iff in Exz as [Ex Ez]. simpl.
           by rewrite Ex, Ez.
    + apply orb_false_iff. split; [apply orb_false_iff; split|];
        apply String.eqb_neq; intros ->; done.
Qed.

Lemma space_not_word a : is_space a = true → is_word a = false.
Proof. destruct a as [[] [] [] [] [] [] [] []]; by vm_compute. Qed.

Lemma all_chars_impl (P Q : ascii → bool) s :
  (∀ a, P a = true → Q a = true) → all_chars P s = true → all_chars Q s = true.
Proof.
  intros HPQ. induction s as [|a s IH]; simpl; [done|].
  intros H. apply andb_prop in H as [Ha Hs]. by rewrite (HPQ a Ha), IH.
Qed.

(** A greedy star of a character class: its first match is found, and the
    characters that it covers belong to the class. *)
Lemma greedy_head P fuel p s cs :
  ∃ j tl,
    star_loop (rmatch (RChar P)) true fuel (Cursor p s cs)
    = Cursor (last_char p (take_str j s)) (drop_str j s) cs :: tl
    ∧ (j <= String.length s)%nat
    ∧ all_chars P (take_str j s) = true.
Proof.
  revert p s. induction fuel as [|fuel IH]; intros p s.
  - exists O, []. split; [|split]; [by destruct s|lia|by destruct s].
  - rewrite star_loop_step. cbv zeta.
    destruct s as [|a s].
    + rewrite rmatch_char_end. exists O, []. done.
    + rewrite rmatch_char. destruct (P a) eqn:Ea.
      * rewrite flat_map_one, progress_char.
        destruct (IH (Some a) s) as (j & tl & Heq & Hj & Hall).
        rewrite Heq. exists (S j), (tl ++ [Cursor p (String a s) cs]).
        split; [done|]. split; [simpl; lia|]. simpl. by rewrite Ea.
      * exists O, []. split; [done|]. split; [lia|done].
Qed.

(** [\bmodule\s+] matches the words module that white space follows. *)
Lemma module_pattern : word_pattern re_module is_module_kw.
Proof.
  split.
  - intros p s H. unfold match_at, re_module, RSeqs.
    by rewrite word_start_only.
  - intros p w s Hp Hw Hword Hs. unfold match_at, re_module, RSeqs.
    rewrite word_start_lit; [|done|done|].
    2:{ rewrite starts_word_run by done. by destruct w. }
    unfold is_module_kw. cbn [fst snd].
    destruct (startswith "module" (w +:+ s)) eqn:E.
    + destruct (prefix_of_run "module" w s eq_refl Hs E) as [run' ->].
      rewrite str_app_assoc, drop_str_app.
      unfold re_space_plus, RPlus. rewrite rmatch_seq.
      rewrite all_chars_app in Hword. apply andb_prop in Hword as [_ Hrun'].
      destruct run' as [|a run'].
      * change (EmptyString +:+ s) with s. rewrite str_app_nil_r.
        destruct s as [|b s]; [done|].
        rewrite rmatch_char. cbn [first_char String.eqb]. 
        change (String.eqb "module" "module") with true. cbn [andb].
        destruct (is_space b) eqn:Eb; [|done].
        rewrite flat_map_one, rmatch_star. cbn [rest].
        destruct (greedy_head is_space (String.length s) (Some b) s [])
          as (j & tl & Heq & Hj & Hall).
        rewrite Heq. split; [done|]. exists (S j).
        rewrite group0_length; cbn [rest]; rewrite ?length_drop_str; [|simpl; lia].
        split; [simpl; lia|]. split; [simpl; lia|].
        simpl. unfold not_word at 1. rewrite (space_not_word b Eb). simpl.
        revert Hall. apply all_chars_impl. intros a Ha. unfold not_word.
        by rewrite (space_not_word a Ha).
      * simpl in Hrun'. apply andb_prop in Hrun' as [Ha Hrun'].
        change (String a run' +:+ s) with (String a (run' +:+ s)).
        rewrite rmatch_char.
        destruct (is_space a) eqn:Es'.
        { apply space_not_word in Es'. congruence. }
        cbn [flat_map]. by rewrite str_eqb_app_nonempty.
    + apply andb_false_iff. left.
      apply String.eqb_neq. intros ->. done.
Qed.

(** *** The counts of the checker as counts of words *)

Lemma count_of_word_pattern r T s :
  word_pattern r T → re_count r s = count_words T s.
Proof.
  intros H. unfold re_count, re_finditer, count_words.
  by rewrite (word_pattern_count r T H s None).
Qed.

Lemma count_keyword kw s :
  kw ≠ EmptyString → all_chars is_word kw = true →
  re_count (re_keyword kw) s = count_words (is_kw kw) s.
Proof. intros. by apply count_of_word_pattern, keyword_pattern. Qed.

Lemma count_case s : re_count re_case s = count_words is_case_kw s.
Proof. apply count_of_word_pattern, case_pattern. Qed.

Lemma count_module s : re_count re_module s = count_words is_module_kw s.
Proof. apply count_of_word_pattern, module_pattern. Qed.

End Words.

(** ** The balance checks and the search for a module *)

Section Balance.
Import VerilogSyntaxChecker.

#[local] Arguments rmatch : simpl never.
#[local] Arguments star_loop : simpl never.

(** A text whose balance never falls below zero gives no message about a
    closing character, whatever its lines are. *)
Lemma scan_lines_depth opening closing unmatched s line_num d d' :
  opening ≠ newline → closing ≠ newline →
  depth opening closing s d = Some d' →
  scan_lines opening closing unmatched (split_on newline s) line_num d = (d', []).
Proof.
  intros Ho Hc. revert line_num d.
  induction s as [|a s IH]; intros line_num d H.
  - simpl in *. by injection H as ->.
  - cbn [split_on]. destruct (Ascii.eqb a newline) eqn:En.
    + apply Ascii.eqb_eq in En as ->.
      cbn [depth] in H.
      destruct (Ascii.eqb newline opening) eqn:E1.
      { apply Ascii.eqb_eq in E1. by destruct Ho. }
      destruct (Ascii.eqb newline closing) eqn:E2.
      { apply Ascii.eqb_eq in E2. by destruct Hc. }
      cbn [scan_lines scan_line]. by rewrite (IH (S line_num) d H).
    + cbn [depth] in H.
      assert (Hnext : ∀ d1, depth opening closing s d1 = Some d' →
                scan_lines opening closing unmatched
                  (match split_on newline s with
                   | p :: ps => String a p :: ps
                   | [] => [String a EmptyString]
                   end) line_num d
                = scan_lines opening closing unmatched (split_on newline s) line_num d1
                → scan_lines opening closing unmatched
                    (match split_on newline s with
                     | p :: ps => String a p :: ps
                     | [] => [String a EmptyString]
                     end) line_num d = (d', [])).
      { intros d1 Hd1 ->. by apply IH. }
      destruct (split_on newline s) as [|p ps] eqn:Esplit.
      { by destruct s as [|b s]; simpl in Esplit; try destruct (Ascii.eqb b newline);
          try destruct (split_on newline s). }
      destruct (Ascii.eqb a opening) eqn:E1.
      * apply (Hnext (d + 1) H). cbn [scan_lines scan_line]. by rewrite E1.
      * destruct (Ascii.eqb a closing) eqn:E2.
        -- destruct (d - 1 <? 0) eqn:Eneg; [done|].
           apply (Hnext (d - 1) H). cbn [scan_lines scan_line].
           by rewrite E1, E2, Eneg.
        -- apply (Hnext d H). cbn [scan_lines scan_line]. by rewrite E1, E2.
Qed.

Lemma check_balance_depth opening closing unmatched unclosed code :
  opening ≠ newline → closing ≠ newline →
  depth opening closing code 0 = Some 0 →
  check_balance opening closing unmatched unclosed code = [].
Proof.
  intros Ho Hc H. unfold check_balance.
  by rewrite (scan_lines_depth _ _ _ _ _ _ _ Ho Hc H).
Qed.

(** [re.search] finds a match when there is one at some position. *)
Lemma search_finds r a p s :
  is_Some (match_at r (last_char p a) s) → is_Some (search_from r p (a +:+ s)).
Proof.
  revert p. induction a as [|x a IH]; intros p H.
  - change (EmptyString +:+ s) with s. cbn [last_char] in H.
    destruct s; cbn [search_from]; destruct H as [m ->]; eauto.
  - change (String x a +:+ s) with (String x (a +:+ s)). cbn [search_from].
    destruct (match_at r p (String x (a +:+ s))); [eauto|].
    apply IH. exact H.
Qed.

(** [\bmodule\s+\w+] matches where the word module, a space and a word
    character follow a character that is not a word character. *)
Lemma module_decl_match p a s :
  word_opt p = false → is_word a = true →
  is_Some (match_at re_module_decl p ("module " +:+ String a s)).
Proof.
  intros Hp Ha. unfold match_at, re_module_decl, RSeqs.
  rewrite word_start_lit by done.
  change (startswith "module" ("module " +:+ String a s)) with true. cbv iota.
  change (drop_str (String.length "module") ("module " +:+ String a s))
    with (String " " (String a s)).
  rewrite rmatch_seq. unfold re_space_plus, RPlus at 1.
  rewrite rmatch_seq, rmatch_char.
  change (is_space " ") with true. cbv iota.
  rewrite flat_map_one, rmatch_star. cbn [rest String.length].
  rewrite star_loop_step. cbv zeta.
  rewrite rmatch_char.
  destruct (is_space a) eqn:Es; [apply space_not_word in Es; congruence|].
  simpl flat_map at 2. cbn [app]. rewrite flat_map_one.
  unfold re_word_plus, RPlus. rewrite rmatch_seq, rmatch_char, Ha, flat_map_one.
  rewrite rmatch_star. cbn [rest].
  destruct (greedy_head is_word (String.length s) (Some a) s [])
    as (j & tl & -> & _). eauto.
Qed.

End Balance.

(** ** Words of a concatenation *)

Section WordsOfTexts.

Lemma last_char_nonempty p q s : s ≠ EmptyString → last_char p s = last_char q s.
Proof. by destruct s. Qed.

Lemma twords_starts s : starts_word s = true → twords s ≠ [].
Proof.
  induction s as [|a s IH]; [done|].
  unfold starts_word. cbn [first_char word_opt]. intros Ha.
  rewrite twords_cons, Ha.
  destruct (starts_word s) eqn:Es; [|done].
  specialize (IH eq_refl). by destruct (twords s) as [|[w nx] l].
Qed.

Lemma closed_cons a s : closed (String a s) = true →
  (s = EmptyString ∧ is_word a = false) ∨ (s ≠ EmptyString ∧ closed s = true).
Proof.
  unfold closed. cbn [last_char]. destruct s as [|b s].
  - cbn [last_char word_opt]. intros H. apply negb_true_iff in H. by left.
  - intros H. right. split; [done|exact H].
Qed.

Lemma first_char_app a b : a ≠ EmptyString → first_char (a +:+ b) = first_char a.
Proof. by destruct a. Qed.

(** After a closed text the words start anew. *)
Lemma twords_app_closed a b :
  closed a = true → twords (a +:+ b) = twords a ++ twords b.
Proof.
  induction a as [|x a IH]; intros Hc; [done|].
  change (String x a +:+ b) with (String x (a +:+ b)).
  rewrite !twords_cons.
  destruct (closed_cons x a Hc) as [[-> Hx]|[Hne Ha]].
  - by rewrite Hx.
  - specialize (IH Ha).
    destruct (is_word x); [|exact IH].
    unfold starts_word. rewrite first_char_app by done.
    fold (starts_word a). rewrite IH.
    destruct (starts_word a) eqn:Es; [|done].
    pose proof (twords_starts a Es) as Hn.
    by destruct (twords a) as [|[w nx] l].
Qed.

(** Before a text that does not start with a word character the words end. *)
Lemma words_app_opened a b :
  starts_word b = false → words (a +:+ b) = words a ++ words b.
Proof.
  intros Hb. unfold words. induction a as [|x a IH]; [done|].
  change (String x a +:+ b) with (String x (a +:+ b)).
  rewrite !twords_cons.
  destruct (is_word x); [|exact IH].
  destruct a as [|y a].
  - change (EmptyString +:+ b) with b. rewrite Hb.
    unfold starts_word. cbn [first_char word_opt twords map fst app]. done.
  - unfold starts_word. rewrite first_char_app by done.
    fold (starts_word (String y a)).
    destruct (starts_word (String y a)) eqn:Es.
    + pose proof (twords_starts _ Es) as Hn.
      destruct (twords (String y a)) as [|[w nx] l]; [done|].
      destruct (twords (String y a +:+ b)) as [|[w' nx'] l']; [done|].
      cbn [map fst app] in *. injection IH as -> ->. done.
    + cbn [map fst app]. by rewrite IH.
Qed.

Lemma count_kw_app_closed kw a b :
  closed a = true → count_kw kw (a +:+ b) = (count_kw kw a + count_kw kw b)%nat.
Proof.
  intros H. unfold count_kw, words.
  by rewrite twords_app_closed, map_app, List.filter_app, length_app.
Qed.

Lemma count_kw_app_opened kw a b :
  starts_word b = false → count_kw kw (a +:+ b) = (count_kw kw a + count_kw kw b)%nat.
Proof.
  intros H. unfold count_kw.
  by rewrite words_app_opened, List.filter_app, length_app.
Qed.

Lemma count_words_app_closed T a b :
  closed a = true → count_words T (a +:+ b) = (count_words T a + count_words T b)%nat.
Proof.
  intros H. unfold count_words.
  by rewrite twords_app_closed, List.filter_app, length_app.
Qed.

(** The counts of the word tests through the counts of single words. *)
Lemma count_words_kw kw s : count_words (is_kw kw) s = count_kw kw s.
Proof.
  unfold count_words, count_kw, words.
  induction (twords s) as [|[w nx] l IH]; [done|].
  cbn [List.filter map fst]. unfold is_kw at 1. cbn [fst].
  destruct (String.eqb w kw); cbn [length]; by rewrite IH.
Qed.

Lemma count_words_case s :
  count_kw "case" s = O → count_kw "casex" s = O → count_kw "casez" s = O →
  count_words is_case_kw s = O.
Proof.
  unfold count_words, count_kw, words.
  induction (twords s) as [|[w nx] l IH]; [done|].
  cbn [List.filter map fst]. unfold is_case_kw at 1. cbn [fst].
  destruct (String.eqb w "case"); [done|].
  destruct (String.eqb w "casex"); [done|].
  destruct (String.eqb w "casez"); [done|]. exact IH.
Qed.

Lemma count_words_module_le s :
  (count_words is_module_kw s <= count_kw "module" s)%nat.
Proof.
  unfold count_words, count_kw, words.
  induction (twords s) as [|[w nx] l IH]; [done|].
  cbn [List.filter map fst]. unfold is_module_kw at 1. cbn [fst snd].
  destruct (String.eqb w "module"); cbn [andb length].
  - destruct (match nx with Some a => is_space a | None => false end);
      cbn [length]; lia.
  - exact IH.
Qed.

End WordsOfTexts.

(** ** Names, values and numbers in a text *)

Section Symbols.

Lemma word_harmless a : is_word a = true → harmless a = true.
Proof. destruct a as [[] [] [] [] [] [] [] []]; by vm_compute. Qed.

Lemma harmless_not_slash a : harmless a = true → is_slash a = false.
Proof. destruct a as [[] [] [] [] [] [] [] []]; by vm_compute. Qed.

Lemma word_not_newline a : is_word a = true → is_newline a = false.
Proof. destruct a as [[] [] [] [] [] [] [] []]; by vm_compute. Qed.

Lemma digitish_harmless a : digitish a = true → harmless a = true.
Proof. destruct a as [[] [] [] [] [] [] [] []]; by vm_compute. Qed.

Lemma digitish_not_newline a : digitish a = true → is_newline a = false.
Proof. destruct a as [[] [] [] [] [] [] [] []]; by vm_compute. Qed.

Lemma digitish_word_digit a : digitish a = true → implb (is_word a) (is_digit a) = true.
Proof. destruct a as [[] [] [] [] [] [] [] []]; by vm_compute. Qed.

Lemma pretty_N_char_digit x : is_digit (pretty_N_char x) = true.
Proof. unfold pretty_N_char. by repeat case_match. Qed.

Lemma pretty_N_go_digits x s :
  all_chars digitish s = true → all_chars digitish (pretty_N_go x s) = true.
Proof.
  revert s. induction (N.lt_wf_0 x) as [x _ IH]. intros s Hs.
  destruct (decide (0 < x)%N) as [Hx|Hx].
  - rewrite pretty_N_go_step by done. apply IH.
    + by apply N.div_lt.
    + simpl. rewrite Hs. unfold digitish. by rewrite pretty_N_char_digit.
  - assert (x = 0%N) as -> by lia. by rewrite pretty_N_go_0.
Qed.

Lemma str_of_Z_digits z : all_chars digitish (str_of_Z z) = true.
Proof.
  unfold str_of_Z, pretty, pretty_Z.
  assert (HN : ∀ x : N, all_chars digitish (pretty x) = true).
  { intros x. unfold pretty, pretty_N. case_decide; [done|].
    by apply pretty_N_go_digits. }
  destruct z as [|x|x]; [done|apply HN|].
  change (all_chars digitish (String "-" (pretty (Npos x))) = true).
  simpl. apply HN.
Qed.

Lemma all_chars_ext (P Q : ascii → bool) s :
  (∀ a, P a = true → Q a = true) → all_chars P s = true → all_chars Q s = true.
Proof. apply all_chars_impl. Qed.

(** The words of a text inherit what holds of its word characters. *)
Lemma twords_all (P : ascii → bool) s :
  all_chars (λ a, implb (is_word a) (P a)) s = true →
  Forall (λ t, all_chars P t.1 = true) (twords s).
Proof.
  induction s as [|a s IH]; [constructor|].
  cbn [all_chars]. intros H. apply andb_prop in H as [Ha Hs].
  specialize (IH Hs). rewrite twords_cons.
  destruct (is_word a) eqn:Ew; [|exact IH]. simpl in Ha.
  destruct (starts_word s).
  - destruct (twords s) as [|[w nx] l]; [constructor|].
    inversion IH as [|? ? Hw Hl]; subst. constructor; [|exact Hl].
    simpl in *. by rewrite Ha, Hw.
  - constructor; [|exact IH]. simpl. by rewrite Ha.
Qed.

(** None of the counted words is made of digits only. *)
Lemma keyword_not_digits kw :
  named kw keywords = true → all_chars is_digit kw = false.
Proof.
  intros H. apply named_elem in H.
  repeat (apply elem_of_cons in H as [->|H]; [done|]).
  by apply elem_of_nil in H.
Qed.

Lemma count_kw_zero kw s :
  Forall (λ w, String.eqb w kw = false) (words s) → count_kw kw s = O.
Proof.
  unfold count_kw. induction 1 as [|w l Hw _ IH]; [done|].
  cbn [List.filter]. by rewrite Hw.
Qed.

Lemma count_kw_number kw z :
  named kw keywords = true → count_kw kw (str_of_Z z) = O.
Proof.
  intros Hkw. apply count_kw_zero. unfold words. apply Forall_map.
  eapply Forall_impl.
  - apply (twords_all is_digit).
    eapply all_chars_ext; [apply digitish_word_digit|apply str_of_Z_digits].
  - intros [w nx] Hw. simpl in *. apply String.eqb_neq. intros ->.
    by rewrite (keyword_not_digits kw Hkw) in Hw.
Qed.

Lemma words_of_word w :
  all_chars is_word w = true →
  words w = match w with EmptyString => [] | _ => [w] end.
Proof.
  intros Hw. destruct w as [|a w]; [done|].
  unfold words.
  replace (twords (String a w)) with (twords (String a w +:+ EmptyString))
    by (by rewrite str_app_nil_r).
  by rewrite twords_word.
Qed.

Lemma count_kw_name kw w :
  named kw keywords = true → plain_name w = true → count_kw kw w = O.
Proof.
  intros Hkw Hw. unfold plain_name in Hw. apply andb_prop in Hw as [Hall Hnot].
  apply count_kw_zero. rewrite words_of_word by done.
  destruct w as [|a w]; [constructor|].
  constructor; [|constructor]. apply String.eqb_neq. intros E.
  rewrite E, Hkw in Hnot. done.
Qed.

Lemma count_kw_value kw v :
  named kw keywords = true → plain_value v = true → count_kw kw v = O.
Proof.
  intros Hkw Hv. unfold plain_value in Hv. apply andb_prop in Hv as [_ Hall].
  apply count_kw_zero. rewrite forallb_forall in Hall.
  apply Forall_forall. intros w Hw. apply list_elem_of_In in Hw.
  specialize (Hall w Hw). apply String.eqb_neq. intros E.
  rewrite E, Hkw in Hall. done.
Qed.

Lemma symbolic_harmless a :
  atom_ok a = true → symbolic a = true → all_chars harmless (text_of a) = true.
Proof.
  destruct a as [s|s|s|z]; simpl; intros Hok Hs; try done.
  - unfold plain_name in Hok. apply andb_prop in Hok as [Hall _].
    eapply all_chars_ext; [apply word_harmless|exact Hall].
  - unfold plain_value in Hok. by apply andb_prop in Hok as [Hall _].
  - eapply all_chars_ext; [apply digitish_harmless|apply str_of_Z_digits].
Qed.

Lemma symbolic_count kw a :
  named kw keywords = true → atom_ok a = true → symbolic a = true →
  count_kw kw (text_of a) = O.
Proof.
  destruct a as [s|s|s|z]; simpl; intros Hkw Hok Hs; try done.
  - by apply count_kw_name.
  - by apply count_kw_value.
  - by apply count_kw_number.
Qed.

End Symbols.

(** ** The scans of a fragment *)

Section Fragments.

Lemma render_cons a l : render (a :: l) = text_of a +:+ render l.
Proof. reflexivity. Qed.

Lemma render_app l1 l2 : render (l1 ++ l2) = render l1 +:+ render l2.
Proof. unfold render. by rewrite map_app, concat_str_app. Qed.

(** *** Words *)

Lemma starts_word_opening s X : opening s = true → starts_word (s +:+ X) = false.
Proof.
  unfold opening. intros H. apply andb_prop in H as [Hne Hs].
  destruct s as [|a s]; [done|]. by apply negb_true_iff in Hs.
Qed.

Lemma opened_next_starts tail_open l X :
  opened_next tail_open l = true →
  (tail_open = true → starts_word X = false) →
  starts_word (render l +:+ X) = false.
Proof.
  destruct l as [|[s|s|s|z] l]; simpl; intros H HX; try done.
  - by apply HX.
  - rewrite render_cons, str_app_assoc. by apply starts_word_opening.
Qed.

(** The words of a fragment that are counted are those of its fixed
    texts. *)
Theorem count_kw_render kw tail_open l X :
  named kw keywords = true →
  forallb atom_ok l = true → junctions tail_open l = true →
  (tail_open = true → starts_word X = false) →
  count_kw kw (render l +:+ X) = (lit_count kw l + count_kw kw X)%nat.
Proof.
  intros Hkw Hok Hj HX. induction l as [|a l IH]; [done|].
  cbn [forallb] in Hok. apply andb_prop in Hok as [Ha Hok].
  rewrite render_cons, str_app_assoc.
  assert (Hsym : symbolic a = true → opened_next tail_open l = true →
                 junctions tail_open l = true →
                 count_kw kw (text_of a +:+ render l +:+ X)
                 = (lit_count kw l + count_kw kw X)%nat).
  { intros Hs Hnext Hj'.
    rewrite count_kw_app_opened by (by eapply opened_next_starts).
    rewrite symbolic_count by done. by rewrite IH. }
  destruct a as [s|s|s|z]; cbn [junctions] in Hj; apply andb_prop in Hj as [Hhere Hj];
    cbn [lit_count]; try (by apply Hsym).
  cbn [text_of]. rewrite <- Nat.add_assoc, <- IH by done.
  apply orb_prop in Hhere as [Hc|Hnext].
  - by apply count_kw_app_closed.
  - apply count_kw_app_opened. by eapply opened_next_starts.
Qed.

(** *** Balance *)

Lemma depth_profile opening closing s X d :
  0 <= d + (profile opening closing s).2 →
  depth opening closing (s +:+ X) d = depth opening closing X (d + (profile opening closing s).1).
Proof.
  revert d. induction s as [|a s IH]; intros d H.
  - simpl. by rewrite Z.add_0_r.
  - change (String a s +:+ X) with (String a (s +:+ X)).
    cbn [depth profile] in *.
    destruct (profile opening closing s) as [net low]. simpl in IH.
    destruct (Ascii.eqb a opening).
    + simpl in *. rewrite IH by lia. f_equal. lia.
    + destruct (Ascii.eqb a closing).
      * simpl in *. destruct (Z.ltb_spec (d - 1) 0); [lia|].
        rewrite IH by lia. f_equal. lia.
      * simpl in *. by apply IH.
Qed.

Lemma depth_harmless opening closing s X d :
  harmless opening = false → harmless closing = false →
  all_chars harmless s = true →
  depth opening closing (s +:+ X) d = depth opening closing X d.
Proof.
  intros Ho Hc. induction s as [|a s IH]; [done|].
  simpl. intros H. apply andb_prop in H as [Ha Hs].
  change (String a s +:+ X) with (String a (s +:+ X)). cbn [depth].
  destruct (Ascii.eqb a opening) eqn:E1.
  { apply Ascii.eqb_eq in E1. congruence. }
  destruct (Ascii.eqb a closing) eqn:E2; [|by apply IH].
  apply Ascii.eqb_eq in E2. congruence.
Qed.

(** The balance over a fragment is the one over its fixed texts. *)
Theorem depth_render opening closing l X d :
  harmless opening = false → harmless closing = false →
  forallb atom_ok l = true →
  0 <= d + (aprofile opening closing l).2 →
  depth opening closing (render l +:+ X) d
  = depth opening closing X (d + (aprofile opening closing l).1).
Proof.
  intros Ho Hc Hok. revert d. induction l as [|a l IH]; intros d H.
  - simpl. by rewrite Z.add_0_r.
  - cbn [forallb] in Hok. apply andb_prop in Hok as [Ha Hok].
    specialize (IH Hok).
    rewrite render_cons, str_app_assoc.
    assert (Hsym : symbolic a = true →
              0 <= d + (aprofile opening closing l).2 →
              depth opening closing (text_of a +:+ render l +:+ X) d
              = depth opening closing X (d + (aprofile opening closing l).1)).
    { intros Hs Hd. rewrite depth_harmless by (by try apply symbolic_harmless).
      by apply IH. }
    destruct a as [s|s|s|z]; try (by apply Hsym).
    cbn [aprofile text_of] in *.
    destruct (profile opening closing s) as [n1 l1] eqn:Ep.
    destruct (aprofile opening closing l) as [n2 l2] eqn:Ea.
    simpl in *.
    rewrite depth_profile; rewrite Ep; simpl; [|lia].
    rewrite IH by (by try lia). f_equal. lia.
Qed.

(** *** Comments *)

Lemma lit_run_ok st s out st' R :
  lit_run st s = Some (out, st') →
  uncomment st (s +:+ R) = out +:+ uncomment st' R.
Proof.
  revert st out. induction s as [|a s IH]; intros st out H.
  - simpl in H. by injection H as <- <-.
  - assert (Hcons : ∀ st1, (λ r : string * bool, (String a r.1, r.2)) <$> lit_run st1 s
                           = Some (out, st') →
              String a (uncomment st1 (s +:+ R)) = out +:+ uncomment st' R).
    { intros st1 H1. destruct (lit_run st1 s) as [[o st2]|] eqn:E; [|done].
      injection H1 as <- <-. cbn [fst].
      change (String a o +:+ uncomment st2 R) with (String a (o +:+ uncomment st2 R)).
      f_equal. by apply IH. }
    change (String a s +:+ R) with (String a (s +:+ R)).
    cbn [lit_run uncomment] in *.
    destruct st.
    + destruct (is_newline a); [by apply Hcons|by apply IH].
    + destruct (is_slash a) eqn:Ea; cbn [andb]; [|by apply Hcons].
      destruct s as [|b s]; [done|].
      change (String b s +:+ R) with (String b (s +:+ R)) in *.
      cbn [startswith]. unfold is_slash in H.
      rewrite (Ascii.eqb_sym "/" b), andb_true_r.
      destruct (Ascii.eqb b "/") eqn:Eb; [by apply IH|by apply Hcons].
Qed.

Lemma uncomment_keep s R :
  all_chars harmless s = true → uncomment false (s +:+ R) = s +:+ uncomment false R.
Proof.
  induction s as [|a s IH]; [done|].
  simpl. intros H. apply andb_prop in H as [Ha Hs].
  change (String a s +:+ R) with (String a (s +:+ R)). cbn [uncomment].
  rewrite (harmless_not_slash a Ha). cbn [andb]. by rewrite IH.
Qed.

Lemma uncomment_drop s R :
  all_chars (λ a, negb (is_newline a)) s = true →
  uncomment true (s +:+ R) = uncomment true R.
Proof.
  induction s as [|a s IH]; [done|].
  simpl. intros H. apply andb_prop in H as [Ha Hs].
  change (String a s +:+ R) with (String a (s +:+ R)). cbn [uncomment].
  apply negb_true_iff in Ha. rewrite Ha. by apply IH.
Qed.

Lemma symbolic_no_newline a :
  atom_ok a = true → symbolic a = true →
  match a with Text _ => True
  | _ => all_chars (λ c, negb (is_newline c)) (text_of a) = true end.
Proof.
  destruct a as [s|s|s|z]; simpl; intros Hok Hs; try done.
  - unfold plain_name in Hok. apply andb_prop in Hok as [Hall _].
    eapply all_chars_ext; [|exact Hall].
    intros c Hc. by rewrite (word_not_newline c Hc).
  - eapply all_chars_ext; [|apply str_of_Z_digits].
    intros c Hc. by rewrite (digitish_not_newline c Hc).
Qed.

(** The line comments of a fragment are removed from its fixed texts, and
    with them the names and numbers that stand inside a comment. *)
Theorem uncomment_render st l out st' R :
  forallb atom_ok l = true →
  atoms_run st l = Some (out, st') →
  uncomment st (render l +:+ R) = render out +:+ uncomment st' R.
Proof.
  intros Hok. revert st out. induction l as [|a l IH]; intros st out H.
  - simpl in H. by injection H as <- <-.
  - cbn [forallb] in Hok. apply andb_prop in Hok as [Ha Hok].
    specialize (IH Hok).
    rewrite render_cons, str_app_assoc.
    assert (Hkeep : symbolic a = true →
              ∀ o, atoms_run false l = Some (o, st') →
              uncomment false (text_of a +:+ render l +:+ R)
              = render (a :: o) +:+ uncomment st' R).
    { intros Hs o Ho. rewrite uncomment_keep by (by apply symbolic_harmless).
      rewrite render_cons, str_app_assoc. f_equal. by apply IH. }
    assert (Hdrop : symbolic a = true →
              all_chars (λ c, negb (is_newline c)) (text_of a) = true →
              atoms_run true l = Some (out, st') →
              uncomment true (text_of a +:+ render l +:+ R)
              = render out +:+ uncomment st' R).
    { intros Hs Hn Ho. rewrite uncomment_drop by done. by apply IH. }
    pose proof (symbolic_no_newline a Ha) as Hnl.
    destruct a as [s|s|s|z]; cbn [atoms_run] in H.
    + destruct (lit_run st s) as [[o st1]|] eqn:E; [|done].
      destruct (atoms_run st1 l) as [[o' st2]|] eqn:E'; [|done].
      simpl in H. injection H as <- <-.
      cbn [text_of]. rewrite (lit_run_ok _ _ _ _ _ E).
      rewrite render_cons, str_app_assoc. cbn [text_of]. f_equal. by apply IH.
    + destruct st.
      * by apply Hdrop; [|apply Hnl|].
      * destruct (atoms_run false l) as [[o' st2]|] eqn:E'; [|done].
        simpl in H. injection H as <- <-. by apply Hkeep.
    + destruct st; [done|].
      destruct (atoms_run false l) as [[o' st2]|] eqn:E'; [|done].
      simpl in H. injection H as <- <-. by apply Hkeep.
    + destruct st.
      * by apply Hdrop; [|apply Hnl|].
      * destruct (atoms_run false l) as [[o' st2]|] eqn:E'; [|done].
        simpl in H. injection H as <- <-. by apply Hkeep.
Qed.

(** A fragment without a slash in its fixed texts has no slash. *)
Theorem harmless_render l :
  forallb atom_ok l = true →
  forallb (λ a, match a with Lit s => all_chars harmless s | _ => true end) l = true →
  all_chars harmless (render l) = true.
Proof.
  intros Hok Hl. induction l as [|a l IH]; [done|].
  cbn [forallb] in *. apply andb_prop in Hok as [Ha Hok].
  apply andb_prop in Hl as [Hla Hl].
  rewrite render_cons, all_chars_app, IH by done. rewrite andb_true_r.
  destruct a as [s|s|s|z]; [exact Hla|..]; by apply symbolic_harmless.
Qed.

End Fragments.
(** ** The parts of a generated text *)

Section Parts.

Lemma atoms_run_app st l1 l2 o1 st1 o2 st2 :
  atoms_run st l1 = Some (o1, st1) → atoms_run st1 l2 = Some (o2, st2) →
  atoms_run st (l1 ++ l2) = Some (o1 ++ o2, st2).
Proof.
  intros H1 H2. revert st o1 H1.
  induction l1 as [|a l1 IH]; intros st o1 H1.
  - simpl in H1. by injection H1 as <- <-.
  - assert (Hkeep : ∀ b, (λ r : list atom * bool, (b :: r.1, r.2)) <$> atoms_run false l1
                         = Some (o1, st1) →
              (λ r : list atom * bool, (b :: r.1, r.2)) <$> atoms_run false (l1 ++ l2)
              = Some (o1 ++ o2, st2)).
    { intros b H. destruct (atoms_run false l1) as [[o st']|] eqn:E; [|done].
      injection H as <- <-. by rewrite (IH _ _ E). }
    destruct a as [s|s|s|z]; cbn [atoms_run app] in *.
    + destruct (lit_run st s) as [[o st']|]; [|done].
      destruct (atoms_run st' l1) as [[o' st'']|] eqn:E; [|done].
      injection H1 as <- <-. by rewrite (IH _ _ E).
    + destruct st; [by apply IH|by apply Hkeep].
    + destruct st; [done|by apply Hkeep].
    + destruct st; [by apply IH|by apply Hkeep].
Qed.

Lemma run_code_eq l o st : atoms_run false l = Some (o, st) → run_code l = o.
Proof. unfold run_code. by intros ->. Qed.

(** *** Comments *)

Lemma lit_run_keep s : all_chars no_slash s = true → lit_run false s = Some (s, false).
Proof.
  induction s as [|a s IH]; [done|].
  cbn [all_chars lit_run]. intros H. apply andb_prop in H as [Ha Hs].
  unfold no_slash in Ha. apply negb_true_iff in Ha. rewrite Ha.
  by rewrite IH.
Qed.

Lemma atoms_run_keep l : slash_free l = true → atoms_run false l = Some (l, false).
Proof.
  induction l as [|a l IH]; [done|].
  unfold slash_free. cbn [forallb]. intros H. apply andb_prop in H as [Ha Hl].
  specialize (IH Hl).
  destruct a as [s|s|s|z]; cbn [atoms_run]; rewrite ?lit_run_keep by done;
    by rewrite IH.
Qed.

Lemma slash_free_app l1 l2 : slash_free (l1 ++ l2) = slash_free l1 && slash_free l2.
Proof. apply forallb_app. Qed.

Lemma block_free_app l1 l2 : block_free (l1 ++ l2) = block_free l1 && block_free l2.
Proof. apply forallb_app. Qed.

Lemma no_slash_contains s : all_chars no_slash s = true → contains "/*" s = false.
Proof.
  induction s as [|a s IH]; [done|].
  cbn [all_chars]. intros H. apply andb_prop in H as [Ha Hs].
  cbn [contains startswith]. unfold no_slash, is_slash in Ha.
  apply negb_true_iff in Ha. rewrite (Ascii.eqb_sym "/" a), Ha. by apply IH.
Qed.

Lemma no_slash_last s p :
  all_chars no_slash s = true → ends_slash p = false →
  ends_slash (last_char p s) = false.
Proof.
  revert p. induction s as [|a s IH]; intros p H Hp; [done|].
  cbn [all_chars] in H. apply andb_prop in H as [Ha Hs].
  cbn [last_char]. apply IH; [done|]. by apply negb_true_iff in Ha.
Qed.

Lemma no_slash_tidy s : all_chars no_slash s = true → tidy s = true.
Proof.
  unfold tidy. intros H. rewrite (no_slash_contains s H).
  by rewrite no_slash_last.
Qed.

Lemma slash_free_block_free l : slash_free l = true → block_free l = true.
Proof.
  unfold slash_free, block_free. induction l as [|a l IH]; [done|].
  cbn [forallb]. intros H. apply andb_prop in H as [Ha Hl].
  rewrite IH, andb_true_r by done. destruct a; [by apply no_slash_tidy|done..].
Qed.

(** *** Words *)

Lemma opened_next_app t l1 l2 :
  opened_next t (l1 ++ l2) = opened_next (opened_next t l2) l1.
Proof. by destruct l1. Qed.

Lemma junctions_app t l1 l2 :
  junctions t (l1 ++ l2) = junctions (opened_next t l2) l1 && junctions t l2.
Proof.
  induction l1 as [|a l1 IH]; [done|].
  destruct a; cbn [app junctions]; rewrite IH, opened_next_app, andb_assoc; done.
Qed.

Lemma opened_next_mono t l : opened_next false l = true → opened_next t l = true.
Proof. by destruct l. Qed.

Lemma junctions_mono t l : junctions false l = true → junctions t l = true.
Proof.
  induction l as [|a l IH]; [done|].
  destruct a; cbn [junctions]; intros H; apply andb_prop in H as [H1 H2];
    rewrite IH by done; rewrite andb_true_r.
  - apply orb_prop in H1 as [->|H1]; [done|].
    by rewrite (opened_next_mono t l H1), orb_true_r.
  - by apply opened_next_mono.
  - by apply opened_next_mono.
  - by apply opened_next_mono.
Qed.

Lemma lit_count_app kw l1 l2 :
  lit_count kw (l1 ++ l2) = (lit_count kw l1 + lit_count kw l2)%nat.
Proof.
  induction l1 as [|a l1 IH]; [done|].
  destruct a; cbn [app lit_count]; rewrite IH; lia.
Qed.

(** *** Balance *)

Lemma profile_low opening closing s : (profile opening closing s).2 <= 0.
Proof.
  induction s as [|a s IH]; [done|].
  cbn [profile]. destruct (profile opening closing s) as [net low].
  destruct (Ascii.eqb a opening); [simpl; lia|].
  destruct (Ascii.eqb a closing); simpl in *; lia.
Qed.

Lemma aprofile_cons opening closing s l :
  aprofile opening closing (Lit s :: l)
  = join_profile (profile opening closing s) (aprofile opening closing l).
Proof.
  cbn [aprofile]. destruct (profile opening closing s), (aprofile opening closing l).
  done.
Qed.

Lemma aprofile_low opening closing l : (aprofile opening closing l).2 <= 0.
Proof.
  induction l as [|a l IH]; [done|].
  destruct a as [s|s|s|z]; try exact IH.
  rewrite aprofile_cons. unfold join_profile. cbn [snd].
  pose proof (profile_low opening closing s). lia.
Qed.

Lemma join_profile_assoc p q r :
  join_profile p (join_profile q r) = join_profile (join_profile p q) r.
Proof. unfold join_profile. simpl. f_equal; lia. Qed.

Lemma join_profile_start q : q.2 <= 0 → join_profile (0, 0) q = q.
Proof. destruct q as [n l]. unfold join_profile. simpl. intros H. f_equal. lia. Qed.

Lemma aprofile_app opening closing l1 l2 :
  aprofile opening closing (l1 ++ l2)
  = join_profile (aprofile opening closing l1) (aprofile opening closing l2).
Proof.
  induction l1 as [|a l1 IH].
  - cbn [app aprofile]. by rewrite join_profile_start by apply aprofile_low.
  - destruct a as [s|s|s|z]; try exact IH.
    cbn [app]. by rewrite !aprofile_cons, IH, join_profile_assoc.
Qed.

(** *** Summaries *)

Lemma zip_with_map {A} (f g : A → nat) (l : list A) :
  zip_with Nat.add (map f l) (map g l) = map (λ x, (f x + g x)%nat) l.
Proof. induction l as [|x l IH]; [done|]. simpl. by rewrite IH. Qed.

Lemma summarize_app l1 l2 :
  summarize (l1 ++ l2) = combine (summarize l1) (summarize l2).
Proof.
  unfold summarize, combine. cbn [fst snd].
  rewrite zip_with_map, !aprofile_app. do 2 f_equal.
  apply map_ext. intros kw. apply lit_count_app.
Qed.

Lemma combine_quiet l : combine quiet_summary (summarize l) = summarize l.
Proof.
  unfold summarize, combine, quiet_summary. cbn [fst snd].
  rewrite zip_with_map, !join_profile_start by apply aprofile_low. done.
Qed.

(** *** Parts *)

Lemma part_eq t P s s' : part t P s → s = s' → part t P s'.
Proof. by intros H <-. Qed.

Lemma part_app t P1 P2 s1 s2 :
  part (opened_next t (run_code P2)) P1 s1 → part t P2 s2 →
  part t (P1 ++ P2) (combine s1 s2).
Proof.
  intros (R1 & J1 & B1 & S1) (R2 & J2 & B2 & S2).
  pose proof (atoms_run_app _ _ _ _ _ _ _ R1 R2) as R.
  unfold part. rewrite (run_code_eq _ _ _ R).
  rewrite junctions_app, block_free_app, summarize_app, J1, J2, B1, B2, S1, S2.
  done.
Qed.

Lemma part_app_closed t P1 P2 s1 s2 :
  part false P1 s1 → part t P2 s2 → part t (P1 ++ P2) (combine s1 s2).
Proof.
  intros (R1 & J1 & B1 & S1) H2. apply part_app; [|done].
  repeat split; try done. by apply junctions_mono.
Qed.

(** A part that is given in full is checked by evaluation. *)
Lemma part_check t P :
  match atoms_run false P with
  | Some (o, false) => junctions t o && block_free o
  | _ => false
  end = true →
  part t P (summarize (run_code P)).
Proof.
  unfold part, run_code. destruct (atoms_run false P) as [[o []]|]; try done.
  intros H. by apply andb_prop in H as [-> ->].
Qed.

Lemma quiet_part t l : quiet l → junctions t l = true → part t l quiet_summary.
Proof.
  intros [Hs Hf] Hj. pose proof (atoms_run_keep l Hf) as R.
  unfold part. rewrite (run_code_eq _ _ _ R).
  repeat split; try done. by apply slash_free_block_free.
Qed.

Lemma neutral_part t l : neutral l → part t l quiet_summary.
Proof. intros [Hj Hq]. apply quiet_part; [done|]. by apply junctions_mono. Qed.

(** *** Neutral fragments *)

Lemma quiet_nil : quiet [].
Proof. done. Qed.

Lemma quiet_app l1 l2 : quiet l1 → quiet l2 → quiet (l1 ++ l2).
Proof.
  intros [S1 F1] [S2 F2]. split.
  - by rewrite summarize_app, S1, S2.
  - by rewrite slash_free_app, F1, F2.
Qed.

Lemma quiet_flat_map {A} (f : A → list atom) l :
  (∀ x, quiet (f x)) → quiet (flat_map f l).
Proof.
  intros H. induction l as [|x l IH]; [apply quiet_nil|].
  cbn [flat_map]. by apply quiet_app.
Qed.

Lemma neutral_nil : neutral [].
Proof. done. Qed.

Lemma neutral_app l1 l2 : neutral l1 → neutral l2 → neutral (l1 ++ l2).
Proof.
  intros [J1 Q1] [J2 Q2]. split; [|by apply quiet_app].
  rewrite junctions_app, J2, andb_true_r. by apply junctions_mono.
Qed.

Lemma neutral_flat_map {A} (f : A → list atom) l :
  (∀ x, neutral (f x)) → neutral (flat_map f l).
Proof.
  intros H. induction l as [|x l IH]; [apply neutral_nil|].
  cbn [flat_map]. by apply neutral_app.
Qed.

Lemma neutral_join {A} (f : A → list atom) l :
  (∀ x, neutral (f x)) →
  neutral (Fragments.join_atoms (map f l)).
Proof.
  intros H. induction l as [|x l IH]; [apply neutral_nil|].
  destruct l as [|y l]; [apply H|].
  change (neutral (f x ++ [Lit TestbenchGenerator.comma_nl]
                   ++ Fragments.join_atoms (map f (y :: l)))).
  apply neutral_app; [apply H|]. apply neutral_app; [|exact IH].
  by repeat split.
Qed.

End Parts.
(** ** The testbench, part by part *)

Section TestbenchParts.
Import TestbenchGenerator Fragments.

#[local] Ltac evaluated := apply part_check; vm_compute; reflexivity.
#[local] Ltac neutral_by_evaluation := split; [|split]; vm_compute; reflexivity.

Lemma param_decl_neutral p : neutral (param_decl_atoms p).
Proof. neutral_by_evaluation. Qed.

Lemma reg_decl_neutral p : neutral (port_decl_atoms "reg" p).
Proof. unfold port_decl_atoms. destruct (1 <? p_width p); neutral_by_evaluation. Qed.

Lemma wire_decl_neutral p : neutral (port_decl_atoms "wire" p).
Proof. unfold port_decl_atoms. destruct (1 <? p_width p); neutral_by_evaluation. Qed.

Lemma connection_neutral x : neutral (connection_atoms x).
Proof. neutral_by_evaluation. Qed.

Lemma init_line_neutral p : neutral (init_line_atoms p).
Proof. neutral_by_evaluation. Qed.

Lemma random_line_neutral p : neutral (random_line_atoms p).
Proof. unfold random_line_atoms. destruct (1 <? p_width p); neutral_by_evaluation. Qed.

Lemma param_connection_part ps :
  part false (param_connection_atoms ps) quiet_summary.
Proof.
  destruct ps as [|p ps]; [by apply neutral_part|].
  unfold param_connection_atoms.
  eapply part_eq.
  - eapply part_app_closed; [evaluated|].
    eapply part_app_closed; [|evaluated].
    apply neutral_part, (neutral_join (λ p, connection_atoms (prm_name p))).
    intros x. apply connection_neutral.
  - vm_compute. reflexivity.
Qed.

(** The arguments of [$monitor] end with a name each; what follows them
    starts with a comma or with the closing parenthesis. *)
Lemma monitor_args_part t l R s :
  part t R s → opened_next t (run_code R) = true →
  part t (flat_map monitor_arg_atoms l ++ R) s
  ∧ opened_next t (run_code (flat_map monitor_arg_atoms l ++ R)) = true.
Proof.
  intros HR Ho. induction l as [|x l [IHp IHo]]; [done|].
  cbn [flat_map]. rewrite <- app_assoc.
  assert (Hq : quiet (monitor_arg_atoms x)) by (split; vm_compute; reflexivity).
  split.
  - eapply part_eq.
    + apply part_app; [|exact IHp]. rewrite IHo.
      apply quiet_part; [exact Hq|]. vm_compute. reflexivity.
    + destruct IHp as (_ & _ & _ & <-). apply combine_quiet.
  - destruct IHp as (Hrun & _).
    pose proof (atoms_run_app _ _ _ _ _ _ _
                  (atoms_run_keep _ (proj2 Hq)) Hrun) as Hrun'.
    by rewrite (run_code_eq _ _ _ Hrun').
Qed.

Lemma monitor_part mi :
  part false (monitor_atoms mi)
    (combine (summarize (run_code [Lit loop_tail]))
             (summarize (run_code (footer_atoms (mi_name mi +:+ "_tb"))))).
Proof.
  unfold monitor_atoms.
  assert (Hfoot : part false (footer_atoms (mi_name mi +:+ "_tb"))
                    (summarize (run_code (footer_atoms (mi_name mi +:+ "_tb")))))
    by evaluated.
  destruct (monitor_args_part false (mi_outputs mi) _ _ Hfoot) as [Hp2 Ho2];
    [by vm_compute|].
  destruct (monitor_args_part false (mi_inputs mi) _ _ Hp2 Ho2) as [Hp1 Ho1].
  apply part_app; [|exact Hp1]. rewrite Ho1. evaluated.
Qed.

(** What follows the header is entered and left outside a comment, and
    without its comments it has one [endmodule], as many [begin] as [end],
    none of the other words that the checker counts, and balanced
    parentheses and brackets. *)
Lemma body_part mi n :
  part false (body_atoms mi n)
       (tb_summary 0 (has_first (List.filter is_clock (mi_inputs mi)))
                     (has_first (List.filter is_reset (mi_inputs mi)))).
Proof.
  unfold body_atoms.
  destruct (List.filter is_clock (mi_inputs mi)) as [|clk clks];
    destruct (List.filter is_reset (mi_inputs mi)) as [|rst rsts];
    cbn [first_block_atoms has_first].
  all: eapply part_eq;
    [ do 19 (eapply part_app_closed;
        [ lazymatch goal with
          | |- part _ (flat_map param_decl_atoms _) _ =>
              apply neutral_part, neutral_flat_map, param_decl_neutral
          | |- part _ (flat_map (port_decl_atoms "reg") _) _ =>
              apply neutral_part, neutral_flat_map, reg_decl_neutral
          | |- part _ (flat_map (port_decl_atoms "wire") _) _ =>
              apply neutral_part, neutral_flat_map, wire_decl_neutral
          | |- part _ (flat_map init_line_atoms _) _ =>
              apply neutral_part, neutral_flat_map, init_line_neutral
          | |- part _ (flat_map random_line_atoms _) _ =>
              apply neutral_part, neutral_flat_map, random_line_neutral
          | |- part _ (join_atoms _) _ =>
              apply neutral_part,
                (neutral_join (λ p, connection_atoms (p_name p)));
              intros x; apply connection_neutral
          | |- part _ (param_connection_atoms _) _ => apply param_connection_part
          | |- part _ [] _ => apply neutral_part, neutral_nil
          | |- _ => evaluated
          end | ]);
      apply monitor_part
    | vm_compute; reflexivity ].
Qed.

(** The header adds the one [module]. *)
Lemma tb_part mi n :
  part false (tb_atoms mi n)
       (tb_summary 1 (has_first (List.filter is_clock (mi_inputs mi)))
                     (has_first (List.filter is_reset (mi_inputs mi)))).
Proof.
  unfold tb_atoms. eapply part_eq.
  - eapply part_app_closed; [evaluated|apply body_part].
  - by destruct (has_first _), (has_first _); vm_compute.
Qed.

End TestbenchParts.
(** ** The testbench as a list of fragments *)

Section TestbenchText.
Import TestbenchGenerator Fragments.

Lemma concat_str_single x : concat_str [x] = x.
Proof. apply str_app_nil_r. Qed.

Lemma concat_map_render {A} (f : A → string) (g : A → list atom) l :
  (∀ x, f x = render (g x)) → concat_str (map f l) = render (flat_map g l).
Proof.
  intros H. induction l as [|x l IH]; [done|].
  cbn [map concat_str flat_map]. by rewrite render_app, IH, H.
Qed.

Lemma join_render {A} (f : A → string) (g : A → list atom) l :
  (∀ x, f x = render (g x)) →
  join comma_nl (map f l) = render (join_atoms (map g l)).
Proof.
  intros H. induction l as [|x l IH]; [done|].
  destruct l as [|y l]; [apply H|].
  change (f x +:+ comma_nl +:+ join comma_nl (map f (y :: l))
          = render (g x ++ [Lit comma_nl] ++ join_atoms (map g (y :: l)))).
  by rewrite !render_app, IH, H.
Qed.

Lemma connection_render x : connection x = render (connection_atoms x).
Proof. reflexivity. Qed.

Lemma param_decl_render p : param_decl p = render (param_decl_atoms p).
Proof. reflexivity. Qed.

Lemma port_decl_render kind p : port_decl kind p = render (port_decl_atoms kind p).
Proof. unfold port_decl, port_decl_atoms. by destruct (1 <? p_width p). Qed.

Lemma init_line_render p : init_line p = render (init_line_atoms p).
Proof. reflexivity. Qed.

Lemma random_line_render p : random_line p = render (random_line_atoms p).
Proof. unfold random_line, random_line_atoms. by destruct (1 <? p_width p). Qed.

Lemma monitor_arg_render p : monitor_arg p = render (monitor_arg_atoms p).
Proof.
  unfold monitor_arg, monitor_arg_atoms. rewrite !render_cons. cbn [text_of].
  change (render []) with EmptyString. by rewrite str_app_nil_r.
Qed.

Lemma param_connections_render ps :
  concat_str (param_connections ps) = render (param_connection_atoms ps).
Proof.
  destruct ps as [|p ps]; [done|].
  unfold param_connections, param_connection_atoms.
  rewrite !render_app.
  rewrite <- (join_render (λ p, connection (prm_name p))
                          (λ p, connection_atoms (prm_name p)))
    by (intros; apply connection_render).
  reflexivity.
Qed.

Lemma first_block_render block block_atoms signals :
  (∀ x, block x = render (block_atoms x)) →
  concat_str (first_block block signals) = render (first_block_atoms block_atoms signals).
Proof.
  intros H. destruct signals as [|first signals]; [done|].
  cbn [first_block first_block_atoms]. by rewrite concat_str_single.
Qed.

(** [generate_testbench] puts the fragments of [tb_atoms] one after the
    other. *)
Lemma generate_testbench_render mi n :
  generate_testbench mi n = render (tb_atoms mi n).
Proof.
  unfold generate_testbench, tb_atoms, body_atoms, monitor_atoms. cbv zeta.
  rewrite !concat_str_app, !render_app.
  rewrite !concat_str_single.
  fold (stimulated mi).
  rewrite <- (concat_map_render _ _ _ param_decl_render).
  rewrite <- !(concat_map_render _ _ _ (port_decl_render _)).
  rewrite <- (concat_map_render _ _ _ init_line_render).
  rewrite <- (concat_map_render _ _ _ random_line_render).
  rewrite <- !(concat_map_render _ _ _ monitor_arg_render).
  rewrite <- param_connections_render.
  rewrite <- (join_render (λ p, connection (p_name p))
                          (λ p, connection_atoms (p_name p)))
    by (intros; apply connection_render).
  rewrite <- (first_block_render clock_block clock_block_atoms) by reflexivity.
  rewrite <- (first_block_render reset_block reset_block_atoms) by reflexivity.
  reflexivity.
Qed.

End TestbenchText.
(** ** The checker on the testbench *)

Section TestbenchChecked.
Import VerilogSyntaxChecker TestbenchGenerator Fragments.

(** *** The names and values of a plain module *)

Lemma tb_name_plain x : plain_name x = true → plain_name (x +:+ "_tb") = true.
Proof.
  unfold plain_name. intros H. apply andb_prop in H as [Hw _].
  rewrite all_chars_app, Hw.
  change (all_chars is_word "_tb") with true. cbn [andb].
  apply negb_true_iff, named_not_elem. intros Hin.
  assert (Hl : last_char None (x +:+ "_tb") = Some "b"%char)
    by (by rewrite last_char_app).
  apply list_elem_of_In in Hin. unfold keywords in Hin. simpl in Hin.
  repeat (destruct Hin as [E|Hin];
          [rewrite <- E in Hl; vm_compute in Hl; discriminate Hl|]).
  done.
Qed.

Lemma atoms_ok_flat_map {A} (P : A → bool) (g : A → list atom) l :
  (∀ x, P x = true → forallb atom_ok (g x) = true) →
  forallb P l = true → forallb atom_ok (flat_map g l) = true.
Proof.
  intros H. induction l as [|x l IH]; [done|].
  cbn [forallb flat_map]. intros Hl. apply andb_prop in Hl as [Hx Hl].
  by rewrite forallb_app, H, IH.
Qed.

Lemma atoms_ok_join {A} (P : A → bool) (g : A → list atom) l :
  (∀ x, P x = true → forallb atom_ok (g x) = true) →
  forallb P l = true → forallb atom_ok (join_atoms (map g l)) = true.
Proof.
  intros H. induction l as [|x l IH]; [done|].
  cbn [forallb]. intros Hl. apply andb_prop in Hl as [Hx Hl].
  destruct l as [|y l]; [by apply H|].
  change (forallb atom_ok (g x ++ [Lit comma_nl] ++ join_atoms (map g (y :: l))) = true).
  by rewrite !forallb_app, H, IH.
Qed.

Lemma forallb_filter {A} (P f : A → bool) l :
  forallb P l = true → forallb P (List.filter f l) = true.
Proof.
  induction l as [|x l IH]; [done|].
  cbn [forallb List.filter]. intros H. apply andb_prop in H as [Hx Hl].
  destruct (f x); cbn [forallb]; rewrite ?Hx; by apply IH.
Qed.

Lemma atoms_ok_first_block block signals :
  (∀ x, plain_name x = true → forallb atom_ok (block x) = true) →
  forallb (λ p, plain_name (p_name p)) signals = true →
  forallb atom_ok (first_block_atoms block signals) = true.
Proof.
  intros H. destruct signals as [|first signals]; [done|].
  cbn [forallb first_block_atoms]. intros Hl. apply andb_prop in Hl as [Hx Hl].
  by apply H.
Qed.

Lemma tb_atoms_ok mi n :
  plain_module mi = true → forallb atom_ok (tb_atoms mi n) = true.
Proof.
  unfold plain_module. intros H.
  apply andb_prop in H as [H Hparams]. apply andb_prop in H as [Hname Hports].
  rewrite !forallb_app in Hports.
  apply andb_prop in Hports as [Hin Hports].
  apply andb_prop in Hports as [Hout Hinout].
  pose proof (tb_name_plain _ Hname) as Htb.
  assert (Hconn : ∀ x, plain_name x = true →
                       forallb atom_ok (connection_atoms x) = true).
  { intros x Hx. simpl. by rewrite Hx. }
  assert (Hdecl : ∀ kind (p : port), plain_name (p_name p) = true →
                    forallb atom_ok (port_decl_atoms kind p) = true).
  { intros kind p Hp. unfold port_decl_atoms.
    destruct (1 <? p_width p); simpl; by rewrite Hp. }
  assert (Hmon : ∀ l, forallb (λ p, plain_name (p_name p)) l = true →
                      forallb atom_ok (flat_map monitor_arg_atoms l) = true).
  { intros l. apply atoms_ok_flat_map. intros p Hp. simpl. by rewrite Hp. }
  pose proof (forallb_filter _ (driven (List.filter is_clock (mi_inputs mi)
                ++ List.filter is_reset (mi_inputs mi))) _ Hin) as Hstim.
  fold (stimulated mi) in Hstim.
  unfold tb_atoms, body_atoms, monitor_atoms. rewrite !forallb_app.
  repeat match goal with |- (_ && _) = true => apply andb_true_intro; split end.
  - simpl. by rewrite Hname, Htb.
  - revert Hparams. apply atoms_ok_flat_map. intros p Hp.
    apply andb_prop in Hp as [Hp1 Hp2]. simpl. by rewrite Hp1, Hp2.
  - done.
  - revert Hin. apply atoms_ok_flat_map, Hdecl.
  - done.
  - revert Hout. apply atoms_ok_flat_map, Hdecl.
  - done.
  - revert Hinout. apply atoms_ok_flat_map, Hdecl.
  - done.
  - simpl. by rewrite Hname.
  - destruct (mi_parameters mi) as [|p ps] eqn:E; [done|].
    unfold param_connection_atoms. rewrite !forallb_app, andb_true_r. cbn [forallb andb].
    revert Hparams. apply atoms_ok_join. intros x Hx.
    apply andb_prop in Hx as [Hx _]. by apply Hconn.
  - done.
  - apply (atoms_ok_join (λ p, plain_name (p_name p))); [intros; by apply Hconn|].
    by rewrite !forallb_app, Hin, Hout, Hinout.
  - done.
  - apply atoms_ok_first_block; [|by apply forallb_filter].
    intros x Hx. simpl. by rewrite Hx.
  - apply atoms_ok_first_block; [|by apply forallb_filter].
    intros x Hx. simpl. by rewrite Hx.
  - done.
  - revert Hstim. apply atoms_ok_flat_map. intros p Hp. simpl. by rewrite Hp.
  - done.
  - revert Hstim. apply atoms_ok_flat_map. intros p Hp.
    unfold random_line_atoms. destruct (1 <? p_width p); simpl; by rewrite Hp.
  - done.
  - by apply Hmon.
  - by apply Hmon.
  - simpl. by rewrite Htb.
Qed.

Lemma atoms_run_ok st l o st' :
  forallb atom_ok l = true → atoms_run st l = Some (o, st') →
  forallb atom_ok o = true.
Proof.
  revert st o. induction l as [|a l IH]; intros st o Hok H.
  - simpl in H. by injection H as <- <-.
  - cbn [forallb] in Hok. apply andb_prop in Hok as [Ha Hok].
    assert (Hkeep : ∀ b, atom_ok b = true →
              (λ r : list atom * bool, (b :: r.1, r.2)) <$> atoms_run false l
              = Some (o, st') → forallb atom_ok o = true).
    { intros b Hb Hr. destruct (atoms_run false l) as [[o' st2]|] eqn:E; [|done].
      injection Hr as <- <-. cbn [forallb fst]. rewrite Hb. by eapply IH. }
    destruct a as [s|s|s|z]; cbn [atoms_run] in H.
    + destruct (lit_run st s) as [[x st1]|]; [|done].
      destruct (atoms_run st1 l) as [[o' st2]|] eqn:E; [|done].
      injection H as <- <-. cbn [forallb fst atom_ok andb]. by eapply IH.
    + destruct st; [by eapply IH|by eapply Hkeep].
    + destruct st; [done|by eapply Hkeep].
    + destruct st; [by eapply IH|by eapply Hkeep].
Qed.

(** *** Block comments *)

Lemma contains_block_app a b :
  tidy a = true → contains "/*" (a +:+ b) = contains "/*" b.
Proof.
  induction a as [|x a IH]; [done|].
  unfold tidy. intros H. apply andb_prop in H as [Hc Hl].
  apply negb_true_iff in Hc, Hl.
  change (String x a +:+ b) with (String x (a +:+ b)).
  cbn [contains] in *. apply orb_false_elim in Hc as [Hs Hc].
  assert (Hs' : startswith "/*" (String x (a +:+ b)) = false).
  { cbn [startswith] in *. destruct (Ascii.eqb "/" x) eqn:Ex; [|done].
    destruct a as [|y a].
    - apply Ascii.eqb_eq in Ex as <-. done.
    - exact Hs. }
  rewrite Hs'. cbn [orb]. apply IH. unfold tidy. rewrite Hc. cbn [negb andb].
  apply negb_true_iff. destruct a as [|y a]; [done|].
  by rewrite (last_char_nonempty None (Some x)).
Qed.

Lemma harmless_tidy s : all_chars harmless s = true → tidy s = true.
Proof.
  intros H. apply no_slash_tidy. eapply all_chars_ext; [|exact H].
  intros a Ha. unfold no_slash. by rewrite (harmless_not_slash a Ha).
Qed.

(** A fragment whose fixed texts open no block comment opens none. *)
Lemma block_free_render l :
  forallb atom_ok l = true → block_free l = true → contains "/*" (render l) = false.
Proof.
  intros Hok Hb. induction l as [|a l IH]; [done|].
  cbn [forallb] in Hok. apply andb_prop in Hok as [Ha Hok].
  unfold block_free in Hb. cbn [forallb] in Hb. apply andb_prop in Hb as [Hba Hb].
  rewrite render_cons, contains_block_app; [by apply IH|].
  destruct a as [s|s|s|z]; [exact Hba|..]; by apply harmless_tidy, symbolic_harmless.
Qed.

(** *** What the checker reads *)

Lemma remove_comments_testbench mi n :
  plain_module mi = true →
  _remove_comments (generate_testbench mi n) = stripped_testbench mi n.
Proof.
  intros Hplain. pose proof (tb_atoms_ok mi n Hplain) as Hok.
  destruct (tb_part mi n) as (Hrun & _ & Hblock & _).
  unfold _remove_comments, stripped_testbench.
  rewrite re_sub_line_comment, generate_testbench_render.
  rewrite <- (str_app_nil_r (render (tb_atoms mi n))).
  rewrite (uncomment_render _ _ _ _ _ Hok Hrun).
  change (uncomment false EmptyString) with EmptyString. rewrite str_app_nil_r.
  apply re_sub_block_comment_none, block_free_render; [|exact Hblock].
  by eapply atoms_run_ok.
Qed.

End TestbenchChecked.
(** ** The testbench of a plain module is accepted *)

Section TestbenchAccepted.
Import VerilogSyntaxChecker TestbenchGenerator Fragments.

Lemma stripped_ok mi n :
  plain_module mi = true → forallb atom_ok (run_code (tb_atoms mi n)) = true.
Proof.
  intros Hplain. destruct (tb_part mi n) as (Hrun & _).
  eapply atoms_run_ok; [|exact Hrun]. by apply tb_atoms_ok.
Qed.

(** The words that the checker counts are those of the fixed texts. *)
Lemma stripped_count mi n kw :
  plain_module mi = true → named kw keywords = true →
  count_kw kw (stripped_testbench mi n) = lit_count kw (run_code (tb_atoms mi n)).
Proof.
  intros Hplain Hkw. destruct (tb_part mi n) as (_ & Hj & _).
  unfold stripped_testbench.
  rewrite <- (str_app_nil_r (render _)).
  rewrite (count_kw_render kw false _ EmptyString Hkw (stripped_ok mi n Hplain) Hj)
    by done.
  change (count_kw kw EmptyString) with O. lia.
Qed.

Lemma stripped_depth mi n opening closing :
  plain_module mi = true →
  harmless opening = false → harmless closing = false →
  aprofile opening closing (run_code (tb_atoms mi n)) = (0, 0) →
  depth opening closing (stripped_testbench mi n) 0 = Some 0.
Proof.
  intros Hplain Ho Hc Hp. unfold stripped_testbench.
  rewrite <- (str_app_nil_r (render _)).
  rewrite (depth_render _ _ _ _ _ Ho Hc (stripped_ok mi n Hplain)); rewrite Hp; done.
Qed.

(** The text starts with lines without a word and the declaration of the
    testbench module. *)
Lemma stripped_shape mi n :
  ∃ pre post,
    closed pre = true
    ∧ stripped_testbench mi n
      = pre +:+ "module " +:+ (mi_name mi +:+ "_tb") +:+ post.
Proof.
  exists (render (run_code (header_intro_atoms (mi_name mi)))),
         (render (run_code (header_end_atoms ++ body_atoms mi n))).
  split; [by vm_compute|].
  assert (Hrest : atoms_run false (header_end_atoms ++ body_atoms mi n)
                  = Some (run_code (header_end_atoms ++ body_atoms mi n), false)).
  { destruct (body_part mi n) as (Hbody & _).
    assert (Hend : atoms_run false header_end_atoms
                   = Some (run_code header_end_atoms, false)) by (by vm_compute).
    pose proof (atoms_run_app _ _ _ _ _ _ _ Hend Hbody) as H.
    by rewrite (run_code_eq _ _ _ H). }
  assert (Hintro : atoms_run false (header_intro_atoms (mi_name mi))
                   = Some (run_code (header_intro_atoms (mi_name mi)), false))
    by (by vm_compute).
  assert (Hdecl : atoms_run false
                    ([Lit "module "; Word (mi_name mi +:+ "_tb")]
                     ++ header_end_atoms ++ body_atoms mi n)
                  = Some ([Lit "module "; Word (mi_name mi +:+ "_tb")]
                          ++ run_code (header_end_atoms ++ body_atoms mi n), false)).
  { by apply (atoms_run_app false [Lit "module "; Word (mi_name mi +:+ "_tb")]
                 _ _ false _ _ eq_refl). }
  pose proof (atoms_run_app _ _ _ _ _ _ _ Hintro Hdecl) as Hall.
  unfold stripped_testbench, tb_atoms, header_atoms.
  rewrite <- !app_assoc, (run_code_eq _ _ _ Hall), render_app.
  reflexivity.
Qed.

Lemma stripped_module_decl mi n :
  plain_module mi = true → found re_module_decl (stripped_testbench mi n) = true.
Proof.
  intros Hplain. destruct (stripped_shape mi n) as (pre & post & Hpre & ->).
  apply bool_decide_eq_true. unfold re_search. apply search_finds.
  unfold closed in Hpre. apply negb_true_iff in Hpre.
  unfold plain_module, plain_name in Hplain.
  apply andb_prop in Hplain as [Hplain _]. apply andb_prop in Hplain as [Hname _].
  apply andb_prop in Hname as [Hname _].
  destruct (mi_name mi) as [|c name].
  - by apply (module_decl_match _ "_").
  - cbn [all_chars] in Hname. apply andb_prop in Hname as [Hc _].
    by apply (module_decl_match _ c).
Qed.

Lemma stripped_modules mi n :
  count_kw "module" (stripped_testbench mi n) = 1%nat →
  count_words is_module_kw (stripped_testbench mi n) = 1%nat.
Proof.
  intros H. pose proof (count_words_module_le (stripped_testbench mi n)) as Hle.
  destruct (stripped_shape mi n) as (pre & post & Hpre & E).
  rewrite E in *.
  rewrite (count_words_app_closed _ _ _ Hpre) in *.
  rewrite (count_words_app_closed _ "module ") in * by done.
  change (count_words is_module_kw "module ") with 1%nat in *. lia.
Qed.

(** The counts of the checker on the testbench of a plain module. *)
Lemma testbench_counts mi n :
  plain_module mi = true →
  let code := stripped_testbench mi n in
  let blocks :=
    (4 + (if has_first (List.filter is_clock (mi_inputs mi)) then 1 else 0)
       + (if has_first (List.filter is_reset (mi_inputs mi)) then 1 else 0))%nat in
  re_count re_module code = 1%nat
  ∧ re_count (re_keyword "endmodule") code = 1%nat
  ∧ re_count (re_keyword "begin") code = blocks
  ∧ re_count (re_keyword "end") code = blocks
  ∧ re_count re_case code = O
  ∧ re_count (re_keyword "endcase") code = O
  ∧ re_count (re_keyword "function") code = O
  ∧ re_count (re_keyword "endfunction") code = O
  ∧ re_count (re_keyword "task") code = O
  ∧ re_count (re_keyword "endtask") code = O.
Proof.
  intros Hplain code blocks. subst code blocks.
  destruct (tb_part mi n) as (_ & _ & _ & Hs).
  assert (Hcount : ∀ i kw,
            keywords !! i = Some kw →
            count_kw kw (stripped_testbench mi n)
            = default O
                ((tb_summary 1 (has_first (List.filter is_clock (mi_inputs mi)))
                               (has_first (List.filter is_reset (mi_inputs mi)))).1.1
                 !! i)).
  { intros i kw Hi. rewrite <- Hs. unfold summarize. cbn [fst].
    rewrite list_lookup_fmap, Hi. cbn [fmap option_fmap option_map default].
    apply stripped_count; [done|].
    apply named_elem. by eapply list_elem_of_lookup_2. }
  rewrite count_module, count_case, !count_keyword, !count_words_kw by done.
  rewrite stripped_modules, count_words_case;
    rewrite ?(Hcount 0%nat "module"), ?(Hcount 1%nat "endmodule"),
      ?(Hcount 2%nat "begin"), ?(Hcount 3%nat "end"), ?(Hcount 4%nat "case"),
      ?(Hcount 5%nat "casex"), ?(Hcount 6%nat "casez"), ?(Hcount 7%nat "endcase"),
      ?(Hcount 8%nat "function"), ?(Hcount 9%nat "endfunction"),
      ?(Hcount 10%nat "task"), ?(Hcount 11%nat "endtask") by done;
    try done.
Qed.

(** The checker accepts [counter_source], and [parse_module] returns
    [counter_info] for it. *)
Lemma counter_info_parsed :
  (check_syntax counter_source).1 = true
  ∧ VerilogParser.parse_module counter_source = counter_info.
Proof. split; by vm_compute. Qed.

(** The checker classifies the testbench of [counter_plain] as Verilog-95:
    the generator writes none of the words by which the checker tells
    Verilog-2001 or SystemVerilog. *)
Lemma counter_testbench_version :
  get_verilog_version (generate_testbench counter_plain 100) = "Verilog-95".
Proof. by vm_compute. Qed.




End TestbenchAccepted.
(** ** Detection and verification of gates *)

Section GateRules.
Import AWaveViewer.

Lemma mismatches_none (describe : list string → string) (a b c d : string)
    (tt : truth_table) :
  get_or tt ["0"; "0"] "X" = a → get_or tt ["0"; "1"] "X" = b →
  get_or tt ["1"; "0"] "X" = c → get_or tt ["1"; "1"] "X" = d →
  mismatches describe (gate_table a b c d) tt = [].
Proof.
  intros Ha Hb Hc Hd. unfold mismatches, gate_table. cbn [flat_map].
  by rewrite Ha, Hb, Hc, Hd, !String.eqb_refl.
Qed.

(** What [detect_gate_type] has read in the table when it names a gate with
    two inputs. *)
Lemma detect_two_inputs (tt : truth_table) (g : string) :
  detect_gate_type tt 2 = g →
  ∀ a b c d : string,
    (g, (a, b, c, d)) ∈
      [ ("AND Gate", ("0", "0", "0", "1")); ("OR Gate", ("0", "1", "1", "1"));
        ("XOR Gate", ("0", "1", "1", "0")); ("NAND Gate", ("1", "1", "1", "0"));
        ("NOR Gate", ("1", "0", "0", "0")); ("XNOR Gate", ("1", "0", "0", "1")) ] →
    get_or tt ["0"; "0"] "X" = a ∧ get_or tt ["0"; "1"] "X" = b
    ∧ get_or tt ["1"; "0"] "X" = c ∧ get_or tt ["1"; "1"] "X" = d.
Proof.
  unfold detect_gate_type.
  change (2 =? 1) with false. change (2 =? 2) with true. cbv iota zeta.
  intros Hg a b c d Hin.
  repeat match type of Hg with
  | (if ?t then _ else _) = _ =>
      let E := fresh "E" in destruct t eqn:E
  end;
  subst g; apply list_elem_of_In in Hin; simpl in Hin;
  repeat (destruct Hin as [Hin|Hin]; [try discriminate Hin|]); try done;
  injection Hin as <- <- <- <-;
  repeat match goal with
  | H : _ && _ = true |- _ => apply andb_prop in H as [? ?]
  | H : String.eqb _ _ = true |- _ => apply String.eqb_eq in H
  end; done.
Qed.

(** A gate with two inputs that [detect_gate_type] names AND, OR, XOR, NAND
    or NOR passes [verify_gate_logic]: the report ends with the line that
    all combinations are verified and has no error mark. *)
Theorem detected_gate_is_verified (tt : truth_table) :
  detect_gate_type tt 2 ∈ ["AND Gate"; "OR Gate"; "XOR Gate"; "NAND Gate"; "NOR Gate"] →
  endswith verified_line (verify_gate_logic (detect_gate_type tt 2) tt 2) = true
  ∧ contains "✗" (verify_gate_logic (detect_gate_type tt 2) tt 2) = false.
Proof.
  intros Hin.
  pose proof (detect_two_inputs tt _ eq_refl) as Hrows.
  apply list_elem_of_In in Hin. simpl in Hin.
  destruct Hin as [E|[E|[E|[E|[E|[]]]]]]; rewrite <- E in *.
  - destruct (Hrows "0" "0" "0" "1") as (Ha & Hb & Hc & Hd);
      [apply list_elem_of_In; simpl; tauto|].
    unfold verify_gate_logic. cbv beta zeta.
    change (contains "AND" "AND Gate" && negb (contains "NAND" "AND Gate")) with true.
    change (2 =? 2) with true. cbv iota.
    unfold and_expected. rewrite (mismatches_none _ _ _ _ _ _ Ha Hb Hc Hd).
    split; by vm_compute.
  - destruct (Hrows "0" "1" "1" "1") as (Ha & Hb & Hc & Hd);
      [apply list_elem_of_In; simpl; tauto|].
    unfold verify_gate_logic. cbv beta zeta.
    change (contains "AND" "OR Gate" && negb (contains "NAND" "OR Gate")) with false.
    change (contains "OR" "OR Gate" && negb (contains "NOR" "OR Gate")
            && negb (contains "XOR" "OR Gate")) with true.
    change (2 =? 2) with true. cbv iota.
    unfold or_expected. rewrite (mismatches_none _ _ _ _ _ _ Ha Hb Hc Hd).
    split; by vm_compute.
  - destruct (Hrows "0" "1" "1" "0") as (Ha & Hb & Hc & Hd);
      [apply list_elem_of_In; simpl; tauto|].
    unfold verify_gate_logic. cbv beta zeta.
    change (contains "AND" "XOR Gate" && negb (contains "NAND" "XOR Gate")) with false.
    change (contains "OR" "XOR Gate" && negb (contains "NOR" "XOR Gate")
            && negb (contains "XOR" "XOR Gate")) with false.
    change (contains "XOR" "XOR Gate" && negb (contains "XNOR" "XOR Gate")) with true.
    change (2 =? 2) with true. cbv iota.
    unfold xor_expected. rewrite (mismatches_none _ _ _ _ _ _ Ha Hb Hc Hd).
    split; by vm_compute.
  - destruct (Hrows "1" "1" "1" "0") as (Ha & Hb & Hc & Hd);
      [apply list_elem_of_In; simpl; tauto|].
    unfold verify_gate_logic. cbv beta zeta.
    change (contains "AND" "NAND Gate" && negb (contains "NAND" "NAND Gate")) with false.
    change (contains "OR" "NAND Gate" && negb (contains "NOR" "NAND Gate")
            && negb (contains "XOR" "NAND Gate")) with false.
    change (contains "XOR" "NAND Gate" && negb (contains "XNOR" "NAND Gate")) with false.
    change (contains "NOT" "NAND Gate") with false.
    change (contains "NAND" "NAND Gate") with true.
    change (2 =? 2) with true. cbv iota.
    unfold nand_expected. rewrite (mismatches_none _ _ _ _ _ _ Ha Hb Hc Hd).
    split; by vm_compute.
  - destruct (Hrows "1" "0" "0" "0") as (Ha & Hb & Hc & Hd);
      [apply list_elem_of_In; simpl; tauto|].
    unfold verify_gate_logic. cbv beta zeta.
    change (contains "AND" "NOR Gate" && negb (contains "NAND" "NOR Gate")) with false.
    change (contains "OR" "NOR Gate" && negb (contains "NOR" "NOR Gate")
            && negb (contains "XOR" "NOR Gate")) with false.
    change (contains "XOR" "NOR Gate" && negb (contains "XNOR" "NOR Gate")) with false.
    change (contains "NOT" "NOR Gate") with false.
    change (contains "NAND" "NOR Gate") with false.
    change (contains "NOR" "NOR Gate") with true.
    change (2 =? 2) with true. cbv iota.
    unfold nor_expected. rewrite (mismatches_none _ _ _ _ _ _ Ha Hb Hc Hd).
    split; by vm_compute.
Qed.

(** The table of the AND example is one of them. *)
Lemma detected_gate_is_verified_example :
  endswith verified_line (verify_gate_logic (detect_gate_type and_table 2) and_table 2)
  = true
  ∧ contains "✗" (verify_gate_logic (detect_gate_type and_table 2) and_table 2) = false.
Proof.
  apply (detected_gate_is_verified and_table).
  apply list_elem_of_In. simpl. left. by vm_compute.
Defined.

(** A gate that [detect_gate_type] names XNOR is checked by
    [verify_gate_logic] against the rules of NOR, since the name contains
    NOR and not XOR: the report is the one of the NOR rules with the error
    that 1 NOR 1 should be 0. *)
Theorem xnor_is_verified_as_nor (tt : truth_table) :
  detect_gate_type tt 2 = "XNOR Gate" →
  verify_gate_logic (detect_gate_type tt 2) tt 2 = xnor_report.
Proof.
  intros E.
  destruct (detect_two_inputs tt _ E "1" "0" "0" "1") as (Ha & Hb & Hc & Hd);
    [apply list_elem_of_In; simpl; tauto|].
  rewrite E. unfold verify_gate_logic. cbv beta zeta.
  change (contains "AND" "XNOR Gate" && negb (contains "NAND" "XNOR Gate")) with false.
  change (contains "OR" "XNOR Gate" && negb (contains "NOR" "XNOR Gate")
          && negb (contains "XOR" "XNOR Gate")) with false.
  change (contains "XOR" "XNOR Gate" && negb (contains "XNOR" "XNOR Gate")) with false.
  change (contains "NOT" "XNOR Gate") with false.
  change (contains "NAND" "XNOR Gate") with false.
  change (contains "NOR" "XNOR Gate") with true.
  change (2 =? 2) with true. cbv iota.
  unfold mismatches, nor_expected, gate_table. cbn [flat_map].
  rewrite Ha, Hb, Hc, Hd. by vm_compute.
Qed.

Lemma xnor_is_verified_as_nor_example :
  verify_gate_logic (detect_gate_type xnor_table 2) xnor_table 2 = xnor_report.
Proof. apply (xnor_is_verified_as_nor xnor_table). by vm_compute. Defined.

(** An inverter that [detect_gate_type] names passes [verify_gate_logic]. *)
Theorem detected_inverter_is_verified (tt : truth_table) :
  detect_gate_type tt 1 = "NOT Gate" →
  endswith verified_line (verify_gate_logic (detect_gate_type tt 1) tt 1) = true
  ∧ contains "✗" (verify_gate_logic (detect_gate_type tt 1) tt 1) = false.
Proof.
  intros E. rewrite E. revert E. unfold detect_gate_type.
  change (1 =? 1) with true. cbv iota zeta.
  destruct (is_str (tt !! ["0"]) "1" && is_str (tt !! ["1"]) "0") eqn:Hnot.
  - intros _. apply andb_prop in Hnot as [H0 H1].
    unfold is_str in H0, H1.
    destruct (tt !! ["0"]) as [v0|] eqn:E0; [|done].
    destruct (tt !! ["1"]) as [v1|] eqn:E1; [|done].
    apply String.eqb_eq in H0 as ->. apply String.eqb_eq in H1 as ->.
    unfold verify_gate_logic. cbv beta zeta.
    change (contains "AND" "NOT Gate" && negb (contains "NAND" "NOT Gate")) with false.
    change (contains "OR" "NOT Gate" && negb (contains "NOR" "NOT Gate")
            && negb (contains "XOR" "NOT Gate")) with false.
    change (contains "XOR" "NOT Gate" && negb (contains "XNOR" "NOT Gate")) with false.
    change (contains "NOT" "NOT Gate") with true. cbv iota.
    unfold mismatches, not_expected, get_or. cbn [flat_map].
    rewrite E0, E1. split; by vm_compute.
  - by destruct (is_str (tt !! ["0"]) "0" && is_str (tt !! ["1"]) "1").
Qed.

Lemma detected_inverter_is_verified_example :
  endswith verified_line (verify_gate_logic (detect_gate_type not_table 1) not_table 1)
  = true
  ∧ contains "✗" (verify_gate_logic (detect_gate_type not_table 1) not_table 1) = false.
Proof. apply (detected_inverter_is_verified not_table). by vm_compute. Defined.

(** A gate with three inputs that [detect_gate_type] names AND or OR passes
    the check that [verify_gate_logic] makes for more than two inputs. *)
Theorem detected_wide_gate_is_verified (tt : truth_table) :
  (detect_gate_type tt 3 = "3-input AND" →
   verify_gate_logic (detect_gate_type tt 3) tt 3 = and3_report)
  ∧ (detect_gate_type tt 3 = "3-input OR" →
     verify_gate_logic (detect_gate_type tt 3) tt 3 = or3_report).
Proof.
  split; intros E; rewrite E; revert E; unfold detect_gate_type;
    change (3 =? 1) with false; change (3 =? 2) with false;
    change (3 =? 3) with true; cbv iota zeta.
  - destruct (Nat.eqb (ones_count tt) 1).
    + destruct (String.eqb (get_or tt ["1"; "1"; "1"] "0") "1") eqn:H1; [|done].
      intros _. unfold verify_gate_logic. cbv beta zeta.
      change (contains "AND" "3-input AND" && negb (contains "NAND" "3-input AND"))
        with true.
      change (3 =? 2) with false. cbv iota.
      change (all_of "1" 3) with ["1"; "1"; "1"]. by rewrite H1.
    + destruct (Nat.eqb (ones_count tt) 7).
      * by destruct (String.eqb (get_or tt ["0"; "0"; "0"] "1") "0").
      * by destruct (Nat.eqb (ones_count tt) 4).
  - destruct (Nat.eqb (ones_count tt) 1).
    + by destruct (String.eqb (get_or tt ["1"; "1"; "1"] "0") "1").
    + destruct (Nat.eqb (ones_count tt) 7).
      * destruct (String.eqb (get_or tt ["0"; "0"; "0"] "1") "0") eqn:H0; [|done].
        intros _. unfold verify_gate_logic. cbv beta zeta.
        change (contains "AND" "3-input OR" && negb (contains "NAND" "3-input OR"))
          with false.
        change (contains "OR" "3-input OR" && negb (contains "NOR" "3-input OR")
                && negb (contains "XOR" "3-input OR")) with true.
        change (3 =? 2) with false. cbv iota.
        change (all_of "0" 3) with ["0"; "0"; "0"]. by rewrite H0.
      * by destruct (Nat.eqb (ones_count tt) 4).
Qed.

Lemma detected_wide_gate_is_verified_example :
  detect_gate_type and3_table 3 = "3-input AND"
  ∧ verify_gate_logic (detect_gate_type and3_table 3) and3_table 3 = and3_report.
Proof.
  split; [by vm_compute|].
  apply (proj1 (detected_wide_gate_is_verified and3_table)). by vm_compute.
Defined.

(** *** Gates without rules *)

Lemma contains_after (c : ascii) (sub a b : string) :
  all_chars (λ x, negb (Ascii.eqb c x)) a = true →
  contains (String c sub) (a +:+ b) = contains (String c sub) b.
Proof.
  induction a as [|x a IH]; [done|].
  cbn [all_chars]. intros H. apply andb_prop in H as [Hx Ha].
  change (String x a +:+ b) with (String x (a +:+ b)).
  cbn [contains startswith]. apply negb_true_iff in Hx. rewrite Hx.
  by apply IH.
Qed.

Lemma digitish_not_letter a :
  digitish a = true → negb (one_of "ANOX" a) = true.
Proof. destruct a as [[] [] [] [] [] [] [] []]; by vm_compute. Qed.

Lemma number_has_no (c : ascii) (n : Z) :
  one_of "ANOX" c = true →
  all_chars (λ x, negb (Ascii.eqb c x)) (str_of_Z n) = true.
Proof.
  intros Hc. eapply all_chars_ext; [|apply str_of_Z_digits].
  intros a Ha. apply digitish_not_letter in Ha.
  apply negb_true_iff. apply negb_true_iff in Ha.
  destruct (Ascii.eqb c a) eqn:E; [|done].
  apply Ascii.eqb_eq in E as ->. congruence.
Qed.

(** [verify_gate_logic] checks nothing for the answers of [detect_gate_type]
    that name no gate: a buffer, an unknown or custom logic, and every table
    of no or of more than three inputs. *)
Theorem unnamed_logic_is_not_verified (tt : truth_table) (num_inputs : Z) :
  detect_gate_type tt num_inputs ∈ ["BUFFER"; "Unknown"; "Custom Logic"; "3-input Logic"]
  ∨ num_inputs < 1 ∨ 3 < num_inputs →
  verify_gate_logic (detect_gate_type tt num_inputs) tt num_inputs = custom_report.
Proof.
  intros [Hin|Hn].
  - apply list_elem_of_In in Hin. simpl in Hin.
    destruct Hin as [E|[E|[E|[E|[]]]]]; by rewrite <- E.
  - assert (E : detect_gate_type tt num_inputs
                = str_of_Z num_inputs +:+ "-input Logic").
    { unfold detect_gate_type.
      destruct (Z.eqb_spec num_inputs 1); [lia|].
      destruct (Z.eqb_spec num_inputs 2); [lia|].
      by destruct (Z.eqb_spec num_inputs 3); [lia|]. }
    rewrite E. unfold verify_gate_logic. cbv beta zeta.
    rewrite !contains_after by (by apply number_has_no).
    reflexivity.
Qed.

Lemma unnamed_logic_is_not_verified_example :
  verify_gate_logic (detect_gate_type and3_table 4) and3_table 4 = custom_report.
Proof. apply (unnamed_logic_is_not_verified and3_table 4). right. right. lia. Defined.

End GateRules.
(** ** The lookup and the samples *)

Section LookupAndSamples.
Import AWaveViewer.

Lemma value_scan_elem values time value :
  value_scan values time value ∈ value :: map snd values.
Proof.
  revert value. induction values as [|[t v] values' IH]; intros value; simpl.
  - apply list_elem_of_here.
  - destruct (t <=? time).
    + apply list_elem_of_further, IH.
    + apply list_elem_of_here.
Qed.

(** The lookup never makes up a value: it answers ["X"] for a record
    without changes and one of the recorded values otherwise. *)
Theorem lookup_returns_a_recorded_value (sig : signal) (time : Z) :
  match sig_values sig with
  | [] => get_signal_value_at_time sig time = "X"
  | _ :: _ => get_signal_value_at_time sig time ∈ map snd (sig_values sig)
  end.
Proof.
  unfold get_signal_value_at_time.
  destruct (sig_values sig) as [|[t0 v0] values] eqn:E; [done|].
  pose proof (value_scan_elem ((t0, v0) :: values) time v0) as H.
  apply elem_of_cons in H as [H|H]; [|exact H].
  rewrite H. apply list_elem_of_here.
Qed.

Lemma value_scan_stops pre t1 v1 post post' time value :
  time < t1 →
  value_scan (pre ++ (t1, v1) :: post) time value
  = value_scan (pre ++ (t1, v1) :: post') time value.
Proof.
  intros Hlt. revert value.
  induction pre as [|[t v] pre' IH]; intros value; simpl.
  - apply Z.leb_gt in Hlt. by rewrite Hlt.
  - destruct (t <=? time); [apply IH|done].
Qed.

(** The lookup stops at the first change that is later than the time asked
    for: the changes recorded behind it are not read, whatever their times
    are. *)
Theorem lookup_stops_at_later_change
    (name full_name : string) (width : Z) (type : string)
    (pre : list (Z * string)) (t1 : Z) (v1 : string) (post post' : list (Z * string))
    (time : Z) :
  time < t1 →
  get_signal_value_at_time
    (Signal name full_name width type (pre ++ (t1, v1) :: post)) time
  = get_signal_value_at_time
      (Signal name full_name width type (pre ++ (t1, v1) :: post')) time.
Proof.
  intros Hlt. unfold get_signal_value_at_time. cbn [sig_values].
  destruct pre as [|[t0 v0] pre'].
  - cbn [app]. by apply (value_scan_stops [] t1 v1).
  - cbn [app]. by apply (value_scan_stops ((t0, v0) :: pre') t1 v1).
Qed.

(** In [unsorted_changes] the change at 10 stands behind the one at 20 and
    is not read at 15. *)
Lemma lookup_stops_at_later_change_example :
  get_signal_value_at_time unsorted_changes 15 = "0"
  ∧ get_signal_value_at_time unsorted_changes 15
    = get_signal_value_at_time (Signal "a" "tb.a" 1 "wire" [(0, "0"); (20, "1")]) 15.
Proof.
  split; [reflexivity|].
  apply (lookup_stops_at_later_change "a" "tb.a" 1 "wire" [(0, "0")] 20 "1"
           [(10, "x")] [] 15).
  lia.
Defined.

(** *** The truth table and the samples *)

(** The [dict] built from the samples maps each combination of inputs to
    the outputs sampled with it, in the order of the samples. *)
Lemma truth_table_data_lookup samples key :
  truth_table_data samples !! key
  = match outputs_of samples key with
    | [] => None
    | outs => Some outs
    end.
Proof.
  unfold truth_table_data.
  assert (Hgen : ∀ done (data : gmap (list string) (list string)),
    (∀ k, data !! k = match outputs_of done k with [] => None | outs => Some outs end) →
    ∀ k, fold_left
           (λ data s, <[s_inputs s := default [] (data !! s_inputs s) ++ [s_output s]]> data)
           samples data !! k
         = match outputs_of (done ++ samples) k with [] => None | outs => Some outs end).
  { induction samples as [|s samples' IH]; intros done data Hdata k.
    - rewrite app_nil_r. apply Hdata.
    - cbn [fold_left].
      replace (done ++ s :: samples') with ((done ++ [s]) ++ samples')
        by (by rewrite <- app_assoc).
      apply IH. intros k'.
      unfold outputs_of. rewrite List.filter_app, map_app. cbn [List.filter].
      destruct (decide (s_inputs s = k')) as [<-|Hne].
      + rewrite lookup_insert_eq, Hdata, bool_decide_eq_true_2 by done.
        unfold outputs_of. cbn [map].
        destruct (map s_output _) as [|o outs]; done.
      + rewrite lookup_insert_ne, Hdata, bool_decide_eq_false_2 by done.
        unfold outputs_of. cbn [map]. by rewrite app_nil_r. }
  apply (Hgen [] ∅). intros k. by rewrite lookup_empty.
Qed.

Lemma outputs_of_elem samples key out :
  out ∈ outputs_of samples key ↔
  ∃ s, s ∈ samples ∧ s_inputs s = key ∧ s_output s = out.
Proof.
  unfold outputs_of. rewrite list_elem_of_fmap. split.
  - intros (s & -> & Hs). apply list_elem_of_In, filter_In in Hs as [Hs Hk].
    apply bool_decide_eq_true in Hk. exists s.
    split; [by apply list_elem_of_In|done].
  - intros (s & Hs & Hk & <-). exists s. split; [done|].
    apply list_elem_of_In, filter_In. split; [by apply list_elem_of_In|].
    by apply bool_decide_eq_true.
Qed.

Lemma logic_samples_elem inputs output s :
  s ∈ logic_samples inputs output ↔
  ∃ time, time ∈ time_points inputs output
          ∧ s = take_sample inputs output time ∧ valid_sample s = true.
Proof.
  unfold logic_samples. split.
  - intros Hs. apply list_elem_of_In, filter_In in Hs as [Hs Hv].
    apply in_map_iff in Hs as (time & <- & Ht). exists time.
    split; [by apply list_elem_of_In|done].
  - intros (time & Ht & -> & Hv). apply list_elem_of_In, filter_In.
    split; [|done]. apply in_map_iff. exists time.
    split; [done|by apply list_elem_of_In].
Qed.

Lemma analyze_last {A} (l : list A) (x : A) :
  last (l ++ [x]) = Some x ∧ removelast (l ++ [x]) = l.
Proof. split; [apply last_snoc|apply removelast_last]. Qed.

(** Every row of the truth table was sampled: for a selection of inputs
    and an output, each row of the table that [analyze_combinational_logic]
    builds has one value per input, and at one of the change times the
    inputs had the values of the row and the output the value it maps to. *)
Theorem truth_table_rows_are_samples
    (set_order : list string → list string)
    (inputs : list (string * signal)) (output : string * signal) (a : analysis) :
  (∀ l x, x ∈ set_order l ↔ x ∈ l) →
  analyze_combinational_logic set_order (inputs ++ [output]) = Some a →
  ∀ key out, a_truth_table a !! key = Some out →
    length key = length inputs
    ∧ ∃ time, time ∈ time_points inputs output
              ∧ map (λ '(sid, sig), get_signal_value_at_time sig time) inputs = key
              ∧ get_signal_value_at_time (snd output) time = out.
Proof.
  intros Hset Ha key out Hlook. unfold analyze_combinational_logic in Ha.
  destruct (analyze_last inputs output) as [Hl Hr]. rewrite Hl, Hr in Ha.
  destruct (logic_samples inputs output) as [|s samples] eqn:E; [done|].
  injection Ha as <-. cbn [a_truth_table] in Hlook.
  unfold consolidate in Hlook. rewrite lookup_fmap, truth_table_data_lookup in Hlook.
  destruct (outputs_of (s :: samples) key) as [|o outs] eqn:Eo; [done|].
  injection Hlook as <-.
  assert (Hin : most_common set_order (o :: outs) ∈ outputs_of (s :: samples) key).
  { rewrite Eo. by apply most_common_elem. }
  apply outputs_of_elem in Hin as (s' & Hs' & Hk & Ho).
  rewrite <- E in Hs'. apply logic_samples_elem in Hs' as (time & Ht & -> & _).
  cbn [take_sample s_inputs s_output] in Hk, Ho. split.
  - by rewrite <- Hk, length_map.
  - by exists time.
Qed.

Lemma truth_table_rows_are_samples_example :
  ∃ a, analyze_combinational_logic first_seen_order and_signals = Some a
       ∧ a_truth_table a !! ["1"; "1"] = Some "1"
       ∧ length ["1"; "1"] = 2%nat
       ∧ ∃ time,
           time ∈ time_points
                    [ ("!", Signal "a" "tb.a" 1 "reg" [(0, "0"); (20, "1")]);
                      ("#", Signal "b" "tb.b" 1 "reg"
                              [(0, "0"); (10, "1"); (20, "0"); (30, "1")]) ]
                    ("$", Signal "y" "tb.y" 1 "wire" [(0, "x"); (5, "0"); (30, "1")])
           ∧ map (λ '(sid, sig), get_signal_value_at_time sig time)
                 [ ("!", Signal "a" "tb.a" 1 "reg" [(0, "0"); (20, "1")]);
                   ("#", Signal "b" "tb.b" 1 "reg"
                           [(0, "0"); (10, "1"); (20, "0"); (30, "1")]) ]
             = ["1"; "1"]
           ∧ get_signal_value_at_time
               (snd ("$", Signal "y" "tb.y" 1 "wire" [(0, "x"); (5, "0"); (30, "1")]))
               time = "1".
Proof.
  eexists. split; [by vm_compute|]. split; [by vm_compute|].
  eapply (truth_table_rows_are_samples first_seen_order
            [ ("!", Signal "a" "tb.a" 1 "reg" [(0, "0"); (20, "1")]);
              ("#", Signal "b" "tb.b" 1 "reg"
                      [(0, "0"); (10, "1"); (20, "0"); (30, "1")]) ]
            ("$", Signal "y" "tb.y" 1 "wire" [(0, "x"); (5, "0"); (30, "1")])
            _ first_seen_order_elem).
  - by vm_compute.
  - by vm_compute.
Defined.

(** Every sample has a row: when the analysis builds a table, each change
    time at which all inputs and the output are 0 or 1 gives a row for the
    values of the inputs at that time. *)
Theorem every_valid_sample_has_a_row
    (set_order : list string → list string)
    (inputs : list (string * signal)) (output : string * signal) (a : analysis)
    (time : Z) :
  analyze_combinational_logic set_order (inputs ++ [output]) = Some a →
  time ∈ time_points inputs output →
  valid_sample (take_sample inputs output time) = true →
  is_Some (a_truth_table a
             !! map (λ '(sid, sig), get_signal_value_at_time sig time) inputs).
Proof.
  intros Ha Ht Hv. unfold analyze_combinational_logic in Ha.
  destruct (analyze_last inputs output) as [Hl Hr]. rewrite Hl, Hr in Ha.
  destruct (logic_samples inputs output) as [|s samples] eqn:E; [done|].
  injection Ha as <-. cbn [a_truth_table].
  unfold consolidate. rewrite lookup_fmap, truth_table_data_lookup.
  assert (Hin : get_signal_value_at_time (snd output) time
                ∈ outputs_of (s :: samples)
                    (map (λ '(sid, sig), get_signal_value_at_time sig time) inputs)).
  { apply outputs_of_elem. exists (take_sample inputs output time).
    split; [|done]. rewrite <- E. apply logic_samples_elem. by exists time. }
  destruct (outputs_of (s :: samples) _) as [|o outs]; [|by eexists].
  by apply elem_of_nil in Hin.
Qed.

Lemma every_valid_sample_has_a_row_example :
  ∃ a, analyze_combinational_logic first_seen_order and_signals = Some a
       ∧ is_Some (a_truth_table a !! ["1"; "0"]).
Proof.
  eexists. split; [by vm_compute|].
  apply (every_valid_sample_has_a_row first_seen_order
           [ ("!", Signal "a" "tb.a" 1 "reg" [(0, "0"); (20, "1")]);
             ("#", Signal "b" "tb.b" 1 "reg"
                     [(0, "0"); (10, "1"); (20, "0"); (30, "1")]) ]
           ("$", Signal "y" "tb.y" 1 "wire" [(0, "x"); (5, "0"); (30, "1")])
           _ 20).
  - by vm_compute.
  - apply list_elem_of_In. vm_compute. tauto.
  - by vm_compute.
Defined.

End LookupAndSamples.
(** ** Invariants of the trace parser *)

Section TraceInvariants.
Import VCDParser.

(** *** The log and the table *)

Lemma log_consistent_fields tsc sigs chgs scopes tsc' scopes' :
  log_consistent (Self tsc sigs chgs scopes) →
  log_consistent (Self tsc' sigs chgs scopes').
Proof. done. Qed.

Lemma log_consistent_declare tsc sigs chgs scopes tsc' scopes' identifier
    name full_name width type :
  log_consistent (Self tsc sigs chgs scopes) →
  log_consistent (Self tsc' (<[identifier := Signal name full_name width type []]> sigs)
                       chgs scopes').
Proof.
  intros [H1 H2]. split; cbn [signals changes] in *.
  - intros time i value Hin. destruct (decide (identifier = i)) as [->|Hne].
    + rewrite lookup_insert_eq. eauto.
    + rewrite lookup_insert_ne by done. eauto.
  - intros i sig time value Hi Hin. destruct (decide (identifier = i)) as [->|Hne].
    + rewrite lookup_insert_eq in Hi. injection Hi as <-. by apply elem_of_nil in Hin.
    + rewrite lookup_insert_ne in Hi by done. eauto.
Qed.

Lemma log_consistent_record st identifier value :
  log_consistent (self st) → log_consistent (self (record_change st identifier value)).
Proof.
  unfold record_change.
  destruct (signals (self st) !! identifier) as [sig|] eqn:E; [|done].
  destruct st as [[tsc sigs chgs scopes] hdr now]. cbn in *.
  intros [H1 H2]. split; cbn [signals changes] in *.
  - intros time i v Hin. apply elem_of_app in Hin as [Hin|Hin].
    + destruct (decide (identifier = i)) as [->|Hne].
      * rewrite lookup_insert_eq. eauto.
      * rewrite lookup_insert_ne by done. eauto.
    + apply list_elem_of_singleton in Hin. injection Hin as -> -> ->.
      rewrite lookup_insert_eq. eauto.
  - intros i sig' time v Hi Hin. apply elem_of_app.
    destruct (decide (identifier = i)) as [->|Hne].
    + rewrite lookup_insert_eq in Hi. injection Hi as <-. cbn [sig_values] in Hin.
      apply elem_of_app in Hin as [Hin|Hin]; [left; eauto|].
      apply list_elem_of_singleton in Hin. injection Hin as -> ->.
      right. apply list_elem_of_here.
    + rewrite lookup_insert_ne in Hi by done. left. eauto.
Qed.

Lemma parse_line_log_consistent st line st' :
  parse_line st line = Some st' →
  log_consistent (self st) → log_consistent (self st').
Proof.
  unfold parse_line. destruct st as [[tsc sigs chgs scopes] hdr now]. simpl.
  intros H.
  repeat match type of H with
         | match ?x with _ => _ end = _ => destruct x eqn:?
         | (if ?b then _ else _) = _ => destruct b eqn:?
         end;
    try discriminate; injection H as <-; simpl; intros Hc; try exact Hc;
    first [ by eapply log_consistent_declare
          | by apply (log_consistent_record (State (Self tsc sigs chgs scopes) hdr now)) ].
Qed.

Lemma parse_lines_log_consistent lines st :
  log_consistent (self st) → log_consistent (self (parse_lines st lines).1).
Proof.
  revert st. induction lines as [|line lines' IH]; intros st Hc; [done|].
  cbn [parse_lines]. destruct (parse_line st line) as [st'|] eqn:E; [|done].
  apply IH. by eapply parse_line_log_consistent.
Qed.

(** [parse] keeps the change log and the signal table of the instance in
    agreement, also when it is left by an exception: every change of the log
    names a registered identifier, and every change recorded in a signal is
    in the log with the identifier of the signal. *)
Theorem parse_keeps_log_consistent (s : t) (file : option (list string)) :
  log_consistent s → log_consistent (parse s file).1.
Proof.
  intros Hc. unfold parse. destruct file as [lines|]; [|done].
  pose proof (parse_lines_log_consistent lines (State s true 0) Hc) as H.
  by destruct (parse_lines (State s true 0) lines) as [st raised].
Qed.

Lemma parse_keeps_log_consistent_example :
  log_consistent (parse init (Some trace_a)).1.
Proof.
  apply (parse_keeps_log_consistent init (Some trace_a)).
  split.
  - intros time identifier value Hin. by apply elem_of_nil in Hin.
  - intros identifier sig time value Hi. unfold init in Hi. simpl in Hi.
    by rewrite lookup_empty in Hi.
Defined.

(** *** The header *)

Lemma parse_line_in_header st line st' :
  parse_line st line = Some st' →
  in_header st = true → startswith "$enddefinitions" (strip line) = false →
  in_header st' = true
  ∧ changes (self st') = changes (self st)
  ∧ (∀ identifier sig,
        signals (self st') !! identifier = Some sig →
        sig_values sig = [] ∨ signals (self st) !! identifier = Some sig).
Proof.
  unfold parse_line. destruct st as [[tsc sigs chgs scopes] hdr now].
  cbn [self in_header current_time signals changes timescale scope_hierarchy set_self].
  intros H -> Hnot.
  destruct (strip line) as [|line0 line_tail] eqn:Es.
  { injection H as <-. cbn. auto. }
  rewrite Hnot in H. cbn [negb] in H.
  repeat match type of H with
         | match ?x with _ => _ end = _ => destruct x eqn:?
         | (if ?b then _ else _) = _ => destruct b eqn:?
         end;
    try discriminate; injection H as <-;
    cbn [self in_header current_time signals changes timescale scope_hierarchy set_self];
    (split; [done|]); (split; [done|]); auto.
  intros identifier sig Hi. destruct (decide (s2 = identifier)) as [->|Hne].
  - rewrite lookup_insert_eq in Hi. injection Hi as <-. by left.
  - rewrite lookup_insert_ne in Hi by done. by right.
Qed.

(** No change is recorded before the line [$enddefinitions]: on a file
    without such a line, [parse] leaves the change log as it was, and every
    signal of the table has the changes it had before or, when the file
    declares it, none. *)
Theorem no_change_before_enddefinitions (s : t) (lines : list string) :
  Forall (λ line, startswith "$enddefinitions" (strip line) = false) lines →
  changes (parse s (Some lines)).1 = changes s
  ∧ (∀ identifier sig,
        signals (parse s (Some lines)).1 !! identifier = Some sig →
        sig_values sig = [] ∨ signals s !! identifier = Some sig).
Proof.
  intros Hall. unfold parse.
  assert (Hgen : ∀ st, in_header st = true →
            changes (self (parse_lines st lines).1) = changes (self st)
            ∧ (∀ identifier sig,
                  signals (self (parse_lines st lines).1) !! identifier = Some sig →
                  sig_values sig = [] ∨ signals (self st) !! identifier = Some sig)).
  { induction Hall as [|line lines' Hline _ IH]; intros st Hhdr; [by auto|].
    cbn [parse_lines]. destruct (parse_line st line) as [st'|] eqn:E; [|by auto].
    destruct (parse_line_in_header _ _ _ E Hhdr Hline) as (Hhdr' & Hc & Hs).
    destruct (IH st' Hhdr') as [IHc IHs]. split; [congruence|].
    intros identifier sig Hi. destruct (IHs _ _ Hi) as [?|Hi']; [by left|].
    by apply Hs. }
  specialize (Hgen (State s true 0) eq_refl).
  by destruct (parse_lines (State s true 0) lines) as [st raised].
Qed.

Lemma no_change_before_enddefinitions_example :
  changes (parse init (Some open_header)).1 = changes init
  ∧ (∀ identifier sig,
        signals (parse init (Some open_header)).1 !! identifier = Some sig →
        sig_values sig = [] ∨ signals init !! identifier = Some sig).
Proof.
  apply (no_change_before_enddefinitions init open_header).
  repeat constructor.
Defined.

(** *** The order of the times *)

Lemma ascending_cons t l :
  ascending (t :: l) = true → ascending l = true ∧ Forall (λ x, t <= x) l.
Proof.
  revert t. induction l as [|x l IH]; intros t H; [by split|].
  cbn [ascending] in H. apply andb_prop in H as [Htx Hl].
  apply Z.leb_le in Htx. split; [exact Hl|].
  constructor; [exact Htx|].
  destruct (IH x Hl) as [_ Hall].
  eapply Forall_impl; [exact Hall|]. intros y Hy. simpl in Hy. lia.
Qed.

Lemma ascending_intro t l :
  ascending l = true → Forall (λ x, t <= x) l → ascending (t :: l) = true.
Proof.
  intros Hl Hall. destruct l as [|x l]; [done|].
  cbn [ascending]. inversion Hall as [|? ? Hx _]; subst.
  apply andb_true_intro. split; [by apply Z.leb_le|exact Hl].
Qed.

Lemma ascending_snoc l now t :
  ascending (l ++ [now]) = true → now <= t → ascending ((l ++ [now]) ++ [t]) = true.
Proof.
  revert now. induction l as [|x l IH]; intros now H Ht.
  - cbn. apply andb_true_intro. split; [by apply Z.leb_le|done].
  - cbn [app] in *. destruct (ascending_cons _ _ H) as [Hl Hall].
    apply ascending_intro; [by apply IH|].
    apply Forall_app. split; [exact Hall|].
    constructor; [|constructor].
    apply Forall_app in Hall as [_ Hnow]. inversion Hnow; subst. lia.
Qed.

Lemma ascending_later l now t :
  ascending (l ++ [now]) = true → now <= t → ascending (l ++ [t]) = true.
Proof.
  revert now. induction l as [|x l IH]; intros now H Ht; [done|].
  cbn [app] in *. destruct (ascending_cons _ _ H) as [Hl Hall].
  apply ascending_intro; [by eapply IH|].
  apply Forall_app in Hall as [Hall Hnow]. apply Forall_app. split; [exact Hall|].
  constructor; [|constructor]. inversion Hnow; subst. lia.
Qed.

Lemma ascending_init l now : ascending (l ++ [now]) = true → ascending l = true.
Proof.
  induction l as [|x l IH]; [done|].
  cbn [app]. intros H. destruct (ascending_cons _ _ H) as [Hl Hall].
  apply ascending_intro; [by apply IH|]. by apply Forall_app in Hall as [? _].
Qed.

Lemma nondecreasing_ascending values :
  nondecreasing values = ascending (map fst values).
Proof.
  induction values as [|[t1 v1] [|[t2 v2] values] IH]; [done..|].
  cbn [nondecreasing ascending map fst] in *. by rewrite IH.
Qed.

Lemma markers_cons line lines :
  markers (line :: lines)
  = match marker line with
    | Some time => time :: markers lines
    | None => markers lines
    end.
Proof. reflexivity. Qed.

Lemma markers_drop now line lines :
  ascending (now :: markers (line :: lines)) = true →
  ascending (now :: markers lines) = true.
Proof.
  rewrite markers_cons. destruct (marker line) as [time|]; [|done].
  intros H. destruct (ascending_cons _ _ H) as [H' Hall].
  destruct (ascending_cons _ _ H') as [H'' _].
  apply ascending_intro; [exact H''|]. by inversion Hall.
Qed.

Lemma time_bounded_fields now tsc sigs chgs scopes tsc' scopes' :
  time_bounded now (Self tsc sigs chgs scopes) →
  time_bounded now (Self tsc' sigs chgs scopes').
Proof. done. Qed.

Lemma time_bounded_declare now tsc sigs chgs scopes tsc' scopes' identifier
    name full_name width type :
  time_bounded now (Self tsc sigs chgs scopes) →
  time_bounded now (Self tsc' (<[identifier := Signal name full_name width type []]> sigs)
                         chgs scopes').
Proof.
  intros [H1 H2]. split; [exact H1|]. cbn [signals] in *.
  intros i sig Hi. destruct (decide (identifier = i)) as [->|Hne].
  - rewrite lookup_insert_eq in Hi. by injection Hi as <-.
  - rewrite lookup_insert_ne in Hi by done. eauto.
Qed.

Lemma time_bounded_record st identifier value :
  time_bounded (current_time st) (self st) →
  time_bounded (current_time st) (self (record_change st identifier value)).
Proof.
  unfold record_change.
  destruct (signals (self st) !! identifier) as [sig|] eqn:E; [|done].
  destruct st as [[tsc sigs chgs scopes] hdr now]. cbn in *.
  intros [H1 H2]. split; cbn [signals changes] in *.
  - unfold log_times in *. rewrite map_app. cbn [map fst].
    apply ascending_snoc; [exact H1|lia].
  - intros i sig' Hi. destruct (decide (identifier = i)) as [->|Hne].
    + rewrite lookup_insert_eq in Hi. injection Hi as <-. cbn [sig_values].
      rewrite map_app. cbn [map fst]. apply ascending_snoc; [by eapply H2|lia].
    + rewrite lookup_insert_ne in Hi by done. eauto.
Qed.

Lemma record_change_time st identifier value :
  current_time (record_change st identifier value) = current_time st.
Proof.
  unfold record_change. by destruct (signals (self st) !! identifier).
Qed.

Lemma time_bounded_later now time s :
  time_bounded now s → now <= time → time_bounded time s.
Proof.
  intros [H1 H2] Hle. split.
  - by eapply ascending_later.
  - intros i sig Hi. eapply ascending_later; [by eapply H2|done].
Qed.

Lemma parse_line_time_bounded st line lines st' :
  parse_line st line = Some st' →
  ascending (current_time st :: markers (line :: lines)) = true →
  time_bounded (current_time st) (self st) →
  ascending (current_time st' :: markers lines) = true
  ∧ time_bounded (current_time st') (self st').
Proof.
  unfold parse_line. destruct st as [[tsc sigs chgs scopes] hdr now].
  cbn [self in_header current_time signals changes timescale scope_hierarchy set_self].
  intros H Hm Hb. pose proof (markers_drop _ _ _ Hm) as Hm'.
  destruct (strip line) as [|line0 line_tail] eqn:Es.
  { injection H as <-. by split. }
  repeat match type of H with
         | match ?x with _ => _ end = _ => destruct x eqn:?
         | (if ?b then _ else _) = _ => destruct b eqn:?
         end;
    try discriminate; injection H as <-;
    rewrite ?record_change_time;
    cbn [self in_header current_time signals changes timescale scope_hierarchy set_self];
    try (split; [exact Hm'|]);
    first [ exact Hb
          | by eapply time_bounded_declare
          | by apply (time_bounded_record (State (Self tsc sigs chgs scopes) hdr now))
          | idtac ].
  (* the time marker *)
  assert (Hmark : marker line = Some z).
  { unfold marker. rewrite Es.
    cbn [startswith] in *.
    destruct (Ascii.eqb_spec "#" line0) as [<-|]; [done|done]. }
  rewrite markers_cons, Hmark in Hm.
  destruct (ascending_cons _ _ Hm) as [Hm2 Hall].
  split; [exact Hm2|].
  eapply time_bounded_later; [exact Hb|]. by inversion Hall.
Qed.

Lemma parse_lines_time_bounded lines st :
  ascending (current_time st :: markers lines) = true →
  time_bounded (current_time st) (self st) →
  ∃ now, time_bounded now (self (parse_lines st lines).1).
Proof.
  revert st. induction lines as [|line lines' IH]; intros st Hm Hb; [by eexists|].
  cbn [parse_lines]. destruct (parse_line st line) as [st'|] eqn:E; [|by eexists].
  destruct (parse_line_time_bounded _ _ _ _ E Hm Hb) as [Hm' Hb'].
  by apply IH.
Qed.

Lemma time_bounded_init : time_bounded 0 init.
Proof.
  split; [done|]. intros i sig Hi. unfold init in Hi. simpl in Hi.
  by rewrite lookup_empty in Hi.
Qed.

(** When the times of the time markers of a file do not decrease, from 0
    on, the times of the change log of a new instance that parses it do not
    decrease, and neither do the times of the changes of any signal: the
    signal records are those that [get_signal_value_at_time] reads by the
    time. *)
Theorem ordered_markers_give_ordered_records (lines : list string) :
  ascending (0 :: markers lines) = true →
  ascending (log_times (changes (parse init (Some lines)).1)) = true
  ∧ (∀ identifier sig,
        signals (parse init (Some lines)).1 !! identifier = Some sig →
        nondecreasing (sig_values sig) = true).
Proof.
  intros Hm. unfold parse.
  destruct (parse_lines_time_bounded lines (State init true 0))
    as (now & H1 & H2); [exact Hm|apply time_bounded_init|].
  destruct (parse_lines (State init true 0) lines) as [st raised]. cbn [fst] in *.
  split.
  - by eapply ascending_init.
  - intros i sig Hi. rewrite nondecreasing_ascending.
    eapply ascending_init. by eapply H2.
Qed.

Lemma ordered_markers_give_ordered_records_example :
  ascending (log_times (changes (parse init (Some trace_a)).1)) = true
  ∧ (∀ identifier sig,
        signals (parse init (Some trace_a)).1 !! identifier = Some sig →
        nondecreasing (sig_values sig) = true).
Proof. apply (ordered_markers_give_ordered_records trace_a). by vm_compute. Defined.

End TraceInvariants.
(** ** Comments and validity *)

Section CommentsAndValidity.
Import VerilogSyntaxChecker.

(** *** The removal of line comments *)

Lemma split_on_nonempty sep s : split_on sep s ≠ [].
Proof.
  destruct s as [|a s]; [done|]. cbn [split_on].
  destruct (Ascii.eqb a sep); [done|]. by destruct (split_on sep s).
Qed.

Lemma line_count_cons a s :
  line_count (String a s) = if is_newline a then S (line_count s) else line_count s.
Proof.
  unfold line_count, is_newline. cbn [split_on].
  destruct (Ascii.eqb a newline); [done|].
  pose proof (split_on_nonempty newline s).
  by destruct (split_on newline s).
Qed.

Lemma uncomment_line_count st s : line_count (uncomment st s) = line_count s.
Proof.
  revert st. induction s as [|a s IH]; intros st; [by destruct st|].
  cbn [uncomment]. rewrite (line_count_cons a s). destruct st.
  - destruct (is_newline a) eqn:E; [|apply IH].
    by rewrite line_count_cons, E, IH.
  - destruct (is_slash a && startswith "/" s) eqn:E.
    + apply andb_prop in E as [Ea _]. unfold is_slash in Ea.
      apply Ascii.eqb_eq in Ea as ->. apply IH.
    + by rewrite line_count_cons, IH.
Qed.

Lemma is_slash_eqb a : Ascii.eqb "/" a = is_slash a.
Proof. unfold is_slash. apply Ascii.eqb_sym. Qed.

(** After a slash that is kept comes the character that came after it. *)
Lemma uncomment_after_slash (c : ascii) s :
  startswith "/" s = false →
  startswith (String c EmptyString) (uncomment false s)
  = startswith (String c EmptyString) s.
Proof.
  intros Hs. destruct s as [|b s]; [done|].
  cbn [startswith] in Hs. rewrite andb_true_r, is_slash_eqb in Hs.
  cbn [uncomment]. by rewrite Hs.
Qed.

(** No line comment is left. *)
Lemma uncomment_no_line_comment st s : contains "//" (uncomment st s) = false.
Proof.
  revert st. induction s as [|a s IH]; intros st; [by destruct st|].
  cbn [uncomment]. destruct st.
  - destruct (is_newline a) eqn:E; [|apply IH].
    unfold is_newline in E. apply Ascii.eqb_eq in E as ->.
    cbn [contains startswith]. by rewrite IH.
  - destruct (is_slash a && startswith "/" s) eqn:E; [apply IH|].
    cbn [contains]. rewrite IH, orb_false_r.
    cbn [startswith]. rewrite is_slash_eqb.
    destruct (is_slash a) eqn:Ea; [|done]. cbn [andb] in *.
    change (startswith "/" (uncomment false s) = false).
    by rewrite (uncomment_after_slash "/" s E).
Qed.

(** No block comment is made. *)
Lemma uncomment_no_block_comment st s :
  contains "/*" s = false → contains "/*" (uncomment st s) = false.
Proof.
  revert st. induction s as [|a s IH]; intros st H; [by destruct st|].
  cbn [contains] in H. apply orb_false_elim in H as [Hs Hc].
  cbn [uncomment]. destruct st.
  - destruct (is_newline a) eqn:E; [|by apply IH].
    unfold is_newline in E. apply Ascii.eqb_eq in E as ->.
    cbn [contains startswith]. by rewrite IH.
  - destruct (is_slash a && startswith "/" s) eqn:E; [by apply IH|].
    cbn [contains]. rewrite IH, orb_false_r by done.
    cbn [startswith] in *. rewrite is_slash_eqb in *.
    destruct (is_slash a) eqn:Ea; [|done]. cbn [andb] in *.
    change (startswith "*" (uncomment false s) = false).
    by rewrite (uncomment_after_slash "*" s E).
Qed.

(** A text without a line comment is left as it is. *)
Lemma uncomment_nothing s : contains "//" s = false → uncomment false s = s.
Proof.
  induction s as [|a s IH]; [done|].
  cbn [contains]. intros H. apply orb_false_elim in H as [Hs Hc].
  cbn [uncomment]. cbn [startswith] in Hs. rewrite is_slash_eqb in Hs.
  change (is_slash a && startswith "/" s = false) in Hs.
  by rewrite Hs, IH.
Qed.

Lemma remove_comments_line_comments s :
  contains "/*" s = false → _remove_comments s = uncomment false s.
Proof.
  intros H. unfold _remove_comments. rewrite re_sub_line_comment.
  apply re_sub_block_comment_none. by apply uncomment_no_block_comment.
Qed.

(** The removal of the comments of a text without block comments keeps the
    lines apart: the text without its comments has as many lines as the
    text, so the line numbers of the messages of [check_syntax] are those of
    the text. *)
Theorem remove_comments_keeps_lines (s : string) :
  contains "/*" s = false →
  line_count (_remove_comments s) = line_count s.
Proof.
  intros H. rewrite remove_comments_line_comments by done.
  apply uncomment_line_count.
Qed.

Lemma remove_comments_keeps_lines_example :
  line_count (_remove_comments commented_lines) = line_count commented_lines.
Proof. apply (remove_comments_keeps_lines commented_lines). by vm_compute. Defined.

(** On a text without block comments, [_remove_comments] leaves no line
    comment behind, and removing the comments again changes nothing. *)
Theorem remove_comments_is_complete (s : string) :
  contains "/*" s = false →
  contains "//" (_remove_comments s) = false
  ∧ _remove_comments (_remove_comments s) = _remove_comments s.
Proof.
  intros H. rewrite remove_comments_line_comments by done.
  split; [apply uncomment_no_line_comment|].
  rewrite remove_comments_line_comments by (by apply uncomment_no_block_comment).
  apply uncomment_nothing, uncomment_no_line_comment.
Qed.

Lemma remove_comments_is_complete_example :
  contains "//" (_remove_comments commented_lines) = false
  ∧ _remove_comments (_remove_comments commented_lines)
    = _remove_comments commented_lines.
Proof. apply (remove_comments_is_complete commented_lines). by vm_compute. Defined.

(** *** Validity *)

Lemma depth_nonneg opening closing s d d' :
  0 <= d → depth opening closing s d = Some d' → 0 <= d'.
Proof.
  revert d. induction s as [|a s IH]; intros d Hd H.
  - simpl in H. injection H as <-. done.
  - cbn [depth] in H. destruct (Ascii.eqb a opening).
    + apply (IH (d + 1)); [lia|done].
    + destruct (Ascii.eqb a closing); [|by apply (IH d)].
      destruct (Z.ltb_spec (d - 1) 0); [done|]. by apply (IH (d - 1)).
Qed.

(** A text whose balance falls below zero gives a message about a closing
    character. *)
Lemma scan_lines_none opening closing unmatched s line_num d :
  opening ≠ newline → closing ≠ newline →
  depth opening closing s d = None →
  (scan_lines opening closing unmatched (split_on newline s) line_num d).2 ≠ [].
Proof.
  intros Ho Hc. revert line_num d.
  induction s as [|a s IH]; intros line_num d H; [done|].
  cbn [split_on]. destruct (Ascii.eqb a newline) eqn:En.
  - apply Ascii.eqb_eq in En as ->.
    cbn [depth] in H.
    destruct (Ascii.eqb newline opening) eqn:E1.
    { apply Ascii.eqb_eq in E1. by destruct Ho. }
    destruct (Ascii.eqb newline closing) eqn:E2.
    { apply Ascii.eqb_eq in E2. by destruct Hc. }
    cbn [scan_lines scan_line].
    specialize (IH (S line_num) d H).
    by destruct (scan_lines opening closing unmatched (split_on newline s)
                   (S line_num) d).
  - cbn [depth] in H.
    pose proof (split_on_nonempty newline s) as Hne.
    destruct (split_on newline s) as [|p ps] eqn:Esplit; [done|]. clear Hne.
    assert (Hnext : ∀ d1, depth opening closing s d1 = None →
              scan_line opening closing (String a p) d = scan_line opening closing p d1 →
              (scan_lines opening closing unmatched (String a p :: ps) line_num d).2 ≠ []).
    { intros d1 Hd1 Heq. specialize (IH line_num d1 Hd1).
      cbn [scan_lines] in *. rewrite Heq.
      by destruct (scan_line opening closing p d1). }
    destruct (Ascii.eqb a opening) eqn:E1.
    + apply (Hnext (d + 1) H). cbn [scan_line]. by rewrite E1.
    + destruct (Ascii.eqb a closing) eqn:E2.
      * destruct (d - 1 <? 0) eqn:Eneg.
        -- cbn [scan_lines scan_line]. rewrite E1, E2, Eneg.
           by destruct (scan_lines opening closing unmatched ps (S line_num) (d - 1)).
        -- apply (Hnext (d - 1) H). cbn [scan_line]. by rewrite E1, E2, Eneg.
      * apply (Hnext d H). cbn [scan_line]. by rewrite E1, E2.
Qed.

(** The checks 7 and 8 give no message exactly for the texts in which every
    closing character closes an opening one and no opening one is left. *)
Lemma check_balance_iff opening closing unmatched unclosed code :
  opening ≠ newline → closing ≠ newline →
  check_balance opening closing unmatched unclosed code = []
  ↔ depth opening closing code 0 = Some 0.
Proof.
  intros Ho Hc. split; [|by apply check_balance_depth].
  unfold check_balance. intros H.
  destruct (depth opening closing code 0) as [d'|] eqn:Ed.
  - rewrite (scan_lines_depth _ _ unmatched _ O _ _ Ho Hc Ed) in H.
    cbn [app] in H. pose proof (depth_nonneg _ _ _ _ _ (Z.le_refl 0) Ed).
    destruct (Z.ltb_spec 0 d'); [done|]. f_equal. lia.
  - pose proof (scan_lines_none _ _ unmatched _ O _ Ho Hc Ed) as Hne.
    destruct (scan_lines opening closing unmatched (split_on newline code) 0 0)
      as [balance errs]. cbn [snd] in Hne.
    by apply app_eq_nil in H as [? _].
Qed.

Lemma one_message_nil (condition : bool) (message : string) :
  (if negb condition then [message] else []) = [] ↔ condition = true.
Proof. by destruct condition. Qed.

(** [check_syntax] answers valid exactly for the texts in which, without
    their comments, a module declaration is found, [module] and [endmodule],
    [case] and [endcase], [function] and [endfunction], [task] and [endtask]
    are counted as often, and the parentheses and the brackets are balanced:
    none is closed before it is opened and none is left open. *)
Theorem validity_is_balance (verilog_code : string) :
  (check_syntax verilog_code).1 = true
  ↔ (let code := _remove_comments verilog_code in
     found re_module_decl code = true
     ∧ re_count re_module code = re_count (re_keyword "endmodule") code
     ∧ re_count re_case code = re_count (re_keyword "endcase") code
     ∧ re_count (re_keyword "function") code = re_count (re_keyword "endfunction") code
     ∧ re_count (re_keyword "task") code = re_count (re_keyword "endtask") code
     ∧ depth "(" ")" code 0 = Some 0
     ∧ depth "[" "]" code 0 = Some 0).
Proof.
  unfold check_syntax. cbv zeta. cbn [fst].
  set (code := _remove_comments verilog_code).
  rewrite Nat.eqb_eq, length_zero_iff_nil.
  unfold errors_of. cbv zeta.
  rewrite !app_nil, !one_message_nil, !Nat.eqb_eq, !check_balance_iff by done.
  tauto.
Qed.

End CommentsAndValidity.
(** ** What [parse_module] extracts *)

Section Extraction.
Import VerilogSyntaxChecker VerilogParser.

#[local] Arguments rmatch : simpl never.
#[local] Arguments star_loop : simpl never.

(** *** Widths *)

Lemma port_of_match_consistent m : consistent (port_of_match m) = true.
Proof.
  unfold port_of_match, consistent, range_width.
  destruct (has_range m); cbn [p_width p_msb p_lsb]; [apply Z.eqb_refl|done].
Qed.

Lemma add_ports_consistent matches ports :
  forallb consistent ports = true →
  forallb consistent (add_ports matches ports) = true.
Proof.
  revert ports. induction matches as [|m matches IH]; intros ports H; [done|].
  cbn [add_ports]. destruct (named _ _); [by apply IH|].
  apply IH. rewrite forallb_app, H. cbn [forallb andb].
  by rewrite (port_of_match_consistent m).
Qed.


(** *** Texts without the words looked for *)

Lemma match_at_lit_none w r p s :
  w ≠ EmptyString → startswith w s = false → match_at (RSeq (RLit w) r) p s = None.
Proof.
  intros Hw Hs. unfold match_at. rewrite rmatch_seq, rmatch_lit by done.
  cbn [rest]. by rewrite Hs.
Qed.

Lemma search_lit_none w r p s :
  w ≠ EmptyString → contains w s = false → search_from (RSeq (RLit w) r) p s = None.
Proof.
  intros Hw. revert p. induction s as [|a s IH]; intros p H.
  - cbn [contains] in H. apply orb_false_elim in H as [Hs _].
    cbn [search_from]. by rewrite match_at_lit_none.
  - cbn [contains] in H. apply orb_false_elim in H as [Hs Hc].
    cbn [search_from]. rewrite match_at_lit_none by done. by apply IH.
Qed.

Lemma finditer_lit_none w r p s skip :
  w ≠ EmptyString → contains w s = false →
  finditer_from (RSeq (RLit w) r) p s skip = [].
Proof.
  intros Hw. revert p skip. induction s as [|a s IH]; intros p skip H.
  - cbn [contains] in H. apply orb_false_elim in H as [Hs _].
    destruct skip; cbn [finditer_from]; [|done]. by rewrite match_at_lit_none.
  - cbn [contains] in H. apply orb_false_elim in H as [Hs Hc].
    destruct skip; cbn [finditer_from]; [|by apply IH].
    rewrite match_at_lit_none by done. by apply IH.
Qed.

(** A text in which the word [module] does not occur gives the empty name,
    and a text in which the word [parameter] does not occur gives no
    parameter. *)
Theorem parse_module_of_missing_words (verilog_code : string) :
  (contains "module" verilog_code = false →
   mi_name (parse_module verilog_code) = EmptyString)
  ∧ (contains "parameter" verilog_code = false →
     mi_parameters (parse_module verilog_code) = []).
Proof.
  unfold parse_module. cbv zeta. cbn [mi_name mi_parameters]. split; intros H.
  - unfold re_search, re_module_name, RSeqs. by rewrite search_lit_none.
  - unfold re_finditer, param_pattern, RSeqs. by rewrite finditer_lit_none.
Qed.

Lemma parse_module_of_missing_words_example :
  mi_name (parse_module wires_only) = EmptyString
  ∧ mi_parameters (parse_module wires_only) = [].
Proof.
  destruct (parse_module_of_missing_words wires_only) as [Hname Hparams].
  split; [apply Hname|apply Hparams]; by vm_compute.
Defined.

End Extraction.
(** ** The blocks of a testbench *)

Section TestbenchBlocks.
Import VerilogSyntaxChecker TestbenchGenerator.

Lemma has_first_filter (f : port → bool) l :
  has_first (List.filter f l) = existsb f l.
Proof.
  induction l as [|x l IH]; [done|].
  cbn [List.filter existsb]. by destruct (f x).
Qed.

(** The testbench of a plain module, without its comments, has one
    [module] and one [endmodule], and a [begin] and an [end] for each of its
    blocks: the stimulus, its loop, the monitor and the dump, and the clock
    and the reset block when an input is named as a clock or as a reset.
    It has no [case], [function] or [task]. *)
Theorem testbench_has_its_blocks (mi : module_info) (test_vectors : Z) :
  plain_module mi = true →
  let code := _remove_comments (generate_testbench mi test_vectors) in
  let blocks :=
    (4 + (if existsb is_clock (mi_inputs mi) then 1 else 0)
       + (if existsb is_reset (mi_inputs mi) then 1 else 0))%nat in
  re_count re_module code = 1%nat
  ∧ re_count (re_keyword "endmodule") code = 1%nat
  ∧ re_count (re_keyword "begin") code = blocks
  ∧ re_count (re_keyword "end") code = blocks
  ∧ re_count re_case code = O
  ∧ re_count (re_keyword "endcase") code = O
  ∧ re_count (re_keyword "function") code = O
  ∧ re_count (re_keyword "endfunction") code = O
  ∧ re_count (re_keyword "task") code = O
  ∧ re_count (re_keyword "endtask") code = O.
Proof.
  intros Hplain. cbv zeta.
  rewrite remove_comments_testbench, <- !has_first_filter by done.
  by apply testbench_counts.
Qed.

Lemma testbench_has_its_blocks_example :
  let code := _remove_comments (generate_testbench counter_plain 100) in
  re_count re_module code = 1%nat
  ∧ re_count (re_keyword "endmodule") code = 1%nat
  ∧ re_count (re_keyword "begin") code = 6%nat
  ∧ re_count (re_keyword "end") code = 6%nat
  ∧ re_count re_case code = O
  ∧ re_count (re_keyword "endcase") code = O
  ∧ re_count (re_keyword "function") code = O
  ∧ re_count (re_keyword "endfunction") code = O
  ∧ re_count (re_keyword "task") code = O
  ∧ re_count (re_keyword "endtask") code = O.
Proof. apply (testbench_has_its_blocks counter_plain 100). by vm_compute. Defined.

End TestbenchBlocks.
(** ** Texts, numbers and lines *)

Section Texts.

(** *** Reversal and stripping *)

Lemma rev_onto_app s acc : rev_onto s acc = str_rev s +:+ acc.
Proof.
  unfold str_rev. revert acc. induction s as [|c s IH]; intros acc; [done|].
  cbn [rev_onto]. rewrite (IH (String c acc)), (IH (String c EmptyString)).
  by rewrite str_app_assoc.
Qed.

Lemma str_rev_cons c s : str_rev (String c s) = str_rev s +:+ String c EmptyString.
Proof. unfold str_rev at 1. cbn [rev_onto]. apply rev_onto_app. Qed.

Lemma str_rev_app a b : str_rev (a +:+ b) = str_rev b +:+ str_rev a.
Proof.
  induction a as [|c a IH]; [by rewrite str_app_nil_r|].
  change (String c a +:+ b) with (String c (a +:+ b)).
  by rewrite !str_rev_cons, IH, str_app_assoc.
Qed.

Lemma str_rev_involutive s : str_rev (str_rev s) = s.
Proof.
  induction s as [|c s IH]; [done|].
  by rewrite str_rev_cons, str_rev_app, IH.
Qed.

Lemma all_chars_rev P s : all_chars P (str_rev s) = all_chars P s.
Proof.
  induction s as [|c s IH]; [done|].
  rewrite str_rev_cons, all_chars_app, IH. cbn [all_chars].
  rewrite andb_true_r. apply andb_comm.
Qed.

Lemma lstrip_keep s : starts_nonspace s = true → lstrip s = s.
Proof.
  destruct s as [|c s]; [done|]. cbn [starts_nonspace lstrip]. unfold not_space.
  intros H. apply negb_true_iff in H. by rewrite H.
Qed.

Lemma strip_keep s :
  starts_nonspace s = true → starts_nonspace (str_rev s) = true → strip s = s.
Proof.
  intros H1 H2. unfold strip. by rewrite (lstrip_keep s), lstrip_keep, str_rev_involutive.
Qed.

(** The line feed at the end of a line is stripped. *)
Lemma strip_line body :
  body ≠ EmptyString → starts_nonspace body = true →
  strip (body +:+ String newline EmptyString) = strip body.
Proof.
  intros Hne H. unfold strip.
  rewrite (lstrip_keep body) by done.
  rewrite (lstrip_keep (body +:+ _)) by (by destruct body).
  rewrite str_rev_app. reflexivity.
Qed.

Lemma starts_nonspace_all s : all_chars not_space s = true → starts_nonspace s = true.
Proof. destruct s as [|c s]; [done|]. cbn. intros H. by apply andb_prop in H as [? _]. Qed.

Lemma strip_nospace s : all_chars not_space s = true → strip s = s.
Proof.
  intros H. apply strip_keep; apply starts_nonspace_all; [done|].
  by rewrite all_chars_rev.
Qed.

(** The first character of a text that does not start with white space is
    the first character of what [strip] leaves. *)
Lemma strip_head c s :
  is_space c = false → ∃ tail, strip (String c s) = String c tail.
Proof.
  intros Hc. unfold strip. cbn [lstrip]. rewrite Hc.
  rewrite str_rev_cons.
  set (r := str_rev s).
  assert (H : ∀ r, ∃ t, lstrip (r +:+ String c EmptyString) = t +:+ String c EmptyString).
  { clear r. intros r. induction r as [|x r IH].
    - exists EmptyString. cbn. by rewrite Hc.
    - change (String x r +:+ String c EmptyString)
        with (String x (r +:+ String c EmptyString)).
      cbn [lstrip]. destruct (is_space x); [exact IH|].
      by exists (String x r). }
  destruct (H r) as [t ->]. rewrite str_rev_app. by eexists.
Qed.

(** *** Splitting at white space *)

Lemma split_ws_go_word w s cur :
  all_chars not_space w = true →
  split_ws_go (w +:+ s) cur = split_ws_go s (rev_onto w cur).
Proof.
  revert cur. induction w as [|c w IH]; intros cur H; [done|].
  cbn [all_chars] in H. apply andb_prop in H as [Hc Hw].
  change (String c w +:+ s) with (String c (w +:+ s)).
  cbn [split_ws_go rev_onto]. unfold not_space in Hc.
  apply negb_true_iff in Hc. rewrite Hc. by apply IH.
Qed.

Lemma split_ws_word w s :
  w ≠ EmptyString → all_chars not_space w = true →
  split_ws_go (w +:+ String " " s) EmptyString = w :: split_ws_go s EmptyString.
Proof.
  intros Hne Hw. rewrite split_ws_go_word by done.
  rewrite rev_onto_app, str_app_nil_r.
  cbn [split_ws_go]. change (is_space " ") with true. cbv iota.
  destruct (str_rev w) as [|c r] eqn:E.
  - apply (f_equal str_rev) in E. rewrite str_rev_involutive in E. by subst.
  - by rewrite <- E, str_rev_involutive.
Qed.

Lemma split_ws_last w :
  w ≠ EmptyString → all_chars not_space w = true →
  split_ws_go w EmptyString = [w].
Proof.
  intros Hne Hw. rewrite <- (str_app_nil_r w) at 1.
  rewrite split_ws_go_word by done.
  rewrite rev_onto_app, str_app_nil_r. cbn [split_ws_go].
  destruct (str_rev w) as [|c r] eqn:E.
  - apply (f_equal str_rev) in E. rewrite str_rev_involutive in E. by subst.
  - by rewrite <- E, str_rev_involutive.
Qed.

(** *** Numbers *)

Lemma pretty_N_char_value d :
  (d < 10)%N → digit_val (pretty_N_char d) = Z.of_N d.
Proof.
  intros H.
  assert (Hd : d ∈ [0; 1; 2; 3; 4; 5; 6; 7; 8; 9]%N).
  { apply list_elem_of_In. simpl. lia. }
  apply list_elem_of_In in Hd. simpl in Hd.
  repeat (destruct Hd as [<-|Hd]; [reflexivity|]). done.
Qed.

Lemma int_digits_pretty x s acc after_digit :
  (0 < x)%N →
  ∃ m, int_digits (pretty_N_go x s) acc after_digit
       = int_digits s (acc * m + Z.of_N x) true.
Proof.
  revert s acc after_digit. induction (N.lt_wf_0 x) as [x _ IH].
  intros s acc after_digit Hx.
  rewrite pretty_N_go_step by done.
  assert (Hstep : ∀ a,
    int_digits (String (pretty_N_char (x `mod` 10)) s) a true
    = int_digits s (10 * a + Z.of_N (x `mod` 10)) true
    ∧ int_digits (String (pretty_N_char (x `mod` 10)) s) a false
      = int_digits s (10 * a + Z.of_N (x `mod` 10)) true).
  { intros a. cbn [int_digits]. rewrite pretty_N_char_digit.
    rewrite pretty_N_char_value by (by apply N.mod_lt). done. }
  destruct (decide (0 < x `div` 10)%N) as [Hdiv|Hdiv].
  - destruct (IH (x `div` 10)%N (N.div_lt x 10 Hx eq_refl)
                (String (pretty_N_char (x `mod` 10)) s) acc after_digit Hdiv)
      as [m ->].
    exists (10 * m). rewrite (proj1 (Hstep _)). f_equal.
    pose proof (N.div_mod x 10). lia.
  - apply N.nlt_ge, N.le_0_r in Hdiv. rewrite Hdiv, pretty_N_go_0.
    pose proof (N.div_mod x 10) as Hx10. rewrite Hdiv in Hx10.
    exists 10. destruct after_digit.
    + rewrite (proj1 (Hstep _)). f_equal. lia.
    + rewrite (proj2 (Hstep _)). f_equal. lia.
Qed.

Lemma pretty_N_go_all_digits x s :
  all_chars is_digit s = true → all_chars is_digit (pretty_N_go x s) = true.
Proof.
  revert s. induction (N.lt_wf_0 x) as [x _ IH]. intros s Hs.
  destruct (decide (0 < x)%N) as [Hx|Hx].
  - rewrite pretty_N_go_step by done. apply IH.
    + by apply N.div_lt.
    + simpl. by rewrite Hs, pretty_N_char_digit.
  - assert (x = 0%N) as -> by lia. by rewrite pretty_N_go_0.
Qed.

Lemma digit_not_space a : is_digit a = true → not_space a = true.
Proof. destruct a as [[] [] [] [] [] [] [] []]; by vm_compute. Qed.

Lemma digitish_not_space a : digitish a = true → not_space a = true.
Proof. destruct a as [[] [] [] [] [] [] [] []]; by vm_compute. Qed.

Lemma py_int_digits a s :
  is_digit a = true → all_chars is_digit s = true →
  py_int (String a s) = int_digits (String a s) 0 false.
Proof.
  intros Ha Hs. unfold py_int.
  rewrite strip_nospace.
  - destruct a as [[] [] [] [] [] [] [] []]; try discriminate Ha; reflexivity.
  - cbn [all_chars]. rewrite (digit_not_space a Ha).
    eapply all_chars_ext; [|exact Hs]. apply digit_not_space.
Qed.

Lemma pretty_pos_shape p :
  ∃ a s, pretty (Npos p) = String a s ∧ is_digit a = true
         ∧ all_chars is_digit s = true
         ∧ int_digits (String a s) 0 false = Some (Zpos p).
Proof.
  assert (Hall : all_chars is_digit (pretty (Npos p)) = true).
  { unfold pretty, pretty_N. case_decide; [done|]. by apply pretty_N_go_all_digits. }
  assert (Hval : int_digits (pretty (Npos p)) 0 false = Some (Zpos p)).
  { unfold pretty, pretty_N. case_decide; [done|].
    destruct (int_digits_pretty (Npos p) EmptyString 0 false) as [m ->]; [lia|].
    cbn [int_digits]. f_equal. }
  destruct (pretty (Npos p)) as [|a s]; [done|].
  cbn [all_chars] in Hall. apply andb_prop in Hall as [Ha Hs].
  by exists a, s.
Qed.

(** [int] reads the number that [str] has printed. *)
Lemma py_int_str_of_Z z : py_int (str_of_Z z) = Some z.
Proof.
  unfold str_of_Z, pretty, pretty_Z. destruct z as [|p|p]; [done| |].
  - change (pretty p) with (pretty (Npos p)).
    destruct (pretty_pos_shape p) as (a & s & -> & Ha & Hs & Hv).
    by rewrite py_int_digits.
  - change (pretty p) with (pretty (Npos p)).
    destruct (pretty_pos_shape p) as (a & s & -> & Ha & Hs & Hv).
    change ("-" +:+ String a s) with (String "-" (String a s)).
    unfold py_int. rewrite strip_nospace.
    + by rewrite Hv.
    + cbn [all_chars]. rewrite (digit_not_space a Ha).
      change (not_space "-") with true. cbn [andb].
      eapply all_chars_ext; [|exact Hs]. apply digit_not_space.
Qed.

Lemma str_of_Z_shape z :
  ∃ a s, str_of_Z z = String a s ∧ digitish a = true.
Proof.
  pose proof (str_of_Z_digits z) as H.
  destruct (str_of_Z z) as [|a s] eqn:E.
  - pose proof (py_int_str_of_Z z) as Hp. by rewrite E in Hp.
  - cbn [all_chars] in H. apply andb_prop in H as [Ha _]. by exists a, s.
Qed.

(** *** Lines *)

Lemma readlines_go_line body rest cur :
  all_chars not_newline_char body = true →
  readlines_go (body +:+ String newline rest) cur
  = (str_rev cur +:+ body +:+ String newline EmptyString)
    :: readlines_go rest EmptyString.
Proof.
  revert cur. induction body as [|c body IH]; intros cur H.
  - cbn [String.append readlines_go]. rewrite Ascii.eqb_refl.
    by rewrite str_rev_cons.
  - cbn [all_chars] in H. apply andb_prop in H as [Hc Hb].
    change (String c body +:+ String newline rest)
      with (String c (body +:+ String newline rest)).
    cbn [readlines_go]. unfold not_newline_char, is_newline in Hc.
    apply negb_true_iff in Hc. rewrite Hc, IH by done.
    by rewrite str_rev_cons, !str_app_assoc.
Qed.

(** [readlines] gives back the lines that were written one after the
    other. *)
Lemma readlines_lines lines :
  Forall single_line lines → readlines (concat_str lines) = lines.
Proof.
  induction 1 as [|line lines (body & -> & Hbody) _ IH]; [done|].
  cbn [concat_str]. rewrite str_app_assoc.
  change (String newline EmptyString +:+ concat_str lines)
    with (String newline (concat_str lines)).
  unfold readlines. rewrite readlines_go_line by done.
  f_equal. exact IH.
Qed.

End Texts.

(** ** The built-in trace and its parser *)

Import VerilogSyntaxChecker VCDParser SimulationThread.

Section ParsedLines.

(** *** Lines that leave the declarations alone *)

Lemma same_static_refl m : same_static m m.
Proof. by intros k. Qed.

Lemma same_static_trans m1 m2 m3 :
  same_static m1 m2 → same_static m2 m3 → same_static m1 m3.
Proof. intros H1 H2 k. by rewrite H1. Qed.

Lemma record_change_static st identifier value :
  same_static (signals (self st))
              (signals (self (record_change st identifier value))).
Proof.
  unfold record_change.
  destruct (signals (self st) !! identifier) as [sig|] eqn:E;
    [|apply same_static_refl].
  intros k. cbn. destruct (decide (k = identifier)) as [->|Hne].
  - by rewrite lookup_insert_eq, E.
  - by rewrite lookup_insert_ne.
Qed.

Lemma record_change_timescale st identifier value :
  timescale (self (record_change st identifier value)) = timescale (self st).
Proof.
  unfold record_change. by destruct (signals (self st) !! identifier).
Qed.

Lemma startswith_head a p c s :
  a ≠ c → startswith (String a p) (String c s) = false.
Proof. intros H. cbn. by apply Ascii.eqb_neq in H as ->. Qed.

(** A line whose first character is neither [$] nor [#]. *)
Lemma benign_other line c line_tail :
  strip line = String c line_tail → c ≠ "$"%char → c ≠ "#"%char → benign line.
Proof.
  intros Hs Hd Hh st. unfold parse_line. rewrite Hs.
  rewrite !(startswith_head "$") by done.
  rewrite (startswith_head "#") by done.
  destruct (in_header st); cbn [negb].
  { eexists; split; [done|]. split; [apply same_static_refl|done]. }
  destruct (one_of "01xzXZ" c).
  { eexists; split; [done|].
    split; [apply record_change_static|apply record_change_timescale]. }
  destruct (Ascii.eqb c "b").
  - destruct (split_ws (String c line_tail)) as [|part0 [|identifier rest]];
      (eexists; split; [done|]);
      [split; [apply same_static_refl|done]
      |split; [apply same_static_refl|done]
      |split; [apply record_change_static|apply record_change_timescale]].
  - eexists; split; [done|]. split; [apply same_static_refl|done].
Qed.

Lemma benign_marker line time :
  strip line = "#" +:+ str_of_Z time → benign line.
Proof.
  intros Hs st. unfold parse_line. rewrite Hs.
  change ("#" +:+ str_of_Z time) with (String "#" (str_of_Z time)).
  rewrite !(startswith_head "$") by done.
  destruct (in_header st); cbn [negb].
  { eexists; split; [done|]. split; [apply same_static_refl|done]. }
  change (startswith "#" (String "#" (str_of_Z time))) with true. cbv iota.
  rewrite py_int_str_of_Z. eexists; split; [done|].
  split; [apply same_static_refl|done].
Qed.

Lemma not_space_not_newline a : not_space a = true → not_newline_char a = true.
Proof. destruct a as [[] [] [] [] [] [] [] []]; by vm_compute. Qed.

Lemma digitish_head a : digitish a = true → a ≠ "$"%char ∧ a ≠ "#"%char.
Proof. destruct a as [[] [] [] [] [] [] [] []]; by vm_compute. Qed.

Lemma body_line_benign line : body_line line → benign line.
Proof.
  destruct 1 as [time|value sig_id Hid|bits sig_id Hbits Hid| |].
  - apply (benign_marker _ time).
    rewrite <- str_app_assoc. unfold nl. rewrite strip_line by done.
    apply strip_nospace.
    change ("#" +:+ str_of_Z time) with (String "#" (str_of_Z time)).
    cbn [all_chars]. change (not_space "#") with true. cbn [andb].
    eapply all_chars_ext; [|apply str_of_Z_digits]. apply digitish_not_space.
  - destruct (str_of_Z_shape value) as (a & s & E & Ha).
    rewrite E.
    change (String a s +:+ sig_id +:+ nl) with (String a (s +:+ sig_id +:+ nl)).
    destruct (strip_head a (s +:+ sig_id +:+ nl)) as [line_tail Hstrip].
    { pose proof (digitish_not_space a Ha) as H. unfold not_space in H.
      by apply negb_true_iff in H. }
    destruct (digitish_head a Ha).
    by eapply benign_other.
  - change ("b" +:+ bits +:+ " " +:+ sig_id +:+ nl)
      with (String "b" (bits +:+ " " +:+ sig_id +:+ nl)).
    destruct (strip_head "b" (bits +:+ " " +:+ sig_id +:+ nl))
      as [line_tail Hstrip]; [done|].
    by eapply benign_other.
  - intros st. exists st. split; [|split; [apply same_static_refl|done]].
    unfold parse_line. by destruct (in_header st).
  - intros st. exists st. split; [|split; [apply same_static_refl|done]].
    unfold parse_line. by destruct (in_header st).
Qed.

Lemma single_line_intro body :
  all_chars not_newline_char body = true → single_line (body +:+ nl).
Proof. intros H. by exists body. Qed.

Lemma all_chars_not_newline s :
  all_chars not_space s = true → all_chars not_newline_char s = true.
Proof. apply all_chars_ext, not_space_not_newline. Qed.

Lemma body_line_single line : body_line line → single_line line.
Proof.
  destruct 1 as [time|value sig_id Hid|bits sig_id Hbits Hid| |].
  - rewrite <- str_app_assoc. apply single_line_intro.
    rewrite all_chars_app. apply andb_true_intro. split; [done|].
    apply all_chars_not_newline.
    eapply all_chars_ext; [|apply str_of_Z_digits]. apply digitish_not_space.
  - rewrite <- str_app_assoc. apply single_line_intro.
    rewrite all_chars_app. apply andb_true_intro. split.
    + apply all_chars_not_newline.
      eapply all_chars_ext; [|apply str_of_Z_digits]. apply digitish_not_space.
    + by apply all_chars_not_newline.
  - rewrite <- !str_app_assoc. apply single_line_intro.
    rewrite !all_chars_app. repeat (apply andb_true_intro; split); try done;
      by apply all_chars_not_newline.
  - by apply (single_line_intro "$dumpvars").
  - by apply (single_line_intro "$end").
Qed.

Lemma parse_lines_app st st' lines1 lines2 :
  parse_lines st lines1 = (st', false) →
  parse_lines st (lines1 ++ lines2) = parse_lines st' lines2.
Proof.
  revert st. induction lines1 as [|line lines1 IH]; intros st H.
  - by injection H as ->.
  - cbn [parse_lines app] in *. destruct (parse_line st line); [by apply IH|done].
Qed.

Lemma parse_lines_cons st st' line lines :
  parse_line st line = Some st' →
  parse_lines st (line :: lines) = parse_lines st' lines.
Proof. intros H. cbn [parse_lines]. by rewrite H. Qed.

Lemma parse_lines_benign lines st :
  Forall benign lines →
  ∃ st', parse_lines st lines = (st', false)
         ∧ same_static (signals (self st)) (signals (self st'))
         ∧ timescale (self st') = timescale (self st).
Proof.
  intros H. revert st. induction H as [|line lines Hline _ IH]; intros st.
  - exists st. split; [done|]. split; [apply same_static_refl|done].
  - destruct (Hline st) as (st1 & E & Hs1 & Ht1). cbn [parse_lines]. rewrite E.
    destruct (IH st1) as (st' & E' & Hs' & Ht'). exists st'. split; [done|].
    split; [by eapply same_static_trans|by rewrite Ht'].
Qed.

End ParsedLines.

Section Declarations.

(** *** Lines of words *)

Lemma spaceless_inv w :
  spaceless w = true → w ≠ EmptyString ∧ all_chars not_space w = true.
Proof.
  unfold spaceless. intros H. apply andb_prop in H as [Hne Hw]. split; [|done].
  intros ->. discriminate Hne.
Qed.

Lemma spaceless_intro w :
  w ≠ EmptyString → all_chars not_space w = true → spaceless w = true.
Proof.
  intros Hne Hw. unfold spaceless. rewrite Hw, andb_true_r.
  apply negb_true_iff, String.eqb_neq. done.
Qed.

Lemma split_ws_join ws :
  forallb spaceless ws = true → split_ws (join " " ws) = ws.
Proof.
  unfold split_ws. induction ws as [|w ws IH]; [done|].
  cbn [forallb]. intros H. apply andb_prop in H as [Hw Hws].
  apply spaceless_inv in Hw as [Hne Hw].
  destruct ws as [|w' ws].
  - by apply split_ws_last.
  - change (join " " (w :: w' :: ws)) with (w +:+ String " " (join " " (w' :: ws))).
    rewrite split_ws_word by done. f_equal. by apply IH.
Qed.

Lemma spaceless_rev w :
  spaceless w = true → ∃ c r, str_rev w = String c r ∧ not_space c = true.
Proof.
  intros H. apply spaceless_inv in H as [Hne Hw].
  rewrite <- all_chars_rev in Hw.
  destruct (str_rev w) as [|c r] eqn:E.
  - apply (f_equal str_rev) in E. rewrite str_rev_involutive in E. by subst.
  - cbn [all_chars] in Hw. apply andb_prop in Hw as [Hc _]. by exists c, r.
Qed.

Lemma join_rev_head ws :
  ws ≠ [] → forallb spaceless ws = true →
  ∃ c r, str_rev (join " " ws) = String c r ∧ not_space c = true.
Proof.
  induction ws as [|w ws IH]; [done|]. intros _.
  cbn [forallb]. intros H. apply andb_prop in H as [Hw Hws].
  destruct ws as [|w' ws].
  - by apply spaceless_rev.
  - destruct IH as (c & r & E & Hc); [done|done|].
    change (join " " (w :: w' :: ws)) with (w +:+ " " +:+ join " " (w' :: ws)).
    rewrite !str_rev_app, E. by exists c, ((r +:+ str_rev " ") +:+ str_rev w).
Qed.

Lemma join_head ws w :
  spaceless w = true →
  ∃ c r, join " " (w :: ws) = String c r ∧ not_space c = true.
Proof.
  intros H. apply spaceless_inv in H as [Hne Hw].
  destruct w as [|c r]; [done|].
  cbn [all_chars] in Hw. apply andb_prop in Hw as [Hc _].
  destruct ws; by eexists c, _.
Qed.

Lemma strip_join ws :
  ws ≠ [] → forallb spaceless ws = true →
  strip (join " " ws +:+ nl) = join " " ws.
Proof.
  intros Hne H.
  destruct (join_rev_head ws Hne H) as (c & r & E & Hc).
  destruct ws as [|w ws]; [done|].
  pose proof H as H'. cbn [forallb] in H'. apply andb_prop in H' as [Hw _].
  destruct (join_head ws w Hw) as (c' & r' & E' & Hc').
  unfold nl. rewrite strip_line.
  - apply strip_keep; [by rewrite E'|by rewrite E].
  - by rewrite E'.
  - by rewrite E'.
Qed.

Lemma all_chars_join P ws :
  P " "%char = true → Forall (λ w, all_chars P w = true) ws →
  all_chars P (join " " ws) = true.
Proof.
  intros Hsp. induction 1 as [|w ws Hw Hws IH]; [done|].
  destruct ws as [|w' ws]; [done|].
  change (join " " (w :: w' :: ws)) with (w +:+ " " +:+ join " " (w' :: ws)).
  rewrite !all_chars_app, Hw, IH. cbn. by rewrite Hsp.
Qed.

Lemma single_line_join ws :
  forallb spaceless ws = true → single_line (join " " ws +:+ nl).
Proof.
  intros H. apply single_line_intro, all_chars_join; [done|].
  apply Forall_forall. intros w Hin.
  rewrite forallb_forall in H. apply list_elem_of_In, H in Hin.
  apply spaceless_inv in Hin as [_ Hw]. by apply all_chars_not_newline.
Qed.

Lemma spaceless_number z : spaceless (str_of_Z z) = true.
Proof.
  destruct (str_of_Z_shape z) as (a & s & E & Ha).
  apply spaceless_intro; [by rewrite E|].
  eapply all_chars_ext; [|apply str_of_Z_digits]. apply digitish_not_space.
Qed.

(** *** The declaration lines *)

(** A scope line adds its third word to the hierarchy. *)
Lemma parse_scope_line st name :
  spaceless name = true →
  parse_line st ("$scope module " +:+ name +:+ " $end" +:+ nl)
  = Some (set_self st (Self (timescale (self st)) (signals (self st))
                            (changes (self st))
                            (scope_hierarchy (self st) ++ [name]))).
Proof.
  intros Hname.
  assert (Hline : "$scope module " +:+ name +:+ " $end" +:+ nl
                  = join " " ["$scope"; "module"; name; "$end"] +:+ nl).
  { cbn [join]. by rewrite !str_app_assoc. }
  assert (Hws : forallb spaceless ["$scope"; "module"; name; "$end"] = true).
  { cbn [forallb]. by rewrite Hname. }
  rewrite Hline. unfold parse_line. rewrite strip_join by done.
  pose proof (split_ws_join _ Hws) as Hsplit.
  assert (H1 : startswith "$timescale" (join " " ["$scope"; "module"; name; "$end"]) = false)
    by reflexivity.
  assert (H2 : startswith "$scope" (join " " ["$scope"; "module"; name; "$end"]) = true)
    by reflexivity.
  destruct (join " " ["$scope"; "module"; name; "$end"]) as [|line0 line_tail];
    [done|].
  by rewrite H1, H2, Hsplit.
Qed.

(** A declaration line registers the signal under its identifier. *)
Lemma parse_var_line st width sig_id name :
  spaceless sig_id = true → spaceless name = true →
  parse_line st ("$var wire " +:+ str_of_Z width +:+ " " +:+ sig_id +:+ " "
                 +:+ name +:+ " $end" +:+ nl)
  = Some (set_self st
            (Self (timescale (self st))
               (<[sig_id := Signal name (join "." (scope_hierarchy (self st) ++ [name]))
                                   width "wire" []]> (signals (self st)))
               (changes (self st)) (scope_hierarchy (self st)))).
Proof.
  intros Hid Hname.
  set (ws := ["$var"; "wire"; str_of_Z width; sig_id; name; "$end"]).
  assert (Hline : "$var wire " +:+ str_of_Z width +:+ " " +:+ sig_id +:+ " "
                  +:+ name +:+ " $end" +:+ nl
                  = join " " ws +:+ nl).
  { unfold ws. cbn [join]. by rewrite !str_app_assoc. }
  assert (Hws : forallb spaceless ws = true).
  { unfold ws. cbn [forallb]. by rewrite Hid, Hname, spaceless_number. }
  rewrite Hline. unfold parse_line. rewrite strip_join by done.
  pose proof (split_ws_join _ Hws) as Hsplit.
  assert (H1 : startswith "$timescale" (join " " ws) = false) by reflexivity.
  assert (H2 : startswith "$scope" (join " " ws) = false) by reflexivity.
  assert (H3 : startswith "$upscope" (join " " ws) = false) by reflexivity.
  assert (H4 : startswith "$var" (join " " ws) = true) by reflexivity.
  destruct (join " " ws) as [|line0 line_tail]; [done|].
  rewrite H1, H2, H3, H4, Hsplit. unfold ws. cbv iota.
  by rewrite py_int_str_of_Z.
Qed.

(** *** Identifiers *)

Lemma sig_id_code n : (n < 256)%nat → N_of_ascii (ascii_of_nat n) = N.of_nat n.
Proof. intros H. unfold ascii_of_nat. apply N_ascii_embedding. lia. Qed.

Lemma sig_id_of_inj a b :
  (a < 256)%nat → (b < 256)%nat → sig_id_of a = sig_id_of b → a = b.
Proof.
  intros Ha Hb E. injection E as E. apply (f_equal N_of_ascii) in E.
  rewrite !sig_id_code in E by done. lia.
Qed.

Lemma sig_id_spaceless n :
  (33 ≤ n < 128)%nat → spaceless (sig_id_of n) = true.
Proof.
  intros H. apply spaceless_intro; [done|].
  unfold sig_id_of. cbn [all_chars]. rewrite andb_true_r.
  unfold not_space, is_space, char_in.
  pose proof (sig_id_code n) as E. rewrite E by lia.
  apply negb_true_iff.
  destruct (Ascii.eqb_spec (ascii_of_nat n) " ") as [Heq|_].
  { apply (f_equal N_of_ascii) in Heq. rewrite E in Heq by lia.
    change (N_of_ascii " ") with 32%N in Heq. lia. }
  rewrite orb_false_r. apply orb_false_iff. split; apply andb_false_iff; right;
    apply N.leb_gt.
  - change (N_of_ascii "013") with 13%N. lia.
  - change (N_of_ascii "031") with 31%N. lia.
Qed.

Lemma chr_some var_id sig_id :
  chr var_id = Some sig_id → (var_id < 128)%nat ∧ sig_id = sig_id_of var_id.
Proof.
  unfold chr. destruct (Nat.ltb_spec var_id 128); [|done].
  intros E. by injection E as <-.
Qed.

(** *** The signal table of the declarations *)

Lemma declared_app scope ports1 ports2 var_id m :
  declared scope (ports1 ++ ports2) var_id m
  = declared scope ports2 (var_id + length ports1)
             (declared scope ports1 var_id m).
Proof.
  revert var_id m. induction ports1 as [|p ports1 IH]; intros var_id m.
  - cbn. by rewrite Nat.add_0_r.
  - cbn [app declared length]. rewrite IH. f_equal. lia.
Qed.

Lemma declared_other scope ports var_id m identifier :
  (∀ i, (i < length ports)%nat → identifier ≠ sig_id_of (var_id + i)) →
  declared scope ports var_id m !! identifier = m !! identifier.
Proof.
  revert var_id m. induction ports as [|p ports IH]; intros var_id m H; [done|].
  cbn [declared]. rewrite IH.
  - apply lookup_insert_ne. intros E. apply (H O); [cbn; lia|].
    by rewrite Nat.add_0_r.
  - intros i Hi. replace (S var_id + i)%nat with (var_id + S i)%nat by lia.
    apply H. cbn. lia.
Qed.

Lemma declared_lookup scope ports var_id m i p :
  ports !! i = Some p →
  (var_id + length ports ≤ 256)%nat →
  declared scope ports var_id m !! sig_id_of (var_id + i)
  = Some (Signal (p_name p) (join "." (scope ++ [p_name p])) (width_int p) "wire" []).
Proof.
  revert var_id m i. induction ports as [|q ports IH]; intros var_id m i Hi Hle;
    [done|].
  cbn [length] in Hle. destruct i as [|i]; cbn [declared].
  - injection Hi as ->. rewrite Nat.add_0_r, declared_other.
    + apply lookup_insert_eq.
    + intros j Hj E. apply sig_id_of_inj in E; lia.
  - replace (var_id + S i)%nat with (S var_id + i)%nat by lia.
    apply IH; [done|lia].
Qed.

Lemma declared_dom scope ports var_id m identifier :
  is_Some (declared scope ports var_id m !! identifier) →
  is_Some (m !! identifier)
  ∨ ∃ i, (i < length ports)%nat ∧ identifier = sig_id_of (var_id + i).
Proof.
  revert var_id m. induction ports as [|p ports IH]; intros var_id m H;
    [by left|].
  cbn [declared] in H. apply IH in H as [H|(i & Hi & ->)].
  - destruct (decide (identifier = sig_id_of var_id)) as [->|Hne].
    + right. exists O. split; [cbn; lia|]. by rewrite Nat.add_0_r.
    + left. by rewrite lookup_insert_ne in H.
  - right. exists (S i). split; [cbn; lia|]. f_equal. lia.
Qed.

(** *** The loops over the ports *)

Lemma dict_set_Forall {V : Type} (P : string * V → Prop) key value d :
  (∀ k, P (k, value)) → Forall P d → Forall P (dict_set key value d).
Proof.
  intros Hv. induction 1 as [|[k v] d Hkv Hd IH]; cbn [dict_set].
  - by constructor.
  - destruct (String.eqb k key); constructor; done.
Qed.

Lemma dict_get_Forall {V : Type} (P : string * V → Prop) key value d :
  Forall P d → dict_get key d = Some value → ∃ k, P (k, value).
Proof.
  induction 1 as [|[k v] d Hkv Hd IH]; cbn [dict_get]; [done|].
  destruct (String.eqb k key).
  - intros E. injection E as <-. by exists k.
  - exact IH.
Qed.

(** The lines that a loop over the ports appends are read as the
    declarations of the ports, in their order. *)
Lemma declare_parsed type ports var_id signal_map var_id' signal_map' lines
    tsc sigs chgs scopes hdr now :
  declare type ports var_id signal_map = Some (var_id', signal_map', lines) →
  (33 ≤ var_id)%nat →
  forallb (λ p, spaceless (p_name p)) ports = true →
  ids_ok signal_map →
  var_id' = (var_id + length ports)%nat
  ∧ (ports ≠ [] → var_id' ≤ 128)%nat
  ∧ ids_ok signal_map'
  ∧ Forall single_line lines
  ∧ parse_lines (State (Self tsc sigs chgs scopes) hdr now) lines
    = (State (Self tsc (declared scopes ports var_id sigs) chgs scopes) hdr now,
       false).
Proof.
  revert var_id signal_map var_id' signal_map' lines sigs.
  induction ports as [|p ports IH];
    intros var_id signal_map var_id' signal_map' lines sigs Hd Hlo Hnames Hids.
  - cbn in Hd. injection Hd as <- <- <-. rewrite Nat.add_0_r.
    repeat split; done.
  - cbn [declare] in Hd. destruct (chr var_id) as [sig_id|] eqn:Hchr; [|done].
    apply chr_some in Hchr as [Hhi ->].
    cbn [forallb] in Hnames. apply andb_prop in Hnames as [Hp Hnames].
    destruct (declare type ports (S var_id) _) as [[[v sm] ls]|] eqn:Hrest;
      [|done].
    remember ("$var wire " +:+ str_of_Z (width_int p) +:+ " "
              +:+ sig_id_of var_id +:+ " " +:+ p_name p +:+ " $end" +:+ nl)
      as line eqn:Hline in Hd.
    injection Hd as <- <- <-.
    pose proof (sig_id_spaceless var_id (conj Hlo Hhi)) as Hid.
    eapply (IH _ _ _ _ _
              (<[sig_id_of var_id :=
                   Signal (p_name p) (join "." (scopes ++ [p_name p]))
                          (width_int p) "wire" []]> sigs))
      in Hrest as (-> & Hbound & Hids' & Hsingle & Hparse); [|lia|done|].
    + split; [cbn; lia|]. split.
      { intros _. destruct ports; [cbn; lia|]. cbn in *.
        assert (S var_id + S (length ports) ≤ 128)%nat by (by apply Hbound).
        lia. }
      split; [done|]. split.
      { constructor; [|done].
        assert (Hjoin : line
                        = join " " ["$var"; "wire"; str_of_Z (width_int p);
                                    sig_id_of var_id; p_name p; "$end"] +:+ nl).
        { rewrite Hline. cbn [join]. by rewrite !str_app_assoc. }
        rewrite Hjoin. apply single_line_join. cbn [forallb].
        by rewrite Hid, Hp, spaceless_number. }
      cbn [parse_lines]. rewrite Hline, parse_var_line by done. exact Hparse.
    + apply dict_set_Forall; [|done]. intros k. cbn.
      by apply spaceless_inv in Hid as [_ ?].
Qed.

End Declarations.

Section Generated.

Variable rng : Type.
Variable random_above : rng → bool * rng.
Variable randint : Z → Z → rng → Z * rng.

(** *** The lines that the loops append *)

Lemma repeat_zero_not_space n : all_chars not_space (repeat_str "0" n) = true.
Proof. induction n as [|n IH]; [done|]. cbn. exact IH. Qed.

Lemma bin_pos_not_space p : all_chars not_space (bin_pos p) = true.
Proof.
  induction p as [p IH|p IH|]; cbn [bin_pos]; [| |done];
    by rewrite all_chars_app, IH.
Qed.

Lemma bin_digits_not_space value : all_chars not_space (bin_digits value) = true.
Proof. destruct value; [done|apply bin_pos_not_space|apply bin_pos_not_space]. Qed.

Lemma zfill_not_space width s :
  all_chars not_space s = true → all_chars not_space (zfill width s) = true.
Proof. intros H. unfold zfill. by rewrite all_chars_app, repeat_zero_not_space. Qed.

Lemma id_of_ok signal_map name :
  ids_ok signal_map → all_chars not_space (id_of signal_map name) = true.
Proof.
  intros H. unfold id_of. destruct (dict_get name signal_map) as [info|] eqn:E;
    [|done].
  by destruct (dict_get_Forall _ _ _ _ H E) as [k Hk].
Qed.

Lemma random_change_lines skipped st item st' :
  all_chars not_space (si_id item.2) = true →
  Forall body_line (appended st) →
  random_change rng random_above randint skipped st item = Some st' →
  Forall body_line (appended st').
Proof.
  destruct item as [sig_name info]. cbn [snd]. intros Hid Hst. unfold random_change.
  destruct (negb (named sig_name skipped)); [|by intros [= <-]].
  destruct (random_above (generator st)) as [above g].
  destruct above; [|by intros [= <-]].
  destruct (si_width info =? 1).
  - destruct (randint 0 1 g) as [value g']. intros [= <-]. cbn.
    apply Forall_app. split; [done|]. constructor; [|done]. by constructor.
  - destruct (si_width info <? 0); [done|].
    destruct (randint 0 _ g) as [value g']. intros [= <-]. cbn.
    apply Forall_app. split; [done|]. constructor; [|done].
    constructor; [|done]. apply zfill_not_space, bin_digits_not_space.
Qed.

Lemma random_changes_lines skipped items st st' :
  ids_ok items →
  Forall body_line (appended st) →
  random_changes rng random_above randint skipped items st = Some st' →
  Forall body_line (appended st').
Proof.
  intros Hids. revert st. induction Hids as [|item items Hitem _ IH];
    intros st Hst; cbn [random_changes]; [by intros [= <-]|].
  destruct (random_change _ _ _ skipped st item) as [st1|] eqn:E; [|done].
  apply IH. by eapply random_change_lines.
Qed.

Lemma time_step_lines signal_map clock_signals reset_signals st t st' :
  ids_ok signal_map →
  Forall body_line (appended st) →
  time_step rng random_above randint signal_map clock_signals reset_signals st t
  = Some st' →
  Forall body_line (appended st').
Proof.
  intros Hids Hst. unfold time_step.
  set (st1 := LoopState (current_values st) (generator st)
                (appended st ++ ["#" +:+ str_of_Z t +:+ nl])).
  assert (H1 : Forall body_line (appended st1)).
  { apply Forall_app. split; [done|]. constructor; [|done]. constructor. }
  set (st2 := match clock_signals with [] => st1 | _ => _ end).
  assert (H2 : Forall body_line (appended st2)).
  { unfold st2. destruct clock_signals as [|clk_name ?]; [done|]. cbn.
    apply Forall_app. split; [done|]. constructor; [|done].
    constructor. by apply id_of_ok. }
  set (st3 := match reset_signals with [] => st2 | _ => _ end).
  assert (H3 : Forall body_line (appended st3)).
  { unfold st3. destruct reset_signals as [|rst_name ?]; [done|].
    destruct (t <? 50); [|done]. cbn.
    apply Forall_app. split; [done|]. constructor; [|done].
    constructor. by apply id_of_ok. }
  destruct ((t `mod` 20 =? 0) && (50 <? t)).
  - by apply random_changes_lines.
  - by intros [= <-].
Qed.

Lemma time_steps_lines signal_map clock_signals reset_signals times st st' :
  ids_ok signal_map →
  Forall body_line (appended st) →
  time_steps rng random_above randint signal_map clock_signals reset_signals
             times st = Some st' →
  Forall body_line (appended st').
Proof.
  intros Hids. revert st. induction times as [|t times IH]; intros st Hst;
    cbn [time_steps]; [by intros [= <-]|].
  destruct (time_step _ _ _ signal_map clock_signals reset_signals st t)
    as [st1|] eqn:E; [|done].
  apply IH. by eapply time_step_lines.
Qed.

Lemma initial_lines signal_map :
  ids_ok signal_map →
  Forall body_line (map (λ item, initial_line item.2) signal_map).
Proof.
  intros H. apply Forall_map. eapply Forall_impl; [exact H|].
  intros [name info] Hid. cbn in *. unfold initial_line.
  destruct (si_width info =? 1).
  - by apply (scalar_line 0).
  - constructor; [apply repeat_zero_not_space|done].
Qed.

(** *** The trace and its parser *)

Lemma parse_upscope_line st :
  parse_line st ("$upscope $end" +:+ nl)
  = Some (set_self st (Self (timescale (self st)) (signals (self st))
                            (changes (self st))
                            (removelast (scope_hierarchy (self st))))).
Proof. reflexivity. Qed.

Lemma parse_enddefinitions_line st :
  parse_line st ("$enddefinitions $end" +:+ nl)
  = Some (State (self st) false (current_time st)).
Proof. reflexivity. Qed.

Lemma header_parsed :
  parse_lines (State init true 0)
    [ "$date" +:+ nl; "   October 1, 2025" +:+ nl; "$end" +:+ nl;
      "$version" +:+ nl; "   AWaveViewer Built-in Generator" +:+ nl;
      "$end" +:+ nl; "$timescale 1ns $end" +:+ nl ]
  = (State (Self (1, -9) ∅ [] []) true 0, false).
Proof. vm_compute. reflexivity. Qed.

Lemma header_single :
  Forall single_line
    [ "$date" +:+ nl; "   October 1, 2025" +:+ nl; "$end" +:+ nl;
      "$version" +:+ nl; "   AWaveViewer Built-in Generator" +:+ nl;
      "$end" +:+ nl; "$timescale 1ns $end" +:+ nl ].
Proof. repeat constructor; by apply single_line_intro. Qed.

Lemma spaceless_tb name :
  all_chars not_space name = true → spaceless (name +:+ "_tb") = true.
Proof.
  intros H. apply spaceless_intro; [by destruct name|].
  by rewrite all_chars_app, H.
Qed.

(** What [generate_sample_vcd] writes, as the parser reads it: the lines of
    the text, the state of the parser after the declarations, and the lines
    that are left. *)
Lemma sample_trace_read mi g content :
  generate_sample_vcd rng random_above randint mi g = Written content →
  all_chars not_space (mi_name mi) = true →
  forallb (λ p, spaceless (p_name p)) (mi_inputs mi ++ mi_outputs mi) = true →
  ∃ st',
    parse_lines (State init true 0) (readlines content) = (st', false)
    ∧ same_static
        (declared [mi_name mi +:+ "_tb"; "uut"] (mi_inputs mi ++ mi_outputs mi)
                  33 ∅)
        (signals (self st'))
    ∧ timescale (self st') = (1, -9)
    ∧ ((mi_inputs mi ++ mi_outputs mi ≠ [] →
        33 + length (mi_inputs mi ++ mi_outputs mi) ≤ 128)%nat).
Proof.
  intros Hgen Hname Hports. unfold generate_sample_vcd in Hgen.
  rewrite forallb_app in Hports. apply andb_prop in Hports as [Hin Hout].
  destruct (declare "input" (mi_inputs mi) 33 []) as [[[v1 sm1] in_lines]|]
    eqn:E1; [|done].
  destruct (declare "output" (mi_outputs mi) v1 sm1) as [[[v2 sm2] out_lines]|]
    eqn:E2; [|done].
  destruct (time_steps _ _ _ sm2 _ _ time_range _) as [st|] eqn:E3; [|done].
  match type of Hgen with
  | Written ?written = _ => remember written as text eqn:Etext
  end.
  injection Hgen as <-. rewrite Etext. clear text Etext.
  set (scopes := [mi_name mi +:+ "_tb"; "uut"]).
  destruct (declare_parsed _ _ _ _ _ _ _ (1, -9) ∅ [] scopes true 0 E1)
    as (Hv1 & Hb1 & Hids1 & Hs1 & Hp1); [lia|done|constructor|].
  destruct (declare_parsed _ _ _ _ _ _ _ (1, -9)
              (declared scopes (mi_inputs mi) 33 ∅) [] scopes true 0 E2)
    as (Hv2 & Hb2 & Hids2 & Hs2 & Hp2); [lia|done|done|].
  assert (Hbody : Forall body_line
                    ((["#0" +:+ nl; "$dumpvars" +:+ nl]
                      ++ map (λ item, initial_line item.2) sm2
                      ++ ["$end" +:+ nl]) ++ appended st)).
  { apply Forall_app. split.
    - constructor; [apply (marker_line 0)|]. constructor; [constructor|].
      apply Forall_app. split; [by apply initial_lines|].
      constructor; [constructor|done].
    - eapply time_steps_lines in E3; [exact E3|done|constructor]. }
  assert (Hscope1 : "$scope module " +:+ mi_name mi +:+ "_tb $end" +:+ nl
                    = "$scope module " +:+ (mi_name mi +:+ "_tb") +:+ " $end" +:+ nl).
  { by rewrite !str_app_assoc. }
  assert (Hsc : parse_lines (State (Self (1, -9) ∅ [] []) true 0)
                  [ "$scope module " +:+ mi_name mi +:+ "_tb $end" +:+ nl;
                    "$scope module uut $end" +:+ nl ]
                = (State (Self (1, -9) ∅ [] scopes) true 0, false)).
  { rewrite Hscope1.
    erewrite parse_lines_cons
      by (apply parse_scope_line; by apply spaceless_tb).
    erewrite parse_lines_cons by (by apply (parse_scope_line _ "uut")).
    reflexivity. }
  assert (Hdefs : ∀ sigs,
            parse_lines (State (Self (1, -9) sigs [] scopes) true 0)
              [ "$upscope $end" +:+ nl; "$upscope $end" +:+ nl;
                "$enddefinitions $end" +:+ nl ]
            = (State (Self (1, -9) sigs [] []) false 0, false)).
  { intros sigs.
    erewrite parse_lines_cons by apply parse_upscope_line.
    erewrite parse_lines_cons by apply parse_upscope_line.
    erewrite parse_lines_cons by apply parse_enddefinitions_line.
    reflexivity. }
  rewrite readlines_lines.
  - destruct (parse_lines_benign _
                (State (Self (1, -9)
                          (declared scopes (mi_outputs mi) v1
                             (declared scopes (mi_inputs mi) 33 ∅)) [] [])
                       false 0)
                (Forall_impl _ _ _ Hbody body_line_benign))
      as (st' & Hparse & Hstatic & Hscale).
    exists st'. split; [|split; [|split]].
    + rewrite (parse_lines_app _ _ _ _ header_parsed).
      rewrite (parse_lines_app _ _ _ _ Hsc).
      rewrite (parse_lines_app _ _ _ _ Hp1), (parse_lines_app _ _ _ _ Hp2).
      rewrite (parse_lines_app _ _ _ _ (Hdefs _)).
      exact Hparse.
    + rewrite declared_app, <- Hv1. exact Hstatic.
    + exact Hscale.
    + intros Hne. rewrite length_app.
      destruct (mi_outputs mi) as [|o outs] eqn:Eo.
      * rewrite app_nil_r in Hne. cbn. specialize (Hb1 Hne). lia.
      * assert (v2 ≤ 128)%nat by (by apply Hb2). lia.
  - apply Forall_app. split; [apply header_single|].
    apply Forall_app. split.
    { constructor.
      - assert (Hjoin : "$scope module " +:+ mi_name mi +:+ "_tb $end" +:+ nl
                        = join " " ["$scope"; "module"; mi_name mi +:+ "_tb"; "$end"]
                          +:+ nl).
        { cbn [join]. by rewrite !str_app_assoc. }
        rewrite Hjoin. apply single_line_join.
        cbn [forallb]. by rewrite spaceless_tb.
      - constructor; [|done]. by apply (single_line_intro "$scope module uut $end"). }
    apply Forall_app. split; [done|]. apply Forall_app. split; [done|].
    apply Forall_app. split.
    { constructor; [by apply (single_line_intro "$upscope $end")|].
      constructor; [by apply (single_line_intro "$upscope $end")|].
      constructor; [by apply (single_line_intro "$enddefinitions $end")|done]. }
    eapply Forall_impl; [exact Hbody|apply body_line_single].
Qed.


(** *** The generator is not left by an exception *)

Lemma declare_some type ports var_id signal_map :
  (var_id + length ports ≤ 128)%nat →
  forallb (λ p, 0 <=? p_width p) ports = true →
  Forall (λ item, 0 ≤ si_width item.2) signal_map →
  ∃ signal_map' lines,
    declare type ports var_id signal_map
    = Some ((var_id + length ports)%nat, signal_map', lines)
    ∧ Forall (λ item, 0 ≤ si_width item.2) signal_map'.
Proof.
  revert var_id signal_map. induction ports as [|p ports IH];
    intros var_id signal_map Hle Hw Hsm.
  - exists signal_map, []. cbn. by rewrite Nat.add_0_r.
  - cbn [length] in Hle. cbn [forallb] in Hw. apply andb_prop in Hw as [Hp Hw].
    cbn [declare]. unfold chr.
    destruct (Nat.ltb_spec var_id 128) as [_|?]; [|lia].
    edestruct (IH (S var_id)) as (sm' & lines & -> & Hsm'); [lia|exact Hw| |].
    + apply dict_set_Forall; [|exact Hsm]. intros k. cbn. unfold width_int.
      destruct (p_width p =? 0); lia.
    + eexists _, _. split; [|exact Hsm']. do 3 f_equal. cbn. lia.
Qed.

Lemma random_change_some skipped st item :
  0 ≤ si_width item.2 →
  is_Some (random_change rng random_above randint skipped st item).
Proof.
  destruct item as [sig_name info]. cbn [snd]. intros Hw. unfold random_change.
  destruct (negb (named sig_name skipped)); [|done].
  destruct (random_above (generator st)) as [above g].
  destruct above; [|done].
  destruct (si_width info =? 1).
  - by destruct (randint 0 1 g).
  - destruct (Z.ltb_spec (si_width info) 0); [lia|].
    by destruct (randint 0 _ g).
Qed.

Lemma random_changes_some skipped items st :
  Forall (λ item, 0 ≤ si_width item.2) items →
  is_Some (random_changes rng random_above randint skipped items st).
Proof.
  intros H. revert st. induction H as [|item items Hitem _ IH]; intros st;
    cbn [random_changes]; [done|].
  destruct (random_change_some skipped st item Hitem) as [st1 ->]. apply IH.
Qed.

Lemma time_steps_some signal_map clock_signals reset_signals times st :
  Forall (λ item, 0 ≤ si_width item.2) signal_map →
  is_Some (time_steps rng random_above randint signal_map clock_signals
                      reset_signals times st).
Proof.
  intros H. revert st. induction times as [|t times IH]; intros st;
    cbn [time_steps]; [done|].
  assert (Hstep : is_Some (time_step rng random_above randint signal_map
                                     clock_signals reset_signals st t)).
  { unfold time_step. destruct ((t `mod` 20 =? 0) && (50 <? t)); [|done].
    by apply random_changes_some. }
  destruct Hstep as [st1 ->]. apply IH.
Qed.


(** *** The time markers of the trace *)

Lemma marker_head c rest :
  is_space c = false → c ≠ "#"%char → marker (String c rest) = None.
Proof.
  intros Hc Hne. unfold marker.
  destruct (strip_head c rest Hc) as [line_tail ->].
  destruct c as [[] [] [] [] [] [] [] []]; try done.
Qed.

Lemma marker_of_marker_line time :
  marker ("#" +:+ str_of_Z time +:+ nl) = Some time.
Proof.
  unfold marker. rewrite <- str_app_assoc. unfold nl.
  rewrite strip_line by done. rewrite strip_nospace.
  - apply py_int_str_of_Z.
  - change ("#" +:+ str_of_Z time) with (String "#" (str_of_Z time)).
    cbn [all_chars]. change (not_space "#") with true. cbn [andb].
    eapply all_chars_ext; [|apply str_of_Z_digits]. apply digitish_not_space.
Qed.

Lemma marker_of_scalar_line value rest :
  marker (str_of_Z value +:+ rest) = None.
Proof.
  destruct (str_of_Z_shape value) as (a & s & -> & Ha).
  destruct (digitish_head a Ha) as [_ Hne].
  apply marker_head; [|done].
  pose proof (digitish_not_space a Ha) as H. unfold not_space in H.
  by apply negb_true_iff in H.
Qed.

Lemma markers_app lines1 lines2 :
  markers (lines1 ++ lines2) = markers lines1 ++ markers lines2.
Proof. apply omap_app. Qed.

Lemma markers_snoc_none lines line :
  marker line = None → markers (lines ++ [line]) = markers lines.
Proof.
  intros H. rewrite markers_app, (markers_cons line []), H. apply app_nil_r.
Qed.

Lemma declare_markers type ports var_id signal_map var_id' signal_map' lines :
  declare type ports var_id signal_map = Some (var_id', signal_map', lines) →
  markers lines = [].
Proof.
  revert var_id signal_map var_id' signal_map' lines.
  induction ports as [|p ports IH];
    intros var_id signal_map var_id' signal_map' lines Hd.
  - cbn in Hd. by injection Hd as <- <- <-.
  - cbn [declare] in Hd. destruct (chr var_id) as [sig_id|]; [|done].
    destruct (declare type ports (S var_id) _) as [[[v sm] ls]|] eqn:Hrest;
      [|done].
    apply IH in Hrest.
    remember ("$var wire " +:+ str_of_Z (width_int p) +:+ " "
              +:+ sig_id +:+ " " +:+ p_name p +:+ " $end" +:+ nl)
      as line eqn:Hline in Hd.
    injection Hd as <- <- <-.
    assert (Hnone : marker line = None).
    { rewrite Hline. by apply (marker_head "$"). }
    by rewrite markers_cons, Hrest, Hnone.
Qed.

Lemma initial_markers (signal_map : list (string * sig_info)) :
  markers (map (λ item, initial_line item.2) signal_map) = [].
Proof.
  induction signal_map as [|[name info] signal_map IH]; [done|].
  cbn [map]. rewrite markers_cons, IH. cbn [snd].
  assert (Hnone : marker (initial_line info) = None).
  { unfold initial_line.
    destruct (si_width info =? 1); [by apply (marker_head "0")|by apply (marker_head "b")]. }
  by rewrite Hnone.
Qed.

Lemma random_change_markers skipped st item st' :
  random_change rng random_above randint skipped st item = Some st' →
  markers (appended st') = markers (appended st).
Proof.
  destruct item as [sig_name info]. unfold random_change.
  destruct (negb (named sig_name skipped)); [|by intros [= <-]].
  destruct (random_above (generator st)) as [above g].
  destruct above; [|by intros [= <-]].
  destruct (si_width info =? 1).
  - destruct (randint 0 1 g) as [value g']. intros [= <-]. cbn [appended].
    apply markers_snoc_none, marker_of_scalar_line.
  - destruct (si_width info <? 0); [done|].
    destruct (randint 0 _ g) as [value g']. intros [= <-]. cbn [appended].
    apply markers_snoc_none. by apply marker_head.
Qed.

Lemma random_changes_markers skipped items st st' :
  random_changes rng random_above randint skipped items st = Some st' →
  markers (appended st') = markers (appended st).
Proof.
  revert st. induction items as [|item items IH]; intros st;
    cbn [random_changes]; [by intros [= <-]|].
  destruct (random_change _ _ _ skipped st item) as [st1|] eqn:E; [|done].
  intros H. apply IH in H. rewrite H. by eapply random_change_markers.
Qed.

Lemma time_step_markers signal_map clock_signals reset_signals st t st' :
  time_step rng random_above randint signal_map clock_signals reset_signals st t
  = Some st' →
  markers (appended st') = markers (appended st) ++ [t].
Proof.
  unfold time_step.
  set (st1 := LoopState (current_values st) (generator st)
                (appended st ++ ["#" +:+ str_of_Z t +:+ nl])).
  assert (H1 : markers (appended st1) = markers (appended st) ++ [t]).
  { cbn [st1 appended]. rewrite markers_app. f_equal.
    by rewrite (markers_cons _ []), marker_of_marker_line. }
  set (st2 := match clock_signals with [] => st1 | _ => _ end).
  assert (H2 : markers (appended st2) = markers (appended st) ++ [t]).
  { unfold st2. destruct clock_signals as [|clk_name ?]; [done|]. cbn [appended].
    rewrite <- H1. apply markers_snoc_none, marker_of_scalar_line. }
  set (st3 := match reset_signals with [] => st2 | _ => _ end).
  assert (H3 : markers (appended st3) = markers (appended st) ++ [t]).
  { unfold st3. destruct reset_signals as [|rst_name ?]; [done|].
    destruct (t <? 50); [|done]. cbn [appended].
    rewrite <- H2. apply markers_snoc_none, marker_of_scalar_line. }
  destruct ((t `mod` 20 =? 0) && (50 <? t)).
  - intros H. apply random_changes_markers in H. by rewrite H.
  - by intros [= <-].
Qed.

Lemma time_steps_markers signal_map clock_signals reset_signals times st st' :
  time_steps rng random_above randint signal_map clock_signals reset_signals
             times st = Some st' →
  markers (appended st') = markers (appended st) ++ times.
Proof.
  revert st. induction times as [|t times IH]; intros st; cbn [time_steps].
  - intros [= <-]. by rewrite app_nil_r.
  - destruct (time_step _ _ _ signal_map clock_signals reset_signals st t)
      as [st1|] eqn:E; [|done].
    intros H. apply IH in H. rewrite H.
    apply time_step_markers in E. rewrite E. by rewrite <- app_assoc.
Qed.

(** The time markers of the trace are those of the initial values and of
    the time steps. *)
Lemma sample_trace_markers mi g content :
  generate_sample_vcd rng random_above randint mi g = Written content →
  all_chars not_space (mi_name mi) = true →
  forallb (λ p, spaceless (p_name p)) (mi_inputs mi ++ mi_outputs mi) = true →
  markers (readlines content) = 0 :: time_range.
Proof.
  intros Hgen Hname Hports. unfold generate_sample_vcd in Hgen.
  rewrite forallb_app in Hports. apply andb_prop in Hports as [Hin Hout].
  destruct (declare "input" (mi_inputs mi) 33 []) as [[[v1 sm1] in_lines]|]
    eqn:E1; [|done].
  destruct (declare "output" (mi_outputs mi) v1 sm1) as [[[v2 sm2] out_lines]|]
    eqn:E2; [|done].
  destruct (time_steps _ _ _ sm2 _ _ time_range _) as [st|] eqn:E3; [|done].
  match type of Hgen with
  | Written ?written = _ => remember written as text eqn:Etext
  end.
  injection Hgen as <-. rewrite Etext. clear text Etext.
  destruct (declare_parsed _ _ _ _ _ _ _ (1, -9) ∅ [] [] true 0 E1)
    as (Hv1 & Hb1 & Hids1 & Hs1 & _); [lia|done|constructor|].
  destruct (declare_parsed _ _ _ _ _ _ _ (1, -9) ∅ [] [] true 0 E2)
    as (Hv2 & Hb2 & Hids2 & Hs2 & _); [lia|done|done|].
  assert (Hbody : Forall body_line
                    ((["#0" +:+ nl; "$dumpvars" +:+ nl]
                      ++ map (λ item, initial_line item.2) sm2
                      ++ ["$end" +:+ nl]) ++ appended st)).
  { apply Forall_app. split.
    - constructor; [apply (marker_line 0)|]. constructor; [constructor|].
      apply Forall_app. split; [by apply initial_lines|].
      constructor; [constructor|done].
    - eapply time_steps_lines in E3; [exact E3|done|constructor]. }
  rewrite readlines_lines.
  - assert (Hheader : markers
                        [ "$date" +:+ nl; "   October 1, 2025" +:+ nl;
                          "$end" +:+ nl; "$version" +:+ nl;
                          "   AWaveViewer Built-in Generator" +:+ nl;
                          "$end" +:+ nl; "$timescale 1ns $end" +:+ nl ] = [])
      by (vm_compute; reflexivity).
    assert (Hscopes : markers
                        [ "$scope module " +:+ mi_name mi +:+ "_tb $end" +:+ nl;
                          "$scope module uut $end" +:+ nl ] = []).
    { assert (Hnone : marker ("$scope module " +:+ mi_name mi +:+ "_tb $end" +:+ nl)
                      = None) by (by apply (marker_head "$")).
      by rewrite markers_cons, Hnone. }
    assert (Hdefs : markers
                      [ "$upscope $end" +:+ nl; "$upscope $end" +:+ nl;
                        "$enddefinitions $end" +:+ nl ] = [])
      by (vm_compute; reflexivity).
    assert (Hzero : markers ["#0" +:+ nl; "$dumpvars" +:+ nl] = [0])
      by (vm_compute; reflexivity).
    assert (Hend : markers ["$end" +:+ nl] = []) by (vm_compute; reflexivity).
    rewrite !markers_app, (declare_markers _ _ _ _ _ _ _ E1),
      (declare_markers _ _ _ _ _ _ _ E2), initial_markers,
      (time_steps_markers _ _ _ _ _ _ E3).
    by rewrite Hheader, Hscopes, Hdefs, Hzero, Hend.
  - apply Forall_app. split; [apply header_single|].
    apply Forall_app. split.
    { constructor.
      - assert (Hjoin : "$scope module " +:+ mi_name mi +:+ "_tb $end" +:+ nl
                        = join " " ["$scope"; "module"; mi_name mi +:+ "_tb"; "$end"]
                          +:+ nl).
        { cbn [join]. by rewrite !str_app_assoc. }
        rewrite Hjoin. apply single_line_join.
        cbn [forallb]. by rewrite spaceless_tb.
      - constructor; [|done]. by apply (single_line_intro "$scope module uut $end"). }
    apply Forall_app. split; [done|]. apply Forall_app. split; [done|].
    apply Forall_app. split.
    { constructor; [by apply (single_line_intro "$upscope $end")|].
      constructor; [by apply (single_line_intro "$upscope $end")|].
      constructor; [by apply (single_line_intro "$enddefinitions $end")|done]. }
    eapply Forall_impl; [exact Hbody|apply body_line_single].
Qed.


End Generated.



